(** * twitchplaysgui: the chat ingestion and dispatch core

    A shallow embedding of the parts of [twitchplaysgui.py] that receive the
    IRC byte stream, cut it into frames, classify the frames, queue the chat
    messages, drain the queue at a time-proportional rate and hand the
    released messages to the worker pool; and, in the modules [ControlBar]
    and [Panel], of the Connect button and of the command panel: the
    actions and what processing them injects, redraw, load and save.

    Conventions of the embedding:
    - [bytes] values are [list byte]; [str] values are [string], read as
      strings of code points below 256, one character each;
    - a Python [float] is a binary64 number of the kernel ([PrimFloat]), with
      the rounding of each operation;
    - a Python [dict] with a fixed set of keys is a record;
    - the socket, the clock, the random generator and the console are an
      explicit [World] threaded through every call; what the program prints,
      sends or sleeps is appended to the world's event log, and every call
      on a socket can fail as the world says;
    - a call that may raise returns a [py_result]; the object state survives
      a raise, as it does in Python. *)

From Stdlib Require Import Strings.String Strings.Ascii Strings.Byte.
From Stdlib Require Import DecimalString.
From Stdlib Require DecimalPos DecimalZ.
From Stdlib Require Import List Bool Arith ZArith QArith Qround Lia.
From Stdlib Require Import Floats.
Import ListNotations.
Close Scope Q_scope.

Set Implicit Arguments.

(* ===================================================================== *)
(** * Python values used by the core *)
(* ===================================================================== *)

Definition bytes := list byte.
Definition str := string.
Bind Scope string_scope with str.

Definition CR : byte := x0d.
Definition LF : byte := x0a.
Definition SP : byte := x20.
Definition BANG : byte := x21.
Definition COLON : byte := x3a.

(** [b"..."] literals. *)
Definition b (s : string) : bytes := list_byte_of_string s.
Arguments b s%_string.

Definition CRLF : bytes := [CR; LF].

(** The exceptions the core can see.  All of them derive from Python's
    [Exception]. *)
Inductive exn : Type :=
| TypeError (msg : string)
| ValueError (msg : string)
| KeyError (msg : string)
| AttributeError (msg : string)
| IndexError (msg : string)
| OSError (msg : string)
| OverflowError (msg : string)
| UnboundLocalError (msg : string)
| OtherException (msg : string).

Inductive py_result (A : Type) : Type :=
| Ok (a : A)
| Raise (e : exn).
Arguments Ok {A} a.
Arguments Raise {A} e.

(** [str(e)] *)
Definition exn_str (e : exn) : string :=
  match e with
  | TypeError m | ValueError m | KeyError m | AttributeError m
  | IndexError m | OSError m | OverflowError m | UnboundLocalError m
  | OtherException m => m
  end.

(** [str.lower()].  Among the code points below 256 Python lowers the
    letters [A] to [Z] and the capital letters of Latin-1, U+00C0 to U+00DE
    without the multiplication sign U+00D7, each to the code point 32 above
    it, and keeps every other one; no such code point lowers to more than
    one character or depends on its neighbours. *)
Definition lower_char (c : ascii) : ascii :=
  let n := nat_of_ascii c in
  if ((65 <=? n)%nat && (n <=? 90)%nat)
     || ((192 <=? n)%nat && (n <=? 222)%nat && negb (n =? 215)%nat)
  then ascii_of_nat (n + 32) else c.

Fixpoint lower (s : str) : str :=
  match s with
  | EmptyString => EmptyString
  | String c s' => String (lower_char c) (lower s')
  end.

(** Python slices [l[i:]] and [l[i:j]] for an index of either sign. *)
Definition slice_index {A} (l : list A) (i : Z) : nat :=
  let n := Z.of_nat (length l) in
  if (i <? 0)%Z then Z.to_nat (Z.max 0 (n + i)) else Z.to_nat (Z.min i n).

Definition slice_from {A} (l : list A) (i : Z) : list A :=
  skipn (slice_index l i) l.

Definition slice {A} (l : list A) (i j : Z) : list A :=
  let lo := slice_index l i in
  let hi := slice_index l j in
  firstn (hi - lo) (skipn lo l).

(** [del l[i:j]] *)
Definition del_slice {A} (l : list A) (i j : Z) : list A :=
  let lo := slice_index l i in
  let hi := slice_index l j in
  firstn lo l ++ skipn (Nat.max lo hi) l.

(** [bytes.split(sep)] for a one-byte separator: the pieces between the
    separators, an empty piece included; never the empty list. *)
Fixpoint split_on (sep : byte) (s : bytes) : list bytes :=
  match s with
  | [] => [[]]
  | c :: s' =>
      if Byte.eqb c sep then [] :: split_on sep s'
      else match split_on sep s' with
           | piece :: rest => (c :: piece) :: rest
           | [] => [[c]]
           end
  end.

(* ===================================================================== *)
(** * The regular expression of [Twitch.f_connect] *)
(* ===================================================================== *)

Module Re.

(** The fragment of Python's [re] syntax the program uses.  Character
    classes only occur negated, and repetition only applies to a class. *)
Inductive regex : Type :=
| Bol                                (* ^ under re.MULTILINE *)
| Lit (c : byte)                     (* a literal byte *)
| Star (excl : list byte)            (* [^excl]*  greedy *)
| Plus (excl : list byte)            (* [^excl]+  greedy *)
| Seq (r1 r2 : regex)
| Alt (r1 r2 : regex)                (* r1|r2, r1 tried first *)
| Opt (r : regex)                    (* (?:r)?  greedy *)
| Group (n : nat) (r : regex).       (* capturing group number n *)

(** A position of the matcher in the subject: the offset, the byte just
    before it (none at offset 0), the bytes still to read, and the groups
    captured on the way. *)
Record mstate : Type := MState {
  m_pos : nat;
  m_prev : option byte;
  m_rest : bytes;
  m_caps : list (nat * bytes)
}.

Definition mem (c : byte) (l : list byte) : bool := existsb (Byte.eqb c) l.

(** Greedy repetition of a negated class: the longest run first, then one
    byte less at a time. *)
Fixpoint run_star (excl : list byte) (pos : nat) (prev : option byte)
         (s : bytes) (caps : list (nat * bytes)) : list mstate :=
  match s with
  | c :: s' =>
      if mem c excl then [MState pos prev s caps]
      else run_star excl (S pos) (Some c) s' caps ++ [MState pos prev s caps]
  | [] => [MState pos prev [] caps]
  end.

Definition at_line_start (st : mstate) : bool :=
  match m_prev st with
  | None => true
  | Some c => Byte.eqb c LF
  end.

(** The state [st'] reached inside group [n], entered at [st]: the group
    now holds the bytes read in between. *)
Definition capture (n : nat) (st st' : mstate) : mstate :=
  MState (m_pos st') (m_prev st') (m_rest st')
         ((n, firstn (m_pos st' - m_pos st) (m_rest st)) :: m_caps st').

(** All the ways [r] matches at [st], in the order a backtracking matcher
    tries them.  The head of the list is the match [re] reports. *)
Fixpoint run (r : regex) (st : mstate) : list mstate :=
  match r with
  | Bol => if at_line_start st then [st] else []
  | Lit c =>
      match m_rest st with
      | x :: s' =>
          if Byte.eqb x c then [MState (S (m_pos st)) (Some x) s' (m_caps st)]
          else []
      | [] => []
      end
  | Star excl => run_star excl (m_pos st) (m_prev st) (m_rest st) (m_caps st)
  | Plus excl =>
      match m_rest st with
      | x :: s' =>
          if mem x excl then []
          else run_star excl (S (m_pos st)) (Some x) s' (m_caps st)
      | [] => []
      end
  | Seq r1 r2 => flat_map (run r2) (run r1 st)
  | Alt r1 r2 => run r1 st ++ run r2 st
  | Opt r' => run r' st ++ [st]
  | Group n r' => map (capture n st) (run r' st)
  end.

(** A match object: [start()], [end()] and the groups. *)
Record match_obj : Type := Match {
  mo_start : nat;
  mo_end : nat;
  mo_caps : list (nat * bytes)
}.

(** [m.group(n)]; [None] when the group took no part in the match. *)
Fixpoint group (n : nat) (caps : list (nat * bytes)) : option bytes :=
  match caps with
  | [] => None
  | (k, v) :: caps' => if Nat.eqb k n then Some v else group n caps'
  end.

(** [pattern.match] anchored at the given position. *)
Definition match_at (r : regex) (pos : nat) (prev : option byte) (s : bytes)
  : option mstate :=
  hd_error (run r (MState pos prev s [])).

(** [pattern.finditer]: the leftmost match from the current offset, then on
    from its end.  A search step moves forward by at least one byte, so
    [S (length s)] steps always reach the end of the subject. *)
Fixpoint finditer_from (fuel : nat) (r : regex) (pos : nat)
         (prev : option byte) (s : bytes) : list match_obj :=
  match fuel with
  | O => []
  | S fuel' =>
      match match_at r pos prev s with
      | Some st' =>
          Match pos (m_pos st') (m_caps st')
          :: (if (pos <? m_pos st')%nat
              then finditer_from fuel' r (m_pos st') (m_prev st') (m_rest st')
              else match s with
                   | c :: s' => finditer_from fuel' r (S pos) (Some c) s'
                   | [] => []
                   end)
      | None =>
          match s with
          | c :: s' => finditer_from fuel' r (S pos) (Some c) s'
          | [] => []
          end
      end
  end.

Definition finditer (r : regex) (s : bytes) : list match_obj :=
  finditer_from (S (length s)) r 0 None s.

End Re.

Import Re.

Declare Scope regex_scope.
Delimit Scope regex_scope with re.
Infix ">>>" := Seq (at level 61, right associativity) : regex_scope.

(** The pattern [f_connect] compiles with [re.MULTILINE].  It is a bytes
    pattern; below it is cut into its factors, one per line, with [SP] for
    the literal blank:
<<
    ^
    (?: :  (?: ( [^ !\r\n]+ ) ! [^ \r\n]*  |  [^ \r\n]* )  SP )?
    ( [^ \r\n]+ )
    (?: SP ( [^:\r\n]* ) )?
    (?: SP : ( [^\r\n]* ) )?
    \r \n
>>
    [re_fields] is the part between the anchor and the line terminator,
    [re_prog] the whole pattern. *)
Definition re_fields : regex :=
  (Opt (Lit COLON
        >>> Alt (Group 1 (Plus [SP; BANG; CR; LF])
                 >>> Lit BANG >>> Star [SP; CR; LF])
                (Star [SP; CR; LF])
        >>> Lit SP)
   >>> Group 2 (Plus [SP; CR; LF])
   >>> Opt (Lit SP >>> Group 3 (Star [COLON; CR; LF]))
   >>> Opt (Lit SP >>> Lit COLON >>> Group 4 (Star [CR; LF])))%re.

Definition re_prog : regex := (Bol >>> re_fields >>> Lit CR >>> Lit LF)%re.

(* ===================================================================== *)
(** * The world around the program *)
(* ===================================================================== *)

(** One parsed IRC line: the dict [f_receiveAndParseData] builds. *)
Record Frame : Type := mkFrame {
  name : str;
  command : str;
  params : list str;
  trailing : str
}.

(** A chat message: the dict [f_twitchReceiveMessages] builds. *)
Record ChatEvent : Type := mkChatEvent {
  username : str;
  message : str
}.

(** [ComputerAction.f_process] injects keyboard and mouse input through
    ctypes and pydirectinput.  The dispatch core only sees whether the call
    returns or raises, so an action is its type tag and that outcome. *)
Record ComputerAction : Type := mkAction {
  actionType : str;
  process_raises : option exn
}.

(** Every [print] site of the core, with the values it prints. *)
Inductive console_line : Type :=
| PConnecting
| PConnectedLoggingIn
| PConnectionError (e : exn)
| PConnectionClosed
| PDesync
| PLoggedIn (chan : str)
| PJoined (chan : str)
| PServerNotice (ps : list str) (t : str)
| PUnhandled (f : Frame)
| PNoResponse
| PCommandReceived
| PGotMessage (user msg : str)
| PEncounteredException (text : str)
| PWorkersWarning (active workers queued : nat).

(** What the program does to the outside, in the order it does it.  A
    duration handed to [time.sleep] or to [settimeout] is written as the
    source writes it ([5], [0.1], [1.0/60.0]), as a rational: the program
    never computes with it. *)
Inductive event : Type :=
| Print (l : console_line)
| Sleep (seconds : Q)
| SockClose
| SockOpen
| SockConnect (host : str) (port : Z)
| SockSend (data : bytes)
| SockSetTimeout (seconds : Q)
| Process (a : ComputerAction)
| Submit (m : ChatEvent).

(** What one call of [sock.recv(4096)] meets. *)
Inductive recv_outcome : Type :=
| RecvData (d : bytes)       (* bytes arrived; none at all: the peer closed *)
| RecvTimeout                (* socket.timeout *)
| RecvError (e : exn).       (* any other exception *)

(** The environment.  [sock.recv] consumes [w_recv]; when the script is
    used up nothing more arrives and the call times out.  Every other call
    on a socket ([socket.socket], [close], [connect], [send], [settimeout])
    consumes one entry of [w_sock]: [None] lets the call through, [Some e]
    makes it raise [e]; when that script is used up the calls go through.
    [time.time()] returns the readings of [w_clock] one after the other,
    and [random.randint] those of [w_randint]. *)
Record World : Type := mkWorld {
  w_recv : list recv_outcome;
  w_sock : list (option exn);
  w_clock : nat -> float;
  w_reads : nat;
  w_randint : nat -> Z;
  w_draws : nat;
  w_log : list event
}.

Definition log (e : event) (w : World) : World :=
  mkWorld (w_recv w) (w_sock w) (w_clock w) (w_reads w) (w_randint w)
          (w_draws w) (w_log w ++ [e]).

Definition with_recv (script : list recv_outcome) (w : World) : World :=
  mkWorld script (w_sock w) (w_clock w) (w_reads w) (w_randint w) (w_draws w)
          (w_log w).

Definition with_sock (script : list (option exn)) (w : World) : World :=
  mkWorld (w_recv w) script (w_clock w) (w_reads w) (w_randint w) (w_draws w)
          (w_log w).

(** Calls that read or change an object of type [S] and the world, and that
    may raise. *)
Section Calls.
Variable S : Type.

Definition M (A : Type) : Type := S -> World -> py_result A * S * World.

Definition ret {A} (a : A) : M A := fun s w => (Ok a, s, w).

Definition bind {A B} (c : M A) (k : A -> M B) : M B :=
  fun s w =>
    match c s w with
    | (Ok a, s', w') => k a s' w'
    | (Raise e, s', w') => (Raise e, s', w')
    end.

Definition raise {A} (e : exn) : M A := fun s w => (Raise e, s, w).

(** An expression that touches nothing: it has a value or raises. *)
Definition eval {A} (r : py_result A) : M A := fun s w => (r, s, w).

Definition get : M S := fun s w => (Ok s, s, w).

Definition emit (e : event) : M unit := fun s w => (Ok tt, s, log e w).

(** A call on the socket module or on a socket object, other than
    [recv]: it raises what the world has in store for it, or goes through,
    and [e] is then what the outside sees of it. *)
Definition sock_call (e : event) : M unit :=
  fun s w =>
    match w_sock w with
    | Some x :: rest => (Raise x, s, with_sock rest w)
    | None :: rest => (Ok tt, s, log e (with_sock rest w))
    | [] => (Ok tt, s, log e w)
    end.

(** [time.time()] *)
Definition time_time : M float :=
  fun s w =>
    (Ok (w_clock w (w_reads w)), s,
     mkWorld (w_recv w) (w_sock w) (w_clock w) (Datatypes.S (w_reads w))
             (w_randint w) (w_draws w) (w_log w)).

(** [random.randint(lo, hi)] *)
Definition random_randint : M Z :=
  fun s w =>
    (Ok (w_randint w (w_draws w)), s,
     mkWorld (w_recv w) (w_sock w) (w_clock w) (w_reads w) (w_randint w)
             (Datatypes.S (w_draws w)) (w_log w)).

(** [try: body  except Exception as e: handler(e)] *)
Definition try_except {A} (body : M A) (handler : exn -> M A) : M A :=
  fun s w =>
    match body s w with
    | (Ok a, s', w') => (Ok a, s', w')
    | (Raise e, s', w') => handler e s' w'
    end.

(** [for x in l: body(x)] *)
Fixpoint for_each {A} (l : list A) (body : A -> M unit) : M unit :=
  match l with
  | [] => ret tt
  | x :: l' => bind (body x) (fun _ => for_each l' body)
  end.
End Calls.

Arguments ret {S A} a.
Arguments raise {S A} e.
Arguments eval {S A} r.
Arguments get {S}.
Arguments emit {S} e.
Arguments sock_call {S} e.
Arguments time_time {S}.
Arguments random_randint {S}.

Declare Scope py_scope.
Delimit Scope py_scope with py.
Notation "x <- c ;; k" := (bind c (fun x => k))
  (at level 61, c at next level, right associativity) : py_scope.
Notation "c ;; k" := (bind c (fun _ => k))
  (at level 61, right associativity) : py_scope.
Local Open Scope py_scope.

(* ===================================================================== *)
(** * class Twitch *)
(* ===================================================================== *)

(** [self.partial] starts as [b''], is assigned slices of the receive
    buffer, and is assigned the list [[]] once a pending tail has been
    used; [+=] on that list extends it with the integers of the bytes. *)
Inductive py_partial : Type :=
| PBytes (data : bytes)
| PList (items : list Z).

(** Truth value of [self.partial]. *)
Definition partial_truthy (p : py_partial) : bool :=
  match p with
  | PBytes [] | PList [] => false
  | _ => true
  end.

(** [self.partial + l_buffer] with [l_buffer] a bytes object.  The text of
    the error is Python's, without its quotation marks. *)
Definition partial_add (p : py_partial) (l_buffer : bytes) : py_result bytes :=
  match p with
  | PBytes data => Ok (data ++ l_buffer)
  | PList _ => Raise (TypeError "can only concatenate list (not bytes) to list")
  end.

(** [self.partial += l_buffer] *)
Definition partial_iadd (p : py_partial) (l_buffer : bytes) : py_partial :=
  match p with
  | PBytes data => PBytes (data ++ l_buffer)
  | PList items => PList (items ++ map (fun c => Z.of_N (Byte.to_N c)) l_buffer)
  end.

Record Twitch : Type := mkTwitch {
  sock : option nat;            (* the socket object, if any *)
  partial : py_partial;
  login_ok : bool;
  channel : str;
  login_timestamp : float
}.

(** The class attributes: the state of [Twitch()] before any connect.  The
    class has the integer [0] for [login_timestamp]; the one use of the
    attribute subtracts it from a float, which takes it as [0.0]. *)
Definition Twitch_new : Twitch :=
  mkTwitch None (PBytes []) false EmptyString 0%float.

Definition set_sock (v : option nat) (t : Twitch) : Twitch :=
  mkTwitch v (partial t) (login_ok t) (channel t) (login_timestamp t).
Definition set_partial (v : py_partial) (t : Twitch) : Twitch :=
  mkTwitch (sock t) v (login_ok t) (channel t) (login_timestamp t).
Definition set_login_ok (v : bool) (t : Twitch) : Twitch :=
  mkTwitch (sock t) (partial t) v (channel t) (login_timestamp t).
Definition set_channel (v : str) (t : Twitch) : Twitch :=
  mkTwitch (sock t) (partial t) (login_ok t) v (login_timestamp t).
Definition set_login_timestamp (v : float) (t : Twitch) : Twitch :=
  mkTwitch (sock t) (partial t) (login_ok t) (channel t) v.

Definition modify (f : Twitch -> Twitch) : M Twitch unit :=
  fun s w => (Ok tt, f s, w).

Definition G_MAX_TIME_TO_WAIT_FOR_LOGIN : float := 3%float.

(** ['%i' % n] *)
Definition format_int (n : Z) : str := NilZero.string_of_int (Z.to_int n).

(** [s.encode()]: UTF-8, one byte for a code point below 128 and two for
    the others below 256. *)
Definition encode_char (c : ascii) : bytes :=
  let n := nat_of_ascii c in
  if (n <? 128)%nat then [byte_of_ascii c]
  else [byte_of_ascii (ascii_of_nat (192 + n / 64));
        byte_of_ascii (ascii_of_nat (128 + n mod 64))].

Definition encode (s : str) : bytes :=
  flat_map encode_char (list_ascii_of_string s).

(** A method call [self.sock.method( ... )] that the outside sees as [e]:
    with no socket at all the attribute lookup on [None] fails. *)
Definition sock_method (method : string) (e : event) : M Twitch unit :=
  self <- get ;;
  match sock self with
  | Some _ => sock_call e
  | None =>
      raise (AttributeError
               (String.append "'NoneType' object has no attribute '"
                              (String.append method "'")))
  end.

(** [self.sock.send( data )] *)
Definition sock_send (data : bytes) : M Twitch unit :=
  sock_method "send" (SockSend data).

Definition f_connect (p_channel : str) : M Twitch unit :=
  self <- get ;;
  match sock self with
  | Some _ => sock_call SockClose
  | None => ret tt
  end ;;
  modify (set_sock None) ;;
  modify (set_partial (PBytes [])) ;;
  modify (set_login_ok false) ;;
  modify (set_channel (lower p_channel)) ;;
  emit (Print PConnecting) ;;
  sock_call SockOpen ;;
  modify (set_sock (Some 0%nat)) ;;
  sock_method "connect" (SockConnect "irc.chat.twitch.tv" 6667) ;;
  n <- random_randint ;;
  let l_user := String.append "justinfan" (format_int n) in
  emit (Print PConnectedLoggingIn) ;;
  sock_send (b "PASS asdf" ++ CRLF ++ b "NICK " ++ encode l_user ++ CRLF) ;;
  sock_method "settimeout" (SockSetTimeout (1 / 60)%Q) ;;
  now <- time_time ;;
  modify (set_login_timestamp now).

Definition f_reconnect (p_delay : Q) : M Twitch unit :=
  emit (Sleep p_delay) ;;
  self <- get ;;
  f_connect (channel self).

(** How the [while True] receive loop of [f_receiveAndParseData] ends. *)
Inductive recv_exit : Type :=
| Drained (l_buffer : bytes)   (* socket.timeout: break *)
| Failed (e : exn)             (* any other exception *)
| Closed.                      (* recv returned no bytes *)

(** The receive loop, run against the scripted socket: what it ends with
    and what is left of the script. *)
Fixpoint recv_loop (script : list recv_outcome) (l_buffer : bytes)
  : recv_exit * list recv_outcome :=
  match script with
  | [] => (Drained l_buffer, [])
  | RecvTimeout :: rest => (Drained l_buffer, rest)
  | RecvError e :: rest => (Failed e, rest)
  | RecvData [] :: rest => (Closed, rest)
  | RecvData d :: rest => recv_loop rest (l_buffer ++ d)
  end.

(** The loop as a call on the object: with no socket at all, [self.sock.recv]
    raises an [AttributeError], which the loop treats as any other error. *)
Definition receive_all : M Twitch recv_exit :=
  fun self w =>
    match sock self with
    | None => (Ok (Failed (AttributeError "'NoneType' object has no attribute 'recv'")), self, w)
    | Some _ =>
        let (r, rest) := recv_loop (w_recv w) [] in
        (Ok r, self, with_recv rest w)
    end.

(** [x or b''] for an optional group. *)
Definition or_empty (g : option bytes) : bytes :=
  match g with
  | Some v => v
  | None => []
  end.

Section Parser.

(** [bytes.decode( errors='replace' )], Python's UTF-8 decoder. *)
Variable decode : bytes -> str.

(** The dict built from one match. *)
Definition frame_of_match (i_match : match_obj) : Frame :=
  mkFrame (decode (or_empty (group 1 (mo_caps i_match))))
          (decode (or_empty (group 2 (mo_caps i_match))))
          (map decode (split_on SP (or_empty (group 3 (mo_caps i_match)))))
          (decode (or_empty (group 4 (mo_caps i_match)))).

(** The part of [f_receiveAndParseData] after the receive loop, entered
    with a non-empty [l_buffer]. *)
Definition parse_buffer (l_buffer : bytes) : M Twitch (list Frame) :=
  self <- get ;;
  l_buffer <-
    (if partial_truthy (partial self)
     then match partial_add (partial self) l_buffer with
          | Ok joined => modify (set_partial (PList [])) ;; ret joined
          | Raise e => raise e
          end
     else ret l_buffer) ;;
  let l_matches := finditer re_prog l_buffer in
  let l_res := map frame_of_match l_matches in
  (match l_matches with
   | [] =>
       self <- get ;;
       modify (set_partial (partial_iadd (partial self) l_buffer))
   | first :: _ =>
       let end_ := mo_end (last l_matches first) in
       (if (end_ <? length l_buffer)%nat
        then modify (set_partial (PBytes (slice_from l_buffer (Z.of_nat end_))))
        else ret tt) ;;
       (if negb (mo_start first =? 0)%nat
        then emit (Print PDesync)
        else ret tt)
   end) ;;
  ret l_res.

Definition f_receiveAndParseData : M Twitch (list Frame) :=
  r <- receive_all ;;
  match r with
  | Failed e =>
      emit (Print (PConnectionError e)) ;;
      f_reconnect 1 ;;
      ret []
  | Closed =>
      emit (Print PConnectionClosed) ;;
      f_reconnect 5 ;;
      ret []
  | Drained l_buffer =>
      match l_buffer with
      | [] => ret []
      | _ => parse_buffer l_buffer
      end
  end.

(** The body of the [for] loop of [f_twitchReceiveMessages] for one
    frame: the messages collected so far, extended or not. *)
Definition classify (l_privmsgs : list ChatEvent) (i_irc_message : Frame)
  : M Twitch (list ChatEvent) :=
  let l_cmd := command i_irc_message in
  if String.eqb l_cmd "PRIVMSG" then
    ret (l_privmsgs ++ [mkChatEvent (name i_irc_message) (trailing i_irc_message)])
  else if String.eqb l_cmd "PING" then
    sock_send (b "PONG :tmi.twitch.tv" ++ CRLF) ;; ret l_privmsgs
  else if String.eqb l_cmd "001" then
    self <- get ;;
    emit (Print (PLoggedIn (channel self))) ;;
    sock_send (b "JOIN #" ++ encode (channel self) ++ CRLF) ;;
    modify (set_login_ok true) ;;
    ret l_privmsgs
  else if String.eqb l_cmd "JOIN" then
    match params i_irc_message with
    | p0 :: _ => emit (Print (PJoined p0)) ;; ret l_privmsgs
    | [] => raise (IndexError "list index out of range")
    end
  else if String.eqb l_cmd "NOTICE" then
    emit (Print (PServerNotice (params i_irc_message) (trailing i_irc_message))) ;;
    ret l_privmsgs
  else if String.eqb l_cmd "002" then ret l_privmsgs
  else if String.eqb l_cmd "003" then ret l_privmsgs
  else if String.eqb l_cmd "004" then ret l_privmsgs
  else if String.eqb l_cmd "375" then ret l_privmsgs
  else if String.eqb l_cmd "372" then ret l_privmsgs
  else if String.eqb l_cmd "376" then ret l_privmsgs
  else if String.eqb l_cmd "353" then ret l_privmsgs
  else if String.eqb l_cmd "366" then ret l_privmsgs
  else emit (Print (PUnhandled i_irc_message)) ;; ret l_privmsgs.

Fixpoint classify_all (l_privmsgs : list ChatEvent) (frames : list Frame)
  : M Twitch (list ChatEvent) :=
  match frames with
  | [] => ret l_privmsgs
  | f :: frames' =>
      l_privmsgs' <- classify l_privmsgs f ;;
      classify_all l_privmsgs' frames'
  end.

(** Lines 1002-1011: the login watchdog at the end of the pass. *)
Definition login_watchdog (l_privmsgs : list ChatEvent)
  : M Twitch (list ChatEvent) :=
  self <- get ;;
  if negb (login_ok self) then
    now <- time_time ;;
    if PrimFloat.ltb G_MAX_TIME_TO_WAIT_FOR_LOGIN
                     (PrimFloat.sub now (login_timestamp self)) then
      emit (Print PNoResponse) ;;
      f_reconnect 0 ;;
      ret []
    else ret l_privmsgs
  else ret l_privmsgs.

Definition f_twitchReceiveMessages : M Twitch (list ChatEvent) :=
  frames <- f_receiveAndParseData ;;
  l_privmsgs <- classify_all [] frames ;;
  login_watchdog l_privmsgs.

End Parser.

(* ===================================================================== *)
(** * Commands and the per-message handler *)
(* ===================================================================== *)

(** [i_action.f_process()] *)
Definition f_process (self : ComputerAction) : M unit unit :=
  emit (Process self) ;;
  match process_raises self with
  | Some e => raise e
  | None => ret tt
  end.

(** A [TwitchCommand] at dispatch time: the content of its [chatText]
    widget ([None] until the command has been drawn) and its actions. *)
Record TwitchCommand : Type := mkCommand {
  chatText : option str;
  actionList : list ComputerAction
}.

Definition f_check (self : TwitchCommand) (p_message : str) : M unit unit :=
  match chatText self with
  | None => raise (AttributeError "'NoneType' object has no attribute 'get'")
  | Some l_command =>
      if String.eqb l_command p_message then
        emit (Print PCommandReceived) ;;
        for_each (actionList self) f_process
      else ret tt
  end.

(** The [try] block of [f_handleMessage]. *)
Definition handle_body (g_commandList : list TwitchCommand)
           (p_message : ChatEvent) : M unit unit :=
  emit (Print (PGotMessage (lower (username p_message))
                           (lower (message p_message)))) ;;
  for_each g_commandList
           (fun i_command => f_check i_command (lower (message p_message))).

Definition f_handleMessage (g_commandList : list TwitchCommand)
           (p_message : ChatEvent) : M unit unit :=
  try_except
    (handle_body g_commandList p_message)
    (fun e =>
       emit (Print (PEncounteredException
                      (String.append "Encountered exception: " (exn_str e))))).

(* ===================================================================== *)
(** * f_mainLoop *)
(* ===================================================================== *)

Definition G_MESSAGE_RATE : float := 0.5%float.
Definition G_MAX_QUEUE_LENGTH : Z := 20.
Definition G_MAX_WORKERS : Z := 100.

(** A future returned by [thread_pool.submit(f_handleMessage, message)]:
    its rank among the submissions and the message it was given. *)
Record Future : Type := mkFuture {
  fut_rank : nat;
  fut_message : ChatEvent
}.

(** The variables of [f_mainLoop], and the [Twitch] object it polls.
    [last_time] is unbound until its first assignment; [thread_pool] counts
    the submissions made so far. *)
Record MainLoop : Type := mkMainLoop {
  l_activeTasks : list Future;
  l_messageQueue : list ChatEvent;
  last_time : option float;
  thread_pool : nat;
  g_twitch : Twitch
}.

Definition set_activeTasks (v : list Future) (s : MainLoop) : MainLoop :=
  mkMainLoop v (l_messageQueue s) (last_time s) (thread_pool s) (g_twitch s).
Definition set_messageQueue (v : list ChatEvent) (s : MainLoop) : MainLoop :=
  mkMainLoop (l_activeTasks s) v (last_time s) (thread_pool s) (g_twitch s).
Definition set_last_time (v : float) (s : MainLoop) : MainLoop :=
  mkMainLoop (l_activeTasks s) (l_messageQueue s) (Some v) (thread_pool s)
             (g_twitch s).
Definition set_thread_pool (v : nat) (s : MainLoop) : MainLoop :=
  mkMainLoop (l_activeTasks s) (l_messageQueue s) (last_time s) v (g_twitch s).
Definition set_twitch (v : Twitch) (s : MainLoop) : MainLoop :=
  mkMainLoop (l_activeTasks s) (l_messageQueue s) (last_time s) (thread_pool s) v.

Definition update (f : MainLoop -> MainLoop) : M MainLoop unit :=
  fun s w => (Ok tt, f s, w).

(** A method call on [g_twitch] made from the loop. *)
Definition on_twitch {A} (c : M Twitch A) : M MainLoop A :=
  fun s w =>
    let '(r, t', w') := c (g_twitch s) w in
    (r, set_twitch t' s, w').

(** What the rest of the program and the user show the loop during one
    pass: the globals it reads, the emergency key combination, and which
    futures report [done()]. *)
Record Controls : Type := mkControls {
  g_windowOpen : bool;
  g_connected : bool;
  g_disabled : bool;
  shift_backspace : bool;
  done : Future -> bool
}.

(** What line 1293 leaves in [r]: the integer [1], or the float of the
    division. *)
Inductive py_number : Type :=
| PyInt (n : Z)
| PyFloat (x : float).

(** [float(n)] for the length of a list, which is below 2^63. *)
Definition float_of_len (n : nat) : float :=
  PrimFloat.of_uint63 (Uint63.of_Z (Z.of_nat n)).

(** [int(x)] of a float: the integer part of a finite number, an error
    for an infinity or a NaN. *)
Definition int_of (x : float) : py_result Z :=
  match Prim2SF x with
  | S754_zero _ => Ok 0%Z
  | S754_finite sign m e =>
      let magnitude :=
        if (0 <=? e)%Z then Z.shiftl (Zpos m) e else Z.shiftr (Zpos m) (- e) in
      Ok (if sign then - magnitude else magnitude)%Z
  | S754_infinity _ =>
      Raise (OverflowError "cannot convert float infinity to integer")
  | S754_nan => Raise (ValueError "cannot convert float NaN to integer")
  end.

(** [int(r * len(l_messageQueue))]: the product of two integers is exact,
    the product of a float and an integer is the float product with the
    integer converted. *)
Definition release_count (r : py_number) (len : nat) : py_result Z :=
  match r with
  | PyInt n => Ok (n * Z.of_nat len)%Z
  | PyFloat x => int_of (PrimFloat.mul x (float_of_len len))
  end.

(** How one pass of [while True] ends. *)
Inductive pass_end : Type :=
| Continues
| Exits.     (* exit() *)

Section Loop.

Variable decode : bytes -> str.

(** The tunable constants of the program. *)
Variable message_rate : float.
Variable max_queue_length : Z.
Variable max_workers : Z.

(** Lines 1276-1278: add the new messages, keep the most recent ones. *)
Definition enqueue (l_newMessages : list ChatEvent) : M MainLoop unit :=
  match l_newMessages with
  | [] => ret tt
  | _ =>
      s <- get ;;
      update (set_messageQueue (l_messageQueue s ++ l_newMessages)) ;;
      s <- get ;;
      update (set_messageQueue (slice_from (l_messageQueue s) (- max_queue_length)))
  end.

(** Lines 1284-1303: the messages to handle in this pass. *)
Definition drain : M MainLoop (list ChatEvent) :=
  s <- get ;;
  match l_messageQueue s with
  | [] =>
      now <- time_time ;;
      update (set_last_time now) ;;
      ret []
  | _ =>
      r <- (if PrimFloat.eqb message_rate 0%float then ret (PyInt 1)
            else
              now <- time_time ;;
              match last_time s with
              | None => raise (UnboundLocalError "local variable 'last_time' referenced before assignment")
              | Some t =>
                  ret (PyFloat (PrimFloat.div (PrimFloat.sub now t) message_rate))
              end) ;;
      n <- eval (release_count r (length (l_messageQueue s))) ;;
      if (0 <? n)%Z then
        let l_messagesToHandle := slice (l_messageQueue s) 0 n in
        update (set_messageQueue (del_slice (l_messageQueue s) 0 n)) ;;
        now <- time_time ;;
        update (set_last_time now) ;;
        ret l_messagesToHandle
      else ret []
  end.

(** Lines 1324-1327: one message of the dispatch loop. *)
Definition dispatch_one (message : ChatEvent) : M MainLoop unit :=
  s <- get ;;
  if (Z.of_nat (length (l_activeTasks s)) <=? max_workers)%Z then
    emit (Submit message) ;;
    update (set_thread_pool (S (thread_pool s))) ;;
    update (set_activeTasks
              (l_activeTasks s ++ [mkFuture (thread_pool s) message]))
  else
    emit (Print (PWorkersWarning (length (l_activeTasks s))
                                 (Z.to_nat max_workers)
                                 (length (l_messageQueue s)))).

(** Lines 1316-1327. *)
Definition dispatch (l_messagesToHandle : list ChatEvent) : M MainLoop unit :=
  for_each l_messagesToHandle dispatch_one.

(** Line 1265. *)
Definition prune (ctl : Controls) : M MainLoop unit :=
  s <- get ;;
  update (set_activeTasks
            (filter (fun i_task => negb (done ctl i_task)) (l_activeTasks s))).

(** One pass of the [while True] loop of [f_mainLoop]. *)
Definition f_mainLoop_pass (ctl : Controls) : M MainLoop pass_end :=
  if negb (g_windowOpen ctl) then ret Exits
  else
    emit (Sleep (1 # 10)) ;;
    if g_connected ctl && negb (g_disabled ctl) then
      prune ctl ;;
      l_newMessages <- on_twitch (f_twitchReceiveMessages decode) ;;
      enqueue l_newMessages ;;
      l_messagesToHandle <- drain ;;
      if shift_backspace ctl then ret Exits
      else
        dispatch l_messagesToHandle ;;
        ret Continues
    else ret Continues.

End Loop.

(* ===================================================================== *)
(** * The Connect button *)
(* ===================================================================== *)

Module ControlBar.

(** The globals [f_handleConnect] works on. *)
Record Globals : Type := mkGlobals {
  g_twitch : Twitch;
  g_connected : bool
}.

(** A method call on the global [g_twitch]. *)
Definition on_twitch {A} (c : M Twitch A) : M Globals A :=
  fun g w =>
    let '(r, t', w') := c (g_twitch g) w in
    (r, mkGlobals t' (g_connected g), w').

Definition set_connected (v : bool) : M Globals unit :=
  fun g w => (Ok tt, mkGlobals (g_twitch g) v, w).

(** Lines 1042-1060.  [g_streamerName] is the text of the name field, what
    [g_streamerName.get( '1.0', 'end-1c' )] returns. *)
Definition f_handleConnect (g_streamerName : str) : M Globals unit :=
  let l_streamerName := g_streamerName in
  if negb (String.eqb l_streamerName EmptyString) then
    on_twitch (f_connect l_streamerName) ;;
    set_connected true
  else ret tt.

End ControlBar.


(* ===================================================================== *)
(** * The command panel: actions, commands, redraw, load and save *)
(* ===================================================================== *)

(** The panel is embedded by the values it holds, not by its widgets: a
    [Text] widget is the text in it ([None] while the widget has not been
    created), a [StringVar] is its string, an [IntVar] is the value last
    put into it.  The embedding takes from tkinter that a [Text] returns
    with [get( '1.0', 'end-1c' )] the text inserted into it when it was
    created, unless the user has typed since, and that [select()] on a
    [Radiobutton] puts the value of the button into its variable.  Frames,
    labels, buttons, packing and colours are not modelled. *)
Module Panel.

(** ** The key table *)

(** Lines 88-188, in the order of the dict literal. *)
Definition G_KEY_DICTIONARY : list (str * Z) :=
  [(EmptyString, 0x00%Z); ("A"%string, 0x1E%Z); ("B"%string, 0x30%Z);
   ("C"%string, 0x2E%Z); ("D"%string, 0x20%Z); ("E"%string, 0x12%Z);
   ("F"%string, 0x21%Z); ("G"%string, 0x22%Z); ("H"%string, 0x23%Z);
   ("I"%string, 0x17%Z); ("J"%string, 0x24%Z); ("K"%string, 0x25%Z);
   ("L"%string, 0x26%Z); ("M"%string, 0x32%Z); ("N"%string, 0x31%Z);
   ("O"%string, 0x18%Z); ("P"%string, 0x19%Z); ("Q"%string, 0x10%Z);
   ("R"%string, 0x13%Z); ("S"%string, 0x1F%Z); ("T"%string, 0x14%Z);
   ("U"%string, 0x16%Z); ("V"%string, 0x2F%Z); ("W"%string, 0x11%Z);
   ("X"%string, 0x2D%Z); ("Y"%string, 0x15%Z); ("Z"%string, 0x2C%Z);
   ("1"%string, 0x02%Z); ("2"%string, 0x03%Z); ("3"%string, 0x04%Z);
   ("4"%string, 0x05%Z); ("5"%string, 0x06%Z); ("6"%string, 0x07%Z);
   ("7"%string, 0x08%Z); ("8"%string, 0x09%Z); ("9"%string, 0x0A%Z);
   ("0"%string, 0x0B%Z); ("-"%string, 0x0C%Z); ("="%string, 0x0D%Z);
   ("["%string, 0x1A%Z); ("]"%string, 0x1B%Z); (";"%string, 0x27%Z);
   ("~"%string, 0x29%Z); (","%string, 0x33%Z); ("."%string, 0x34%Z);
   ("F1"%string, 0x3B%Z); ("F2"%string, 0x3C%Z); ("F3"%string, 0x3D%Z);
   ("F4"%string, 0x3E%Z); ("F5"%string, 0x3F%Z); ("F6"%string, 0x40%Z);
   ("F7"%string, 0x41%Z); ("F8"%string, 0x42%Z); ("F9"%string, 0x43%Z);
   ("F10"%string, 0x44%Z); ("F11"%string, 0x57%Z); ("F12"%string, 0x58%Z);
   ("N1"%string, 0x4F%Z); ("N2"%string, 0x50%Z); ("N3"%string, 0x51%Z);
   ("N4"%string, 0x4B%Z); ("N5"%string, 0x4C%Z); ("N6"%string, 0x4D%Z);
   ("N7"%string, 0x47%Z); ("N8"%string, 0x48%Z); ("N9"%string, 0x49%Z);
   ("N0"%string, 0x52%Z); ("N-"%string, 0x4A%Z); ("N+"%string, 0x4E%Z);
   ("N."%string, 0x53%Z); ("ESC"%string, 0x01%Z); ("BKSP"%string, 0x0E%Z);
   ("TAB"%string, 0x0F%Z); ("ENTER"%string, 0x1C%Z); ("LCTRL"%string, 0x1D%Z);
   ("APOS"%string, 0x28%Z); ("LSHIFT"%string, 0x2A%Z);
   ("FDSLSH"%string, 0x2B%Z); ("BKSLSH"%string, 0x35%Z);
   ("RSHIFT"%string, 0x36%Z); ("PRTSCN"%string, 0x37%Z);
   ("LALT"%string, 0x38%Z); ("SPACE"%string, 0x39%Z); ("CAPS"%string, 0x3A%Z);
   ("NUMLCK"%string, 0x45%Z); ("DEL"%string, 0x53%Z);
   ("NENTER"%string, 0x9C%Z); ("NBKSLH"%string, 0xB5%Z);
   ("UP"%string, 0xC8%Z); ("LEFT"%string, 0xCB%Z); ("RIGHT"%string, 0xCD%Z);
   ("DOWN"%string, 0xD0%Z)].

(** [d[key]].  The [KeyError] carries the key. *)
Fixpoint dict_get (d : list (str * Z)) (key : str) : py_result Z :=
  match d with
  | [] => Raise (KeyError key)
  | (k, v) :: d' => if String.eqb k key then Ok v else dict_get d' key
  end.

(** ** Objects *)

(** The value of a tkinter [IntVar]: the integer it was created or clicked
    to, or the string [set] put into it. *)
Inductive tk_value : Type :=
| TInt (n : Z)
| TStr (s : str).

(** The attributes of a [ComputerAction] that hold data.  The ones named
    after a widget are the text in that widget. *)
Record ComputerAction : Type := mkAction {
  actionType : str;
  delete : bool;
  keyButtonValue : str;
  keyTapTime : option str;
  keyTapTimeSave : str;
  keyName : str;
  mouseButtonValue : str;
  mouseX : option str;
  mouseXSave : str;
  mouseY : option str;
  mouseYSave : str;
  mouseHoldTime : option str;
  mouseHoldTimeSave : str;
  mouseRelative : tk_value;
  waitTime : option str;
  waitTimeSave : str
}.

Record TwitchCommand : Type := mkCommand {
  actionList : list ComputerAction;
  chatText : option str;
  command_delete : bool;
  savedText : str
}.

(** ** What the panel does to the outside *)

Inductive panel_line : Type :=
| PChooseLoad                                 (* 'Choose data file to load.' *)
| PChooseSave                                 (* 'Choose a location and name ...' *)
| PAddingAction (t : str) (data : list str).  (* 'Adding Action {0} with data {1}' *)

Inductive effect : Type :=
| SendInput (wScan dwFlags : Z)      (* one KEYBDINPUT through SendInput *)
| TimeSleep (seconds : Q)
| LeftClick (x y : option Z)         (* pydirectinput.leftClick *)
| RightClick (x y : option Z)
| MiddleClick (x y : option Z)
| MoveRel (xOffset yOffset : Z) (relative : Z)
| PanelPrint (l : panel_line)
| ShowError (title text : str)
| FileOpen (path : str)              (* open( path, 'w', newline='' ) *)
| FileWrite (text : list ascii).     (* one write on that file *)

(** The global [g_commandList] and what has been done to the outside so
    far.  Input injection, pydirectinput, the dialogs and opening and
    writing a file are taken to succeed. *)
Record Desk : Type := mkDesk {
  g_commandList : list TwitchCommand;
  effects : list effect
}.

Definition tell (e : effect) : M Desk unit :=
  fun s w => (Ok tt, mkDesk (g_commandList s) (effects s ++ [e]), w).

Definition set_commandList (l : list TwitchCommand) : M Desk unit :=
  fun s w => (Ok tt, mkDesk l (effects s), w).

(** A value that is there or an exception that is raised. *)
Definition lift {A} (r : py_result A) : M Desk A := fun s w => (r, s, w).

(** [l[i]] *)
Definition item {A} (l : list A) (i : nat) : M Desk A :=
  match nth_error l i with
  | Some v => ret v
  | None => raise (IndexError "list index out of range")
  end.

(** [widget.get( '1.0', 'end-1c' )] *)
Definition Text_get (widget : option str) : M Desk str :=
  match widget with
  | Some text => ret text
  | None => raise (AttributeError "'NoneType' object has no attribute 'get'")
  end.

(** [s.endswith(suffix)] *)
Definition endswith (s suffix : str) : bool :=
  let n := String.length s in
  let k := String.length suffix in
  (k <=? n)%nat && String.eqb (substring (n - k) k s) suffix.

(** ** The csv module, as the program uses it *)

Definition cCR : ascii := ascii_of_nat 13.
Definition cLF : ascii := ascii_of_nat 10.
Definition COMMA : ascii := ascii_of_nat 44.
Definition DQUOTE : ascii := ascii_of_nat 34.
Definition PIPE : ascii := ascii_of_nat 124.

(** A value of a row handed to the writer. *)
Inductive cell : Type :=
| CStr (s : str)
| CInt (n : Z).

(** [str(v)] *)
Definition cell_text (c : cell) : list ascii :=
  match c with
  | CStr s => list_ascii_of_string s
  | CInt n => list_ascii_of_string (format_int n)
  end.

(** [csv.writer( f )]: the excel dialect, which quotes a field only when
    it holds the delimiter, the quote character or a line end, and doubles
    the quote characters in it. *)
Definition needs_quotes (c : ascii) : bool :=
  Ascii.eqb c COMMA || Ascii.eqb c DQUOTE || Ascii.eqb c cCR || Ascii.eqb c cLF.

Fixpoint double_quotes (f : list ascii) : list ascii :=
  match f with
  | [] => []
  | c :: f' =>
      if Ascii.eqb c DQUOTE then DQUOTE :: DQUOTE :: double_quotes f'
      else c :: double_quotes f'
  end.

Definition write_field (f : list ascii) : list ascii :=
  if existsb needs_quotes f then DQUOTE :: double_quotes f ++ [DQUOTE] else f.

Fixpoint join_fields (fs : list (list ascii)) : list ascii :=
  match fs with
  | [] => []
  | [f] => write_field f
  | f :: fs' => write_field f ++ COMMA :: join_fields fs'
  end.

(** The text of one [writerow]: a record that would be empty though it has
    a field is written as two quote characters. *)
Definition writerow (row : list cell) : list ascii :=
  let l_fields := map cell_text row in
  match l_fields, join_fields l_fields with
  | _ :: _, [] => [DQUOTE; DQUOTE; cCR; cLF]
  | _, rec => rec ++ [cCR; cLF]
  end.

(** The lines of a file opened with [newline='']: a line ends after a line
    feed, a carriage return, or the two in a row, and keeps its end. *)
Fixpoint lines_from (acc s : list ascii) : list (list ascii) :=
  match s with
  | [] => match acc with [] => [] | _ => [acc] end
  | c :: s' =>
      if Ascii.eqb c cLF then (acc ++ [c]) :: lines_from [] s'
      else if Ascii.eqb c cCR then
        match s' with
        | c' :: s'' =>
            if Ascii.eqb c' cLF then (acc ++ [c; c']) :: lines_from [] s''
            else (acc ++ [c]) :: lines_from [] s'
        | [] => [acc ++ [c]]
        end
      else lines_from (acc ++ [c]) s'
  end.

(** The states of the reader that can be reached without an escape
    character. *)
Inductive rstate : Type :=
| START_RECORD
| START_FIELD
| IN_FIELD
| IN_QUOTED_FIELD
| QUOTE_IN_QUOTED_FIELD
| EAT_CRNL.

Record parser : Type := mkParser {
  state : rstate;
  field : list ascii;
  fields : list (list ascii)
}.

Definition parse_reset : parser := mkParser START_RECORD [] [].

Definition field_limit : Z := 131072.

Definition set_state (st : rstate) (p : parser) : parser :=
  mkParser st (field p) (fields p).

Definition parse_save_field (p : parser) : parser :=
  mkParser (state p) [] (fields p ++ [field p]).

Definition parse_add_char (c : ascii) (p : parser) : py_result parser :=
  if (field_limit <=? Z.of_nat (length (field p)))%Z
  then Raise (OtherException "field larger than field limit (131072)")
  else Ok (mkParser (state p) (field p ++ [c]) (fields p)).

Definition is_eol (c : ascii) : bool := Ascii.eqb c cLF || Ascii.eqb c cCR.

Section Reader.

Variable delimiter quotechar : ascii.

(** After a line end or at the end of the line. *)
Definition end_of_record (c : option ascii) (p : parser) : parser :=
  set_state (match c with None => START_RECORD | Some _ => EAT_CRNL end)
            (parse_save_field p).

Definition at_end (c : option ascii) : bool :=
  match c with
  | None => true
  | Some x => is_eol x
  end.

Definition is_char (x : ascii) (c : option ascii) : bool :=
  match c with
  | None => false
  | Some y => Ascii.eqb y x
  end.

Definition start_field (c : option ascii) (p : parser) : py_result parser :=
  if at_end c then Ok (end_of_record c p)
  else if is_char quotechar c then Ok (set_state IN_QUOTED_FIELD p)
  else if is_char delimiter c then Ok (parse_save_field p)
  else match c with
       | Some x =>
           match parse_add_char x p with
           | Ok p' => Ok (set_state IN_FIELD p')
           | Raise e => Raise e
           end
       | None => Ok p
       end.

(** One character, or the end of the line ([None]), through the reader. *)
Definition parse_process_char (c : option ascii) (p : parser)
  : py_result parser :=
  match state p with
  | START_RECORD =>
      match c with
      | None => Ok p
      | Some x =>
          if is_eol x then Ok (set_state EAT_CRNL p)
          else start_field c (set_state START_FIELD p)
      end
  | START_FIELD => start_field c p
  | IN_FIELD =>
      if at_end c then Ok (end_of_record c p)
      else if is_char delimiter c
      then Ok (set_state START_FIELD (parse_save_field p))
      else match c with
           | Some x => parse_add_char x p
           | None => Ok p
           end
  | IN_QUOTED_FIELD =>
      match c with
      | None => Ok p
      | Some x =>
          if Ascii.eqb x quotechar then Ok (set_state QUOTE_IN_QUOTED_FIELD p)
          else parse_add_char x p
      end
  | QUOTE_IN_QUOTED_FIELD =>
      if is_char quotechar c then
        match c with
        | Some x =>
            match parse_add_char x p with
            | Ok p' => Ok (set_state IN_QUOTED_FIELD p')
            | Raise e => Raise e
            end
        | None => Ok p
        end
      else if is_char delimiter c
      then Ok (set_state START_FIELD (parse_save_field p))
      else if at_end c then Ok (end_of_record c p)
      else match c with
           | Some x =>
               match parse_add_char x p with
               | Ok p' => Ok (set_state IN_FIELD p')
               | Raise e => Raise e
               end
           | None => Ok p
           end
  | EAT_CRNL =>
      match c with
      | None => Ok (set_state START_RECORD p)
      | Some x =>
          if is_eol x then Ok p
          else Raise (OtherException "new-line character seen in unquoted field - do you need to open the file with newline=''?")
      end
  end.

(** The characters of a line, then its end. *)
Fixpoint parse_line (line : list ascii) (p : parser) : py_result parser :=
  match line with
  | [] => parse_process_char None p
  | c :: line' =>
      match parse_process_char (Some c) p with
      | Ok p' => parse_line line' p'
      | Raise e => Raise e
      end
  end.

(** [list( reader )]: a record is complete when a line leaves the reader
    at the start of a record; the input may end inside a quoted field. *)
Fixpoint reader_rows (p : parser) (lines : list (list ascii))
  : py_result (list (list (list ascii))) :=
  match lines with
  | [] =>
      match field p, state p with
      | [], START_RECORD | [], START_FIELD | [], IN_FIELD
      | [], QUOTE_IN_QUOTED_FIELD | [], EAT_CRNL => Ok []
      | _, _ => Ok [fields (parse_save_field p)]
      end
  | line :: lines' =>
      match parse_line line p with
      | Raise e => Raise e
      | Ok p' =>
          match state p' with
          | START_RECORD =>
              match reader_rows parse_reset lines' with
              | Ok rows => Ok (fields p' :: rows)
              | Raise e => Raise e
              end
          | _ => reader_rows p' lines'
          end
      end
  end.

(** [list( reader( l_fileData, delimiter, quotechar ) )] on the text of the
    file. *)
Definition reader (content : str) : py_result (list (list str)) :=
  match reader_rows parse_reset (lines_from [] (list_ascii_of_string content)) with
  | Ok rows => Ok (map (map string_of_list_ascii) rows)
  | Raise e => Raise e
  end.

End Reader.

(** ** class ComputerAction *)

(** [ComputerAction( p_actionType )], lines 228-257. *)
Definition ComputerAction_new (p_actionType : str) : ComputerAction :=
  mkAction p_actionType false
           EmptyString None "500" EmptyString
           EmptyString None "0" None "0" None "500" (TInt 0)
           None "500".

Definition with_keyboard (v0 v1 v2 : str) (a : ComputerAction) : ComputerAction :=
  mkAction (actionType a) (delete a)
           v0 (keyTapTime a) v1 v2
           (mouseButtonValue a) (mouseX a) (mouseXSave a) (mouseY a)
           (mouseYSave a) (mouseHoldTime a) (mouseHoldTimeSave a)
           (mouseRelative a) (waitTime a) (waitTimeSave a).

Definition with_mouse (v0 v1 v2 v3 : str) (v4 : tk_value) (a : ComputerAction)
  : ComputerAction :=
  mkAction (actionType a) (delete a)
           (keyButtonValue a) (keyTapTime a) (keyTapTimeSave a) (keyName a)
           v0 (mouseX a) v1 (mouseY a) v2 (mouseHoldTime a) v3 v4
           (waitTime a) (waitTimeSave a).

Definition with_wait (v0 : str) (a : ComputerAction) : ComputerAction :=
  mkAction (actionType a) (delete a)
           (keyButtonValue a) (keyTapTime a) (keyTapTimeSave a) (keyName a)
           (mouseButtonValue a) (mouseX a) (mouseXSave a) (mouseY a)
           (mouseYSave a) (mouseHoldTime a) (mouseHoldTimeSave a)
           (mouseRelative a) (waitTime a) v0.

(** [ComputerAction( p_actionType, p_loadedData )], lines 224-274. *)
Definition ComputerAction_init (p_actionType : str)
           (p_loadedData : option (list str)) : M Desk ComputerAction :=
  let self := ComputerAction_new p_actionType in
  match p_loadedData with
  | None => ret self
  | Some d =>
      if String.eqb (actionType self) "keyboard" then
        v0 <- item d 0 ;;
        v1 <- item d 1 ;;
        v2 <- item d 2 ;;
        ret (with_keyboard v0 v1 v2 self)
      else if String.eqb (actionType self) "mouse" then
        v0 <- item d 0 ;;
        v1 <- item d 1 ;;
        v2 <- item d 2 ;;
        v3 <- item d 3 ;;
        v4 <- item d 4 ;;
        ret (with_mouse v0 v1 v2 v3 (TStr v4) self)
      else if String.eqb (actionType self) "wait" then
        v0 <- item d 0 ;;
        ret (with_wait v0 self)
      else ret self
  end.

(** Lines 509-530: the texts of the widgets that exist go to the saved
    attributes. *)
Definition saved (widget : option str) (old : str) : str :=
  match widget with
  | Some text => text
  | None => old
  end.

Definition ComputerAction_f_save (a : ComputerAction) : ComputerAction :=
  mkAction (actionType a) (delete a)
           (keyButtonValue a) (keyTapTime a)
           (saved (keyTapTime a) (keyTapTimeSave a)) (keyName a)
           (mouseButtonValue a)
           (mouseX a) (saved (mouseX a) (mouseXSave a))
           (mouseY a) (saved (mouseY a) (mouseYSave a))
           (mouseHoldTime a) (saved (mouseHoldTime a) (mouseHoldTimeSave a))
           (mouseRelative a)
           (waitTime a) (saved (waitTime a) (waitTimeSave a)).

(** Lines 320-462, on the values: nothing for an action marked for
    deletion; otherwise the widgets of the kind of the action are created
    with the saved texts in them, and the radio button that matches the
    variable, or the default one, is selected. *)
Definition ComputerAction_f_draw (a : ComputerAction) : option ComputerAction :=
  if delete a then None
  else if String.eqb (actionType a) "keyboard" then
    let l_button :=
      if String.eqb (keyButtonValue a) "hold" then "hold"%string
      else if String.eqb (keyButtonValue a) "release" then "release"%string
      else "tap"%string in
    Some (mkAction (actionType a) (delete a)
                   l_button (Some (keyTapTimeSave a)) (keyTapTimeSave a)
                   (keyName a)
                   (mouseButtonValue a) (mouseX a) (mouseXSave a) (mouseY a)
                   (mouseYSave a) (mouseHoldTime a) (mouseHoldTimeSave a)
                   (mouseRelative a) (waitTime a) (waitTimeSave a))
  else if String.eqb (actionType a) "mouse" then
    let l_button :=
      if String.eqb (mouseButtonValue a) "rc" then "rc"%string
      else if String.eqb (mouseButtonValue a) "mc" then "mc"%string
      else if String.eqb (mouseButtonValue a) "move" then "move"%string
      else "lc"%string in
    Some (mkAction (actionType a) (delete a)
                   (keyButtonValue a) (keyTapTime a) (keyTapTimeSave a)
                   (keyName a)
                   l_button (Some (mouseXSave a)) (mouseXSave a)
                   (Some (mouseYSave a)) (mouseYSave a)
                   (Some (mouseHoldTimeSave a)) (mouseHoldTimeSave a)
                   (mouseRelative a) (waitTime a) (waitTimeSave a))
  else
    Some (mkAction (actionType a) (delete a)
                   (keyButtonValue a) (keyTapTime a) (keyTapTimeSave a)
                   (keyName a)
                   (mouseButtonValue a) (mouseX a) (mouseXSave a) (mouseY a)
                   (mouseYSave a) (mouseHoldTime a) (mouseHoldTimeSave a)
                   (mouseRelative a) (Some (waitTimeSave a)) (waitTimeSave a)).

(** [[ x for x in l if x.f_draw( ... ) ]], each object as the call left
    it. *)
Fixpoint drawn {A} (f_draw : A -> option A) (l : list A) : list A :=
  match l with
  | [] => []
  | x :: l' =>
      match f_draw x with
      | Some x' => x' :: drawn f_draw l'
      | None => drawn f_draw l'
      end
  end.

(** ** class TwitchCommand *)

(** [TwitchCommand()] *)
Definition TwitchCommand_new : TwitchCommand :=
  mkCommand [] None false EmptyString.

(** Lines 723-734. *)
Definition TwitchCommand_f_save (c : TwitchCommand) : TwitchCommand :=
  mkCommand (map ComputerAction_f_save (actionList c)) (chatText c)
            (command_delete c) (saved (chatText c) (savedText c)).

(** Lines 675-714, on the values. *)
Definition TwitchCommand_f_draw (c : TwitchCommand) : option TwitchCommand :=
  if command_delete c then None
  else Some (mkCommand (drawn ComputerAction_f_draw (actionList c))
                       (Some (savedText c)) (command_delete c) (savedText c)).

(** Lines 1337-1403: every command saves its state, then the list is drawn
    again and keeps the commands that were drawn. *)
Definition redrawn (l : list TwitchCommand) : list TwitchCommand :=
  drawn TwitchCommand_f_draw (map TwitchCommand_f_save l).

Definition f_redraw : M Desk unit :=
  s <- get ;;
  set_commandList (redrawn (g_commandList s)).

(** Lines 1023-1034. *)
Definition f_handleAddCommand : M Desk unit :=
  s <- get ;;
  set_commandList (g_commandList s ++ [TwitchCommand_new]) ;;
  f_redraw.

(** A method called on the command at position [i] of the list, as the
    button drawn for that command does. *)
Definition on_command (i : nat) (f : TwitchCommand -> TwitchCommand)
  : M Desk unit :=
  s <- get ;;
  match nth_error (g_commandList s) i with
  | Some c =>
      set_commandList (firstn i (g_commandList s) ++ f c
                       :: skipn (S i) (g_commandList s))
  | None => ret tt
  end.

Definition append_action (kind : str) (c : TwitchCommand) : TwitchCommand :=
  mkCommand (actionList c ++ [ComputerAction_new kind]) (chatText c)
            (command_delete c) (savedText c).

(** Lines 624-647. *)
Definition f_handleAddKeyboard (i : nat) : M Desk unit :=
  on_command i (append_action "keyboard") ;; f_redraw.
Definition f_handleAddMouse (i : nat) : M Desk unit :=
  on_command i (append_action "mouse") ;; f_redraw.
Definition f_handleAddWait (i : nat) : M Desk unit :=
  on_command i (append_action "wait") ;; f_redraw.

(** Lines 756-758. *)
Definition TwitchCommand_f_signalDeletion (i : nat) : M Desk unit :=
  on_command i (fun c => mkCommand (actionList c) (chatText c) true (savedText c)) ;;
  f_redraw.

Definition mark_deleted (a : ComputerAction) : ComputerAction :=
  mkAction (actionType a) true
           (keyButtonValue a) (keyTapTime a) (keyTapTimeSave a) (keyName a)
           (mouseButtonValue a) (mouseX a) (mouseXSave a) (mouseY a)
           (mouseYSave a) (mouseHoldTime a) (mouseHoldTimeSave a)
           (mouseRelative a) (waitTime a) (waitTimeSave a).

(** Lines 571-573, for the action at position [j] of the command at
    position [i]. *)
Definition ComputerAction_f_signalDeletion (i j : nat) : M Desk unit :=
  on_command i
    (fun c =>
       match nth_error (actionList c) j with
       | Some a =>
           mkCommand (firstn j (actionList c) ++ mark_deleted a
                      :: skipn (S j) (actionList c))
                     (chatText c) (command_delete c) (savedText c)
       | None => c
       end) ;;
  f_redraw.

Section Conversions.

(** [int( text )] *)
Variable py_int : str -> py_result Z.

(** [IntVar.get()] on a variable that holds a string. *)
Variable tk_getint : str -> py_result Z.

(** [time.sleep( p_milliseconds / 1000 )]: what it raises, if anything (a
    [ValueError] for a negative length, an [OverflowError] for a length
    beyond what the platform can time). *)
Variable sleep_error : Z -> option exn.

Definition IntVar_get (v : tk_value) : M Desk Z :=
  match v with
  | TInt n => ret n
  | TStr s => lift (tk_getint s)
  end.

(** Lines 282-300. *)
Definition KEYEVENTF_SCANCODE : Z := 0x0008.
Definition KEYEVENTF_KEYUP : Z := 0x0002.

Definition f_holdKey (p_hexKeyCode : Z) : M Desk unit :=
  tell (SendInput p_hexKeyCode KEYEVENTF_SCANCODE).

Definition f_releaseKey (p_hexKeyCode : Z) : M Desk unit :=
  tell (SendInput p_hexKeyCode (Z.lor KEYEVENTF_SCANCODE KEYEVENTF_KEYUP)).

Definition time_sleep_ms (p_milliseconds : Z) : M Desk unit :=
  match sleep_error p_milliseconds with
  | Some e => raise e
  | None => tell (TimeSleep (inject_Z p_milliseconds / 1000))
  end.

(** Lines 309-312. *)
Definition f_tapKey (p_hexKeyCode p_milliseconds : Z) : M Desk unit :=
  f_holdKey p_hexKeyCode ;;
  time_sleep_ms p_milliseconds ;;
  f_releaseKey p_hexKeyCode.

(** [int( w.get( '1.0', 'end-1c' ) ) if w.get( '1.0', 'end-1c' ) != '' else
    default] *)
Definition coordinate {A} (widget : option str) (some : Z -> A) (default : A)
  : M Desk A :=
  l_text <- Text_get widget ;;
  if negb (String.eqb l_text EmptyString) then
    l_text <- Text_get widget ;;
    n <- lift (py_int l_text) ;;
    ret (some n)
  else ret default.

(** Lines 471-500. *)
Definition f_process (self : ComputerAction) : M Desk unit :=
  if String.eqb (actionType self) "keyboard" then
    if String.eqb (keyButtonValue self) "hold" then
      l_code <- lift (dict_get G_KEY_DICTIONARY (keyName self)) ;;
      f_holdKey l_code
    else if String.eqb (keyButtonValue self) "release" then
      l_code <- lift (dict_get G_KEY_DICTIONARY (keyName self)) ;;
      f_releaseKey l_code
    else if String.eqb (keyButtonValue self) "tap" then
      l_code <- lift (dict_get G_KEY_DICTIONARY (keyName self)) ;;
      l_text <- Text_get (keyTapTime self) ;;
      l_milliseconds <- lift (py_int l_text) ;;
      f_tapKey l_code l_milliseconds
    else ret tt
  else if String.eqb (actionType self) "mouse" then
    if String.eqb (mouseButtonValue self) "lc" then
      x <- coordinate (mouseX self) Some None ;;
      y <- coordinate (mouseY self) Some None ;;
      tell (LeftClick x y)
    else if String.eqb (mouseButtonValue self) "rc" then
      x <- coordinate (mouseX self) Some None ;;
      y <- coordinate (mouseY self) Some None ;;
      tell (RightClick x y)
    else if String.eqb (mouseButtonValue self) "mc" then
      x <- coordinate (mouseX self) Some None ;;
      y <- coordinate (mouseY self) Some None ;;
      tell (MiddleClick x y)
    else if String.eqb (mouseButtonValue self) "move" then
      x <- coordinate (mouseX self) (fun n => n) 0%Z ;;
      y <- coordinate (mouseY self) (fun n => n) 0%Z ;;
      r <- IntVar_get (mouseRelative self) ;;
      tell (MoveRel x y r)
    else ret tt
  else if String.eqb (actionType self) "wait" then
    match waitTime self with
    | None => raise (AttributeError "'NoneType' object has no attribute 'get'")
    | Some _ => raise (TypeError "int() argument must be a string, a bytes-like object or a real number, not 'method'")
    end
  else ret tt.

(** Lines 538-562. *)
Definition ComputerAction_f_saveData (self : ComputerAction)
  : M Desk (list cell) :=
  let l_returnData := [CStr (actionType self)] in
  if String.eqb (actionType self) "keyboard" then
    ret (l_returnData ++ [CStr (keyButtonValue self);
                          CStr (keyTapTimeSave self);
                          CStr (keyName self)])
  else if String.eqb (actionType self) "mouse" then
    r <- IntVar_get (mouseRelative self) ;;
    ret (l_returnData ++ [CStr (mouseButtonValue self);
                          CStr (mouseXSave self);
                          CStr (mouseYSave self);
                          CStr (mouseHoldTimeSave self);
                          CInt r])
  else if String.eqb (actionType self) "wait" then
    ret (l_returnData ++ [CStr (waitTimeSave self)])
  else ret l_returnData.

(** [for x in l: acc.append( f(x) )] *)
Fixpoint collect {A B} (f : A -> M Desk B) (l : list A) : M Desk (list B) :=
  match l with
  | [] => ret []
  | x :: l' =>
      y <- f x ;;
      ys <- collect f l' ;;
      ret (y :: ys)
  end.

(** Lines 742-747. *)
Definition TwitchCommand_f_saveData (self : TwitchCommand)
  : M Desk (list (list cell)) :=
  l_rows <- collect ComputerAction_f_saveData (actionList self) ;;
  ret ([CStr (savedText self); CInt (Z.of_nat (length (actionList self)))]
       :: l_rows).

(** Lines 592-616, called with a command text and action data. *)
Definition TwitchCommand_init (p_commandText : str)
           (p_actionData : list (list str)) : M Desk TwitchCommand :=
  l_actions <-
    collect (fun i_action =>
               l_type <- item i_action 0 ;;
               tell (PanelPrint (PAddingAction l_type (tl i_action))) ;;
               ComputerAction_init l_type (Some (tl i_action)))
            p_actionData ;;
  ret (mkCommand l_actions None false p_commandText).

(** The loop of lines 1100-1107 from row [i_index] on. *)
Fixpoint load_rows (l_dataTable : list (list str)) (i_index : nat)
         (rows : list (list str)) : M Desk unit :=
  match rows with
  | [] => ret tt
  | i_dataLine :: rows' =>
      l_head <- item i_dataLine 0 ;;
      (if String.eqb l_head "command" then
         l_text <- item i_dataLine 1 ;;
         l_count <- item i_dataLine 2 ;;
         n <- lift (py_int l_count) ;;
         l_command <-
           TwitchCommand_init l_text
             (slice l_dataTable (Z.of_nat i_index + 1)
                    (Z.of_nat i_index + n + 1)) ;;
         s <- get ;;
         set_commandList (g_commandList s ++ [l_command])
       else ret tt) ;;
      load_rows l_dataTable (S i_index) rows'
  end.

(** Lines 1068-1122.  [l_filePath] is what the file dialog returned and
    [l_fileData] what opening that file gives: its text, or the exception
    of [open]. *)
Definition f_handleLoad (l_filePath : str) (l_fileData : py_result str)
  : M Desk unit :=
  tell (PanelPrint PChooseLoad) ;;
  (if endswith (lower l_filePath) ".ttk" then
     l_text <- lift l_fileData ;;
     l_dataTable <- lift (reader COMMA PIPE l_text) ;;
     set_commandList [] ;;
     load_rows l_dataTable 0 l_dataTable
   else tell (ShowError "Invalid File" "Only TTK files may be selected.")) ;;
  f_redraw.

(** Lines 1160-1207.  [l_filePath] is what the file dialog returned. *)
Definition f_handleSave (l_filePath : str) : M Desk unit :=
  f_redraw ;;
  tell (PanelPrint PChooseSave) ;;
  let l_filePath :=
    if negb (endswith (lower l_filePath) ".ttk")
    then String.append l_filePath ".ttk"
    else l_filePath in
  tell (FileOpen l_filePath) ;;
  s <- get ;;
  for_each (g_commandList s)
    (fun i_command =>
       l_commandData <- TwitchCommand_f_saveData i_command ;;
       match l_commandData with
       | [l_text; l_count] :: l_actions =>
           tell (FileWrite (writerow [CStr "command"; l_text; l_count])) ;;
           for_each l_actions (fun i_actionData => tell (FileWrite (writerow i_actionData)))
       | _ => raise (IndexError "list index out of range")
       end).

End Conversions.

End Panel.


(* ===================================================================== *)
(** * Vocabulary of the statements *)
(* ===================================================================== *)

(** A chat message of the viewer [viewer1]. *)
Definition viewer_says (text : str) : ChatEvent := mkChatEvent "viewer1" text.

(** The loop with no future running, this backlog and this last-drain
    time. *)
Definition idle_loop (queue : list ChatEvent) (t : option float) : MainLoop :=
  mkMainLoop [] queue t 0 Twitch_new.

(** A world in which nothing arrives, no socket call fails and every
    clock reading is [now]. *)
Definition still_world (now : float) : World :=
  mkWorld [] [] (fun _ => now) 0 (fun _ => 10000%Z) 0 [].

(** The clock after one more reading. *)
Definition tick (w : World) : World :=
  mkWorld (w_recv w) (w_sock w) (w_clock w) (S (w_reads w)) (w_randint w)
          (w_draws w) (w_log w).

(** A backlog of three messages. *)
Definition three_waiting : list ChatEvent :=
  [viewer_says "a"; viewer_says "b"; viewer_says "c"].

(** The world with more events logged. *)
Definition log_all (es : list event) (w : World) : World :=
  mkWorld (w_recv w) (w_sock w) (w_clock w) (w_reads w) (w_randint w)
          (w_draws w) (w_log w ++ es).

(** [n] futures that are still running. *)
Definition pending (n : nat) : list Future :=
  map (fun k => mkFuture k (viewer_says "!jump")) (seq 0 n).

(** The frame of a chat message written in upper case by a sender whose
    name has an upper-case letter. *)
Definition jump_frame : Frame :=
  mkFrame "Viewer1" "PRIVMSG" ["#channel"%string] "!JUMP".

(** The actions a log shows as processed, in order. *)
Fixpoint processed (es : list event) : list ComputerAction :=
  match es with
  | [] => []
  | Process a :: es' => a :: processed es'
  | _ :: es' => processed es'
  end.

(** Whether a command is registered for this text: the test of line 664. *)
Definition registered_for (text : str) (c : TwitchCommand) : bool :=
  match chatText c with
  | Some l_command => String.eqb l_command text
  | None => false
  end.

(** What a command adds to the log for a text, when nothing raises. *)
Definition check_trace (text : str) (c : TwitchCommand) : list event :=
  if registered_for text c
  then Print PCommandReceived :: map Process (actionList c)
  else [].

(** A keyboard action whose processing returns. *)
Definition tap_space : ComputerAction := mkAction "keyboard" None.

(** A wait action: [f_process] evaluates [int( self.waitTime.get )], the
    [int] of a bound method, which raises a [TypeError]. *)
Definition wait_action : ComputerAction :=
  mkAction "wait" (Some (TypeError "int() argument must be a string, a bytes-like object or a real number, not 'method'")).

(** What [f_reconnect] does to the outside when no socket call fails: it
    sleeps, closes the socket if there is one, opens a new one, connects
    and logs in as a guest. *)
Definition reconnect_trace (p_delay : Q) (had_socket : bool) (guest : Z)
  : list event :=
  Sleep p_delay
  :: (if had_socket then [SockClose] else [])
  ++ [Print PConnecting;
      SockOpen;
      SockConnect "irc.chat.twitch.tv" 6667;
      Print PConnectedLoggingIn;
      SockSend (b "PASS asdf" ++ CRLF ++ b "NICK "
                ++ encode (String.append "justinfan" (format_int guest)) ++ CRLF);
      SockSetTimeout (1 / 60)%Q].

(** Whether [self.sock] is set. *)
Definition has_socket (self : Twitch) : bool :=
  match sock self with
  | Some _ => true
  | None => false
  end.

(** The object right after a connect. *)
Definition connected (chan : str) (now : float) : Twitch :=
  mkTwitch (Some 0%nat) (PBytes []) false (lower chan) now.

(** The decoder on ASCII input, where [bytes.decode] keeps every byte as
    the character of the same code.  The examples only feed it ASCII. *)
Definition decode_ascii (data : bytes) : str := string_of_list_byte data.

(** A world whose socket delivers the script and lets every other call
    through, and whose clock reads [now] all the time. *)
Definition scripted (script : list recv_outcome) (now : float) : World :=
  mkWorld script [] (fun _ => now) 0 (fun _ => 12345%Z) 0 [].

(** An object that connected at time 0 to the channel [chan], logged in or
    not. *)
Definition session (logged_in : bool) : Twitch :=
  mkTwitch (Some 0%nat) (PBytes []) logged_in "chan" 0%float.

(** The line of that chat message on the wire. *)
Definition jump_line : bytes :=
  b ":Viewer1!viewer1@viewer1.tmi.twitch.tv PRIVMSG #chan :!JUMP" ++ CRLF.

(** A byte that ends a line. *)
Definition eol (c : byte) : bool := mem c [CR; LF].

(** The pattern never reads a line end: its literals are not line ends and
    its classes exclude them. *)
Fixpoint stays_in_line (r : regex) : bool :=
  match r with
  | Bol => true
  | Lit c => negb (eol c)
  | Star excl | Plus excl => mem CR excl && mem LF excl
  | Seq r1 r2 | Alt r1 r2 => stays_in_line r1 && stays_in_line r2
  | Opt r' | Group _ r' => stays_in_line r'
  end.

(** The pattern has no anchor. *)
Fixpoint anchor_free (r : regex) : bool :=
  match r with
  | Bol => false
  | Lit _ | Star _ | Plus _ => true
  | Seq r1 r2 | Alt r1 r2 => anchor_free r1 && anchor_free r2
  | Opt r' | Group _ r' => anchor_free r'
  end.

(** The byte before the position once [c] has been read. *)
Definition prev_after (prev : option byte) (c : bytes) : option byte :=
  fold_left (fun _ x => Some x) c prev.

(** [st'] is [st] after reading [c]. *)
Definition reads (st st' : mstate) (c : bytes) : Prop :=
  m_rest st = c ++ m_rest st'
  /\ m_pos st' = (m_pos st + length c)%nat
  /\ m_prev st' = prev_after (m_prev st) c.

(** Three ways to move a matcher state: more subject after it, a larger
    offset, no memory of the byte before. *)
Definition ext (t : bytes) (st : mstate) : mstate :=
  MState (m_pos st) (m_prev st) (m_rest st ++ t) (m_caps st).

Definition shift (k : nat) (st : mstate) : mstate :=
  MState (m_pos st + k) (m_prev st) (m_rest st) (m_caps st).

Definition forget (st : mstate) : mstate :=
  MState (m_pos st) None (m_rest st) (m_caps st).

(** The subject still holds a line end. *)
Definition line_ends (s : bytes) : bool := existsb eol s.

(** The pattern after its anchor. *)
Definition re_body : regex := (re_fields >>> Lit CR >>> Lit LF)%re.

(** A legal frame: a line without line end inside, closed by CR LF, that
    the pattern matches. *)
Definition is_frame (f : bytes) : Prop :=
  exists body,
    f = body ++ CRLF
    /\ line_ends body = false
    /\ match_at re_prog 0 None f <> None.

(** The groups of the match of a frame. *)
Definition frame_caps (f : bytes) : list (nat * bytes) :=
  match match_at re_prog 0 None f with
  | Some st => m_caps st
  | None => []
  end.

(** The matches [finditer] reports for frames laid end to end from offset
    [pos]. *)
Fixpoint matches_at (pos : nat) (fs : list bytes) : list match_obj :=
  match fs with
  | [] => []
  | f :: fs' =>
      Match pos (pos + length f) (frame_caps f)
      :: matches_at (pos + length f) fs'
  end.

(** The dict of a frame. *)
Definition frame_of (decode : bytes -> str) (f : bytes) : Frame :=
  frame_of_match decode (Match 0 0 (frame_caps f)).

(** The script of a socket that hands over each chunk in one read and
    then has nothing more for that poll. *)
Definition feed (chunks : list bytes) : list recv_outcome :=
  flat_map (fun c => [RecvData c; RecvTimeout]) chunks.

(** [n] polls in a row, their frames put end to end. *)
Fixpoint polls (decode : bytes -> str) (n : nat) : M Twitch (list Frame) :=
  match n with
  | O => ret []
  | S n' =>
      frames <- f_receiveAndParseData decode ;;
      more <- polls decode n' ;;
      ret (frames ++ more)
  end.

(** A keep-alive line with the given text. *)
Definition ping_line (text : string) : bytes := b "PING :" ++ b text ++ CRLF.

(** The frame the parser builds for it. *)
Definition ping_frame (decode : bytes -> str) (text : string) : Frame :=
  mkFrame (decode []) (decode (b "PING")) [decode []] (decode (b text)).

(** [n] passes of the loop in a row, under the same controls, stopping at
    an [exit()]. *)
Fixpoint passes (decode : bytes -> str) (rate : float) (maxq cap : Z)
         (ctl : Controls) (n : nat) : M MainLoop pass_end :=
  match n with
  | O => ret Continues
  | S n' =>
      r <- f_mainLoop_pass decode rate maxq cap ctl ;;
      match r with
      | Exits => ret Exits
      | Continues => passes decode rate maxq cap ctl n'
      end
  end.

(** The window is open, the chat is connected and enabled, the emergency
    keys are up, and no future is done yet. *)
Definition busy : Controls := mkControls true true false false (fun _ => false).

(** Twenty chat lines in one read. *)
Definition burst : bytes := concat (repeat jump_line 20).

(** A quiet first poll, then a burst at each poll; the clock gains one
    second at each reading. *)
Definition busy_world : World :=
  mkWorld (RecvTimeout :: concat (repeat [RecvData burst; RecvTimeout] 6)) []
          float_of_len 0 (fun _ => 12345%Z) 0 [].

(** [f_mainLoop] as it starts, on a session that is logged in. *)
Definition fresh_loop : MainLoop := mkMainLoop [] [] None 0 (session true).

(** [list(data)]: the integers of a bytes object. *)
Definition ints_of (data : bytes) : list Z :=
  map (fun c => Z.of_N (Byte.to_N c)) data.

(** A match that covers exactly one line of [s], line end included, and
    starts where a line starts. *)
Definition covers_line (s : bytes) (m : match_obj) : Prop :=
  exists pre body post,
    s = pre ++ body ++ CRLF ++ post
    /\ mo_start m = length pre
    /\ mo_end m = (length pre + length body + 2)%nat
    /\ line_ends body = false
    /\ (pre = [] \/ exists pre', pre = pre' ++ [LF]).

(** Matches that follow one another from offset [lo] on: none is empty,
    none starts before the one before it ends. *)
Fixpoint in_stream_order (lo : nat) (ms : list match_obj) : Prop :=
  match ms with
  | [] => True
  | m :: ms' =>
      (lo <= mo_start m)%nat
      /\ (mo_start m < mo_end m)%nat
      /\ in_stream_order (mo_end m) ms'
  end.

(** The numbers of the groups of a pattern. *)
Fixpoint groups_of (r : regex) : list nat :=
  match r with
  | Bol | Lit _ | Star _ | Plus _ => []
  | Seq r1 r2 | Alt r1 r2 => groups_of r1 ++ groups_of r2
  | Opt r' => groups_of r'
  | Group n r' => n :: groups_of r'
  end.

(** Whether the command of a frame is [cmd]. *)
Definition has_command (cmd : str) (f : Frame) : bool :=
  String.eqb (command f) cmd.

(** The chat events of the [PRIVMSG] frames, in the order of the frames. *)
Definition chat_events (frames : list Frame) : list ChatEvent :=
  map (fun f => mkChatEvent (name f) (trailing f))
      (filter (has_command "PRIVMSG") frames).

(** What a log shows as sent on the socket, in order. *)
Fixpoint sent (es : list event) : list bytes :=
  match es with
  | [] => []
  | SockSend data :: es' => data :: sent es'
  | _ :: es' => sent es'
  end.

(** The answer a frame calls for on the channel [chan]. *)
Definition reply_to (chan : str) (f : Frame) : list bytes :=
  if has_command "PING" f then [b "PONG :tmi.twitch.tv" ++ CRLF]
  else if has_command "001" f then [b "JOIN #" ++ encode chan ++ CRLF]
  else [].

(** [partial] is a bytes object or the empty list: what line 878 can
    add a bytes object to, or skips. *)
Definition joinable (p : py_partial) : bool :=
  match p with
  | PList (_ :: _) => false
  | _ => true
  end.

(** The same object but for the login flag. *)
Definition same_but_login (self self' : Twitch) : Prop :=
  sock self' = sock self
  /\ partial self' = partial self
  /\ channel self' = channel self
  /\ login_timestamp self' = login_timestamp self.

(** The same world but for the log and for the socket calls made. *)
Definition same_but_log (w w' : World) : Prop :=
  w_recv w' = w_recv w
  /\ w_clock w' = w_clock w
  /\ w_reads w' = w_reads w
  /\ w_randint w' = w_randint w
  /\ w_draws w' = w_draws w.



(** The backlog holds at most [N] messages. *)
Definition backlog_within (N : Z) (s : MainLoop) : Prop :=
  (Z.of_nat (length (l_messageQueue s)) <= N)%Z.

(** At most one future more than the cap is in the list of futures. *)
Definition futures_within (cap : Z) (s : MainLoop) : Prop :=
  (Z.of_nat (length (l_activeTasks s)) <= cap + 1)%Z.


(** The room the test of line 1324 leaves in the list of futures: how many
    messages a dispatch pass can still submit. *)
Definition free_slots (cap : Z) (s : MainLoop) : nat :=
  Z.to_nat (cap + 1 - Z.of_nat (length (l_activeTasks s))).

(** The futures of messages submitted one after the other, the first one
    with rank [k]. *)
Fixpoint futures_from (k : nat) (ms : list ChatEvent) : list Future :=
  match ms with
  | [] => []
  | m :: ms' => mkFuture k m :: futures_from (S k) ms'
  end.

(** The warning of line 1327 for each message of [ms]. *)
Definition warnings (active : nat) (cap : Z) (queued : nat)
           (ms : list ChatEvent) : list event :=
  map (fun _ => Print (PWorkersWarning active (Z.to_nat cap) queued)) ms.


(** [int( text )] on the decimal literals, with or without a sign; used in
    the examples, which hand it nothing else. *)
Definition decimal_int (text : str) : py_result Z :=
  match text, NilEmpty.int_of_string text with
  | String _ _, Some d => Ok (Z.of_int d)
  | _, _ => Raise (ValueError "invalid literal for int() with base 10")
  end.

(** [time.sleep] on short lengths: it refuses the negative ones. *)
Definition sleep_short (ms : Z) : option exn :=
  if (ms <? 0)%Z then Some (ValueError "sleep length must be non-negative")
  else None.

(** A keyboard action as the Add Keyboard button and a redraw leave it,
    with this key chosen and this text in the tap duration. *)
Definition tap_action (key text : str) : Panel.ComputerAction :=
  Panel.mkAction "keyboard" false "tap" (Some text) "500" key
                 EmptyString None "0" None "0" None "500" (Panel.TInt 0)
                 None "500".

(** A panel with no command, nothing done yet. *)
Definition empty_desk : Panel.Desk := Panel.mkDesk [] [].

(** The state with more done to the outside. *)
Definition told (es : list Panel.effect) (s : Panel.Desk) : Panel.Desk :=
  Panel.mkDesk (Panel.g_commandList s) (Panel.effects s ++ es).

(** The two names that share a scan code. *)
Definition same_key (k1 k2 : str) : bool :=
  String.eqb k1 k2
  || (String.eqb k1 "N." && String.eqb k2 "DEL")
  || (String.eqb k1 "DEL" && String.eqb k2 "N.").

(** A command that is on the screen: its text field holds its saved text,
    neither it nor any of its actions is marked for deletion. *)
Definition on_screen (c : Panel.TwitchCommand) : Prop :=
  Panel.chatText c = Some (Panel.savedText c)
  /\ Panel.command_delete c = false
  /\ Forall (fun a => Panel.delete a = false) (Panel.actionList c).


(** A character that means nothing to the writer nor to the reader of the
    program: no comma, no quotation mark, no vertical bar, no line end. *)
Definition plain_char (c : ascii) : bool :=
  negb (Ascii.eqb c Panel.COMMA || Ascii.eqb c Panel.DQUOTE
        || Ascii.eqb c Panel.PIPE || Ascii.eqb c Panel.cCR
        || Ascii.eqb c Panel.cLF).

(** A text of such characters, within the field limit of the reader. *)
Definition plain (t : list ascii) : bool :=
  forallb plain_char t && (Z.of_nat (length t) <=? Panel.field_limit)%Z.

(** A row of at least two values whose texts are plain. *)
Definition plain_row (row : list Panel.cell) : bool :=
  (2 <=? length row)%nat && forallb (fun v => plain (Panel.cell_text v)) row.

(** What the writer puts in the file for these rows. *)
Definition file_text (rows : list (list Panel.cell)) : list ascii :=
  concat (map Panel.writerow rows).

(** The strings a reader is expected to give back for a row. *)
Definition row_strings (row : list Panel.cell) : list str :=
  map (fun v => string_of_list_ascii (Panel.cell_text v)) row.


(** [self.mouseRelative.get()] *)
Definition relative (tk_getint : str -> py_result Z)
           (a : Panel.ComputerAction) : py_result Z :=
  match Panel.mouseRelative a with
  | Panel.TInt n => Ok n
  | Panel.TStr s => tk_getint s
  end.

(** The value of the check box of an action, 0 when it cannot be read. *)
Definition checked (tk_getint : str -> py_result Z)
           (a : Panel.ComputerAction) : Z :=
  match relative tk_getint a with
  | Ok n => n
  | Raise _ => 0%Z
  end.

(** The row an action stands for in the file. *)
Definition action_row (tk_getint : str -> py_result Z)
           (a : Panel.ComputerAction) : list Panel.cell :=
  Panel.CStr (Panel.actionType a)
  :: (if String.eqb (Panel.actionType a) "keyboard" then
        [Panel.CStr (Panel.keyButtonValue a);
         Panel.CStr (Panel.keyTapTimeSave a);
         Panel.CStr (Panel.keyName a)]
      else if String.eqb (Panel.actionType a) "mouse" then
        [Panel.CStr (Panel.mouseButtonValue a);
         Panel.CStr (Panel.mouseXSave a);
         Panel.CStr (Panel.mouseYSave a);
         Panel.CStr (Panel.mouseHoldTimeSave a);
         Panel.CInt (checked tk_getint a)]
      else if String.eqb (Panel.actionType a) "wait" then
        [Panel.CStr (Panel.waitTimeSave a)]
      else []).

(** The rows a command stands for in the file: its header, then its
    actions. *)
Definition command_rows (tk_getint : str -> py_result Z)
           (c : Panel.TwitchCommand) : list (list Panel.cell) :=
  [Panel.CStr "command"; Panel.CStr (Panel.savedText c);
   Panel.CInt (Z.of_nat (length (Panel.actionList c)))]
  :: map (action_row tk_getint) (Panel.actionList c).

Definition panel_rows (tk_getint : str -> py_result Z)
           (l : list Panel.TwitchCommand) : list (list Panel.cell) :=
  flat_map (command_rows tk_getint) l.

(** An action of one of the three kinds the Add buttons make. *)
Definition known_kind (a : Panel.ComputerAction) : bool :=
  String.eqb (Panel.actionType a) "keyboard"
  || String.eqb (Panel.actionType a) "mouse"
  || String.eqb (Panel.actionType a) "wait".

(** A command the file can hold: its actions are of the three kinds, the
    check box of each mouse action can be read, and every text it saves is
    plain. *)
Definition storable (tk_getint : str -> py_result Z)
           (c : Panel.TwitchCommand) : Prop :=
  Forall (fun a => known_kind a = true
                   /\ exists n, relative tk_getint a = Ok n)
         (Panel.actionList c)
  /\ forallb plain_row (command_rows tk_getint c) = true.

(** The text of the file after these effects: what was written since it
    was last opened. *)
Fixpoint written_from (acc : list ascii) (es : list Panel.effect) : list ascii :=
  match es with
  | [] => acc
  | Panel.FileOpen _ :: es' => written_from [] es'
  | Panel.FileWrite t :: es' => written_from (acc ++ t) es'
  | _ :: es' => written_from acc es'
  end.

Definition written (es : list Panel.effect) : str :=
  string_of_list_ascii (written_from [] es).

(** The path [f_handleSave] opens. *)
Definition save_path (l_filePath : str) : str :=
  if negb (Panel.endswith (lower l_filePath) ".ttk")
  then String.append l_filePath ".ttk"
  else l_filePath.

(** The action [ComputerAction( kind, data )] builds from the row of an
    action. *)
Definition reloaded_action (tk_getint : str -> py_result Z)
           (a : Panel.ComputerAction) : Panel.ComputerAction :=
  let self := Panel.ComputerAction_new (Panel.actionType a) in
  if String.eqb (Panel.actionType a) "keyboard" then
    Panel.with_keyboard (Panel.keyButtonValue a) (Panel.keyTapTimeSave a)
                        (Panel.keyName a) self
  else if String.eqb (Panel.actionType a) "mouse" then
    Panel.with_mouse (Panel.mouseButtonValue a) (Panel.mouseXSave a)
                     (Panel.mouseYSave a) (Panel.mouseHoldTimeSave a)
                     (Panel.TStr (format_int (checked tk_getint a))) self
  else if String.eqb (Panel.actionType a) "wait" then
    Panel.with_wait (Panel.waitTimeSave a) self
  else self.

(** The command [TwitchCommand( text, rows )] builds from the rows of a
    command. *)
Definition reloaded (tk_getint : str -> py_result Z)
           (c : Panel.TwitchCommand) : Panel.TwitchCommand :=
  Panel.mkCommand (map (reloaded_action tk_getint) (Panel.actionList c))
                  None false (Panel.savedText c).

(** What loading the rows of a command prints. *)
Definition adding_lines (tk_getint : str -> py_result Z)
           (c : Panel.TwitchCommand) : list Panel.effect :=
  map (fun a => Panel.PanelPrint
                  (Panel.PAddingAction (Panel.actionType a)
                     (tl (row_strings (action_row tk_getint a)))))
      (Panel.actionList c).


(** The radio buttons of an action show one of their values, as they do
    after a draw. *)
Definition buttons_ok (a : Panel.ComputerAction) : bool :=
  (negb (String.eqb (Panel.actionType a) "keyboard")
   || String.eqb (Panel.keyButtonValue a) "hold"
   || String.eqb (Panel.keyButtonValue a) "release"
   || String.eqb (Panel.keyButtonValue a) "tap")
  && (negb (String.eqb (Panel.actionType a) "mouse")
      || String.eqb (Panel.mouseButtonValue a) "lc"
      || String.eqb (Panel.mouseButtonValue a) "rc"
      || String.eqb (Panel.mouseButtonValue a) "mc"
      || String.eqb (Panel.mouseButtonValue a) "move").

(** The action on the screen after its row has been loaded and drawn. *)
Definition restored_action (tk_getint : str -> py_result Z)
           (a : Panel.ComputerAction) : Panel.ComputerAction :=
  match Panel.ComputerAction_f_draw
          (Panel.ComputerAction_f_save (reloaded_action tk_getint a)) with
  | Some a' => a'
  | None => reloaded_action tk_getint a
  end.

(** The command on the screen after its rows have been loaded and drawn. *)
Definition restored (tk_getint : str -> py_result Z)
           (c : Panel.TwitchCommand) : Panel.TwitchCommand :=
  Panel.mkCommand (map (restored_action tk_getint) (Panel.actionList c))
                  (Some (Panel.savedText c)) false (Panel.savedText c).


(** A panel with one command: [!jump] typed in its text field and not
    saved yet, a tap of SPACE for 250 ms and a click at (10, 20). *)
Definition jump_panel : Panel.Desk :=
  Panel.mkDesk
    [Panel.mkCommand
       [tap_action "SPACE" "250";
        Panel.mkAction "mouse" false EmptyString None "500" EmptyString
                       "lc" (Some "10"%string) "0" (Some "20"%string) "0"
                       (Some "500"%string) "500" (Panel.TInt 1) None "500"]
       (Some "!jump"%string) false EmptyString]
    [].


(** A character that means nothing to the reader of the program: no
    comma, no vertical bar, no line end. *)
Definition rplain_char (c : ascii) : bool :=
  negb (Ascii.eqb c Panel.COMMA || Ascii.eqb c Panel.PIPE
        || Ascii.eqb c Panel.cCR || Ascii.eqb c Panel.cLF).

Definition rplain (t : list ascii) : bool :=
  forallb rplain_char t && (Z.of_nat (length t) <=? Panel.field_limit)%Z.

(** Fields with a comma between each two. *)
Fixpoint joined (fs : list (list ascii)) : list ascii :=
  match fs with
  | [] => []
  | [f] => f
  | f :: fs' => f ++ Panel.COMMA :: joined fs'
  end.


(** A command [f_handleSave] can write: its actions are of the three
    kinds and the check box of each can be read. *)
Definition savable (tk_getint : str -> py_result Z)
           (c : Panel.TwitchCommand) : Prop :=
  Forall (fun a => known_kind a = true
                   /\ exists n, relative tk_getint a = Ok n)
         (Panel.actionList c).

(** The command with an empty text. *)
Definition without_text (c : Panel.TwitchCommand) : Panel.TwitchCommand :=
  Panel.mkCommand (Panel.actionList c) (Panel.chatText c)
                  (Panel.command_delete c) EmptyString.

(** A plain text that one more character does not take over the field
    limit. *)
Definition short_plain (t : str) : bool :=
  forallb plain_char (list_ascii_of_string t)
  && (Z.of_nat (length (list_ascii_of_string t)) <? Panel.field_limit)%Z.

(** The text of one quotation mark. *)
Definition quote_mark : str := String Panel.DQUOTE EmptyString.

(** A panel whose command has a comma in its text. *)
Definition comma_panel : Panel.Desk :=
  Panel.mkDesk
    [Panel.mkCommand [tap_action "SPACE" "250"]
                     (Some "go left, now"%string) false EmptyString]
    [].


(** The actions the Add buttons put on the screen: a tap of 500 ms with
    no key chosen, a left click at (0, 0), a wait of 500 ms. *)
Definition fresh_keyboard : Panel.ComputerAction := tap_action EmptyString "500".

Definition fresh_mouse : Panel.ComputerAction :=
  Panel.mkAction "mouse" false EmptyString None "500" EmptyString
                 "lc" (Some "0"%string) "0" (Some "0"%string) "0"
                 (Some "500"%string) "500" (Panel.TInt 0) None "500".

Definition fresh_wait : Panel.ComputerAction :=
  Panel.mkAction "wait" false EmptyString None "500" EmptyString
                 EmptyString None "0" None "0" None "500" (Panel.TInt 0)
                 (Some "500"%string) "500".

(** The actions of a list after a redraw. *)
Definition redrawn_actions (l : list Panel.ComputerAction)
  : list Panel.ComputerAction :=
  Panel.drawn Panel.ComputerAction_f_draw (map Panel.ComputerAction_f_save l).

(** A command on the screen with these actions and the text that was
    typed for [c]. *)
Definition shown_with (acts : list Panel.ComputerAction)
           (c : Panel.TwitchCommand) : Panel.TwitchCommand :=
  let l_text := Panel.saved (Panel.chatText c) (Panel.savedText c) in
  Panel.mkCommand acts (Some l_text) false l_text.


(** A scan code of the key table. *)
Definition table_code (c : Z) : Prop :=
  exists k, Panel.dict_get Panel.G_KEY_DICTIONARY k = Ok c.

(** One call of pydirectinput. *)
Definition mouse_call (ev : Panel.effect) : Prop :=
  match ev with
  | Panel.LeftClick _ _ | Panel.RightClick _ _ | Panel.MiddleClick _ _
  | Panel.MoveRel _ _ _ => True
  | _ => False
  end.

(** What processing one action can end with and do to the outside:
    nothing at all, however it ends; one key event; the press of a tap
    whose sleep raised; a whole tap; one mouse call. *)
Inductive process_trace : py_result unit -> list Panel.effect -> Prop :=
| trace_nothing (r : py_result unit) : process_trace r []
| trace_hold (c : Z) :
    table_code c ->
    process_trace (Ok tt) [Panel.SendInput c Panel.KEYEVENTF_SCANCODE]
| trace_release (c : Z) :
    table_code c ->
    process_trace (Ok tt)
      [Panel.SendInput c (Z.lor Panel.KEYEVENTF_SCANCODE Panel.KEYEVENTF_KEYUP)]
| trace_stuck (c : Z) (e : exn) :
    table_code c ->
    process_trace (Raise e) [Panel.SendInput c Panel.KEYEVENTF_SCANCODE]
| trace_tap (c : Z) (seconds : Q) :
    table_code c ->
    process_trace (Ok tt)
      [Panel.SendInput c Panel.KEYEVENTF_SCANCODE;
       Panel.TimeSleep seconds;
       Panel.SendInput c (Z.lor Panel.KEYEVENTF_SCANCODE Panel.KEYEVENTF_KEYUP)]
| trace_mouse (ev : Panel.effect) :
    mouse_call ev ->
    process_trace (Ok tt) [ev].

(** Whether the processing of every action of a list returns. *)
Definition all_return (l : list ComputerAction) : bool :=
  forallb (fun a => match process_raises a with
                    | None => true
                    | Some _ => false
                    end) l.

(** The actions of a list that are tried when they are processed in
    order: all of them up to the first one whose processing raises, that
    one included. *)
Fixpoint attempted (l : list ComputerAction) : list ComputerAction :=
  match l with
  | [] => []
  | a :: l' =>
      a :: match process_raises a with
           | Some _ => []
           | None => attempted l'
           end
  end.

(** The commands the loop of the handler gets to: those before the first
    one that has not been drawn, whose [chatText] is still [None]. *)
Fixpoint reached (cmds : list TwitchCommand) : list TwitchCommand :=
  match cmds with
  | [] => []
  | c :: cmds' =>
      match chatText c with
      | None => []
      | Some _ => c :: reached cmds'
      end
  end.

(** The error the first of the next [k] socket calls to fail raises, if
    one of them fails. *)
Fixpoint first_failure (k : nat) (script : list (option exn)) : option exn :=
  match k, script with
  | S _, Some e :: _ => Some e
  | S k', None :: rest => first_failure k' rest
  | _, _ => None
  end.

(** The socket calls of a connect: [close] when there is a socket, then
    [socket.socket], [connect], [send] and [settimeout]. *)
Definition connect_calls (self : Twitch) : nat :=
  if has_socket self then 5%nat else 4%nat.

(** The world once [k] socket calls, a reading of the clock and a draw of
    a random number have been made, with [es] logged. *)
Definition after_connect (k : nat) (es : list event) (w : World) : World :=
  mkWorld (w_recv w) (skipn k (w_sock w)) (w_clock w) (S (w_reads w))
          (w_randint w) (S (w_draws w)) (w_log w ++ es).

(** The error of a network that cannot be reached. *)
Definition unreachable : exn := OSError "[Errno 101] Network is unreachable".

(** A world whose socket delivers the script, in which a socket can be
    closed and opened but not connected, and whose clock reads [now] all
    the time. *)
Definition offline (script : list recv_outcome) (now : float) : World :=
  mkWorld script [None; None; Some unreachable] (fun _ => now) 0
          (fun _ => 12345%Z) 0 [].

(** Whether a frame calls for an answer on the socket. *)
Definition calls_for_reply (f : Frame) : bool :=
  has_command "PING" f || has_command "001" f.

(** The number of [send] calls the frames of a poll call for. *)
Definition sends (frames : list Frame) : nat :=
  length (filter calls_for_reply frames).

(** What [k] calls of [self.sock.send] in a row meet: nothing when there
    is none to make; with no socket the first one fails on the attribute
    lookup; otherwise the first failure the world has in store, if any. *)
Definition send_outcome (self : Twitch) (k : nat) (script : list (option exn))
  : option exn :=
  match k with
  | O => None
  | S _ =>
      if has_socket self then first_failure k script
      else Some (AttributeError "'NoneType' object has no attribute 'send'")
  end.

(* ===================================================================== *)
(** * Properties of the queue *)
(* ===================================================================== *)

Section QueueFacts.

Variable A : Type.
Implicit Types l : list A.

Lemma slice_index_neg l (k : Z) :
  (0 < k)%Z -> slice_index l (- k) = (length l - Z.to_nat k)%nat.
Proof.
  intros Hk. unfold slice_index.
  destruct (Z.ltb_spec (- k) 0); lia.
Qed.

Lemma slice_index_zero l : slice_index l 0 = 0%nat.
Proof. unfold slice_index. simpl. lia. Qed.

Lemma slice_index_pos l (k : Z) :
  (0 <= k)%Z -> slice_index l k = Nat.min (Z.to_nat k) (length l).
Proof.
  intros Hk. unfold slice_index.
  destruct (Z.ltb_spec k 0); lia.
Qed.

(** [l[0:n]] is the first [n] items, all of [l] when [n] is too large. *)
Lemma slice_prefix l (n : Z) :
  (0 <= n)%Z -> slice l 0 n = firstn (Z.to_nat n) l.
Proof.
  intros Hn. unfold slice.
  rewrite slice_index_zero, slice_index_pos by assumption.
  rewrite Nat.sub_0_r. simpl.
  destruct (Nat.le_ge_cases (Z.to_nat n) (length l)) as [H | H].
  - now rewrite Nat.min_l.
  - rewrite Nat.min_r by assumption.
    now rewrite !firstn_all2 by lia.
Qed.

(** [del l[0:n]] leaves what follows the first [n] items. *)
Lemma del_slice_prefix l (n : Z) :
  (0 <= n)%Z -> del_slice l 0 n = skipn (Z.to_nat n) l.
Proof.
  intros Hn. unfold del_slice.
  rewrite slice_index_zero, slice_index_pos by assumption.
  simpl.
  destruct (Nat.le_ge_cases (Z.to_nat n) (length l)) as [H | H].
  - now rewrite Nat.min_l.
  - rewrite Nat.min_r by assumption.
    now rewrite !skipn_all2 by lia.
Qed.

(** [l[-k:]] is the last [k] items when [l] has more than [k]. *)
Lemma slice_from_last l (k : Z) :
  (0 < k)%Z -> (k < Z.of_nat (length l))%Z ->
  length (slice_from l (- k)) = Z.to_nat k
  /\ firstn (length l - Z.to_nat k) l ++ slice_from l (- k) = l.
Proof.
  intros Hk Hlen. unfold slice_from.
  rewrite slice_index_neg by assumption.
  split.
  - rewrite length_skipn. lia.
  - apply firstn_skipn.
Qed.

End QueueFacts.

Example slices_of_Python :
  slice_from [1; 2; 3; 4; 5]%Z (- 2) = [4; 5]%Z
  /\ slice_from [1; 2; 3; 4; 5]%Z (- 7) = [1; 2; 3; 4; 5]%Z
  /\ slice_from [1; 2; 3; 4; 5]%Z (- 0) = [1; 2; 3; 4; 5]%Z
  /\ slice [1; 2; 3; 4; 5]%Z 0 2 = [1; 2]%Z
  /\ slice [1; 2; 3; 4; 5]%Z 0 9 = [1; 2; 3; 4; 5]%Z
  /\ del_slice [1; 2; 3; 4; 5]%Z 0 2 = [3; 4; 5]%Z
  /\ del_slice [1; 2; 3; 4; 5]%Z 0 9 = [].
Proof. repeat split. Qed.

Example splits_of_Python :
  split_on SP [] = [[]]
  /\ split_on SP (b "a b") = [b "a"; b "b"]
  /\ split_on SP (b "a  b ") = [b "a"; []; b "b"; []].
Proof. repeat split. Qed.

(** ** Enqueue *)

(** C6.  When the backlog, once the new events are appended, is longer
    than a positive maximum length [N], the enqueue step leaves exactly [N]
    entries: the [N] added last, in their order of arrival; what is
    dropped is the oldest part, at the front. *)
Theorem enqueue_keeps_most_recent :
  forall (N : Z) (l_newMessages : list ChatEvent) (s : MainLoop) (w : World),
    l_newMessages <> [] ->
    (0 < N)%Z ->
    (N < Z.of_nat (length (l_messageQueue s ++ l_newMessages)))%Z ->
    exists s' dropped,
      enqueue N l_newMessages s w = (Ok tt, s', w)
      /\ length (l_messageQueue s') = Z.to_nat N
      /\ l_messageQueue s ++ l_newMessages = dropped ++ l_messageQueue s'
      /\ l_activeTasks s' = l_activeTasks s
      /\ last_time s' = last_time s.
Proof.
  intros N new s w Hnew HN HL.
  destruct (slice_from_last (l_messageQueue s ++ new) HN HL) as [Hlen Hcat].
  exists (set_messageQueue (slice_from (l_messageQueue s ++ new) (- N)) s).
  exists (firstn (length (l_messageQueue s ++ new) - Z.to_nat N)
                 (l_messageQueue s ++ new)).
  destruct new as [| m new']; [congruence |].
  repeat split; simpl; auto.
Qed.

Lemma enqueue_keeps_most_recent_witness :
  exists s' dropped,
    enqueue 2 [viewer_says "c"] (idle_loop [viewer_says "a"; viewer_says "b"] None)
            (still_world 0)
    = (Ok tt, s', still_world 0)
    /\ length (l_messageQueue s') = 2%nat
    /\ [viewer_says "a"; viewer_says "b"] ++ [viewer_says "c"]
       = dropped ++ l_messageQueue s'.
Proof.
  destruct (@enqueue_keeps_most_recent 2 [viewer_says "c"]
              (idle_loop [viewer_says "a"; viewer_says "b"] None)
              (still_world 0))
    as (s' & dropped & H1 & H2 & H3 & _).
  - discriminate.
  - lia.
  - simpl. lia.
  - exists s', dropped. auto.
Defined.

(** The scenario of the specification: 25 events arrive in one pass, the
    maximum is 20, the backlog keeps the last 20 in order. *)
Example enqueue_25_of_20 :
  let arrivals := map (fun k => viewer_says (format_int (Z.of_nat k))) (seq 0 25) in
  exists s',
    enqueue G_MAX_QUEUE_LENGTH arrivals (idle_loop [] None) (still_world 0)
    = (Ok tt, s', still_world 0)
    /\ l_messageQueue s' = skipn 5 arrivals.
Proof. eexists. split; reflexivity. Qed.

(** A maximum of 0 would keep the whole backlog: [l[-0:]] is [l[0:]]. *)
Example enqueue_max_zero_keeps_all :
  exists s',
    enqueue 0 [viewer_says "c"] (idle_loop [viewer_says "a"; viewer_says "b"] None)
            (still_world 0)
    = (Ok tt, s', still_world 0)
    /\ l_messageQueue s' = three_waiting.
Proof. eexists. split; reflexivity. Qed.

(** ** Drain *)

(** What [drain] does on a backlog that is not empty, for a rate that is
    not zero and a bound [last_time]: the step in terms of the count [n]
    computed at line 1294. *)
Lemma drain_step (R : float) (s : MainLoop) (w : World) (t : float) (n : Z) :
  PrimFloat.eqb R 0 = false ->
  l_messageQueue s <> [] ->
  last_time s = Some t ->
  release_count
    (PyFloat (PrimFloat.div (PrimFloat.sub (w_clock w (w_reads w)) t) R))
    (length (l_messageQueue s)) = Ok n ->
  drain R s w =
  if (0 <? n)%Z then
    (Ok (firstn (Z.to_nat n) (l_messageQueue s)),
     set_last_time (w_clock w (S (w_reads w)))
       (set_messageQueue (skipn (Z.to_nat n) (l_messageQueue s)) s),
     tick (tick w))
  else (Ok [], s, tick w).
Proof.
  intros HR Hq Ht Hn.
  unfold drain, bind at 1, get at 1.
  destruct (l_messageQueue s) as [| m q] eqn:Eq; [congruence |].
  rewrite HR. unfold bind at 1, bind at 1, time_time at 1.
  rewrite Ht. unfold ret at 1. unfold bind at 1, eval.
  cbn [w_clock w_reads]. rewrite Hn.
  destruct (Z.ltb_spec 0 n) as [Hc | Hc].
  - rewrite slice_prefix, del_slice_prefix by lia. reflexivity.
  - reflexivity.
Qed.

(** The float computed at line 1293 can be an infinity or a NaN, which
    [int] refuses: the step ends there, after one clock reading. *)
Lemma drain_step_raises (R : float) (s : MainLoop) (w : World) (t : float)
      (e : exn) :
  PrimFloat.eqb R 0 = false ->
  l_messageQueue s <> [] ->
  last_time s = Some t ->
  release_count
    (PyFloat (PrimFloat.div (PrimFloat.sub (w_clock w (w_reads w)) t) R))
    (length (l_messageQueue s)) = Raise e ->
  drain R s w = (Raise e, s, tick w).
Proof.
  intros HR Hq Ht Hn.
  unfold drain, bind at 1, get at 1.
  destruct (l_messageQueue s) as [| m q] eqn:Eq; [congruence |].
  rewrite HR. unfold bind at 1, bind at 1, time_time at 1.
  rewrite Ht. unfold ret at 1. unfold bind at 1, eval.
  cbn [w_clock w_reads]. rewrite Hn. reflexivity.
Qed.

Lemma drain_empty (R : float) (s : MainLoop) (w : World) :
  l_messageQueue s = [] ->
  drain R s w = (Ok [], set_last_time (w_clock w (w_reads w)) s, tick w).
Proof.
  intros Hq. unfold drain, bind, get. rewrite Hq. reflexivity.
Qed.

(** Before its first assignment [last_time] is unbound: a backlog that
    fills on the very first pass makes line 1293 raise. *)
Example drain_before_first_assignment :
  exists e w',
    drain G_MESSAGE_RATE (idle_loop three_waiting None) (still_world 0)
    = (Raise (UnboundLocalError e), idle_loop three_waiting None, w').
Proof. eexists _, _. vm_compute. reflexivity. Qed.

(** With a rate of 0 the whole backlog is released at once, whatever the
    clock. *)
Example drain_rate_zero :
  exists s' w',
    drain 0 (idle_loop three_waiting None) (still_world 0)
    = (Ok three_waiting, s', w')
    /\ l_messageQueue s' = [].
Proof. eexists _, _. split; [vm_compute |]; reflexivity. Qed.

(** The count is the integer part of a product of floats.  A third of a
    second after the last drain, as the clock can give it, and three
    messages waiting: the quotient by the rate 0.5 is just under two
    thirds, the product with 3 rounds to 2, and two messages go. *)
Example drain_count_of_floats :
  release_count
    (PyFloat (PrimFloat.div (PrimFloat.sub 0x1.5555555555555p-2 0) G_MESSAGE_RATE))
    3 = Ok 2%Z.
Proof. vm_compute. reflexivity. Qed.

(** C2, as the program has it.  For a rate [R] other than 0 (so for every
    [R > 0]), a backlog of length [L > 0] and the time [E] elapsed since
    the last drain, let [count] be the integer part of [(E / R) * L] as
    line 1294 computes it, in binary64 arithmetic with [E], the quotient
    and the product each rounded, when that product is finite.  One drain
    step releases the first [count] entries of the backlog, oldest first,
    and all [L] of them when [count] is larger than [L] (none when it is
    not positive); it sets the last-drain time to the clock exactly when
    [count] is positive.  On an empty backlog the step records the clock
    as the last-drain time and releases nothing. *)
Theorem drain_releases_capped_floor :
  forall (R : float) (s : MainLoop) (w : World),
    PrimFloat.eqb R 0 = false ->
    (l_messageQueue s = [] ->
     drain R s w = (Ok [], set_last_time (w_clock w (w_reads w)) s, tick w))
    /\
    (forall (t : float) (count : Z),
        l_messageQueue s <> [] ->
        last_time s = Some t ->
        let E := PrimFloat.sub (w_clock w (w_reads w)) t in
        let L := length (l_messageQueue s) in
        int_of (PrimFloat.mul (PrimFloat.div E R) (float_of_len L)) = Ok count ->
        exists s' w',
          drain R s w = (Ok (firstn (Z.to_nat count) (l_messageQueue s)), s', w')
          /\ length (firstn (Z.to_nat count) (l_messageQueue s))
             = Nat.min (Z.to_nat count) L
          /\ l_messageQueue s' = skipn (Z.to_nat count) (l_messageQueue s)
          /\ ((0 < count)%Z -> last_time s' = Some (w_clock w (S (w_reads w))))
          /\ ((count <= 0)%Z -> last_time s' = Some t)
          /\ w_log w' = w_log w).
Proof.
  intros R s w HR. split.
  - apply drain_empty.
  - intros t count Hq Ht E L Hcount.
    pose proof (@drain_step R s w t count HR Hq Ht Hcount) as Hstep.
    destruct (Z.ltb_spec 0 count) as [Hc | Hc].
    + eexists _, _. split; [exact Hstep |].
      repeat split; simpl; auto.
      * apply length_firstn.
      * lia.
    + eexists _, _.
      replace (Z.to_nat count) with 0%nat by lia. simpl.
      split; [exact Hstep |].
      repeat split; simpl; auto.
      lia.
Qed.

Lemma drain_releases_capped_floor_witness :
  exists s' w',
    drain 0.25 (idle_loop three_waiting (Some 0%float)) (still_world 0.125)
    = (Ok [viewer_says "a"], s', w')
    /\ l_messageQueue s' = [viewer_says "b"; viewer_says "c"]
    /\ last_time s' = Some 0.125%float.
Proof.
  destruct (@drain_releases_capped_floor 0.25
              (idle_loop three_waiting (Some 0%float)) (still_world 0.125))
    as [_ H].
  - reflexivity.
  - destruct (H 0%float 1%Z) as (s' & w' & H1 & _ & H3 & H4 & _).
    + discriminate.
    + reflexivity.
    + vm_compute. reflexivity.
    + exists s', w'. split; [exact H1 |]. split; [exact H3 |].
      apply H4. reflexivity.
Defined.

(** The formula alone fails in two ways.  When more time than [R] has gone
    by, with [R = 1/2], [E = 1] and [L = 3], the formula gives 6 and the
    step can only release the 3 entries there are.  And the count is
    computed in floats: with [R = 1/2], [L = 3] and for [E] the float
    next below one sixth, which is 6004799503160661 / 2^55, the formula
    gives 0 and the step releases 1 entry, the product having been
    rounded up to 1. *)
Lemma drain_floor_count_cex :
  (exists s' w',
      PrimFloat.ltb 0 0.5 = true
      /\ drain 0.5 (idle_loop three_waiting (Some 0%float)) (still_world 1)
         = (Ok three_waiting, s', w')
      /\ Qfloor (((1 - 0) / (1 # 2)) * inject_Z (Z.of_nat (length three_waiting))) = 6%Z
      /\ Z.of_nat (length three_waiting)
         <> Qfloor (((1 - 0) / (1 # 2)) * inject_Z (Z.of_nat (length three_waiting))))
  /\
  (exists s' w',
      Prim2SF 0x1.5555555555555p-3 = S754_finite false 6004799503160661 (-55)
      /\ drain 0.5 (idle_loop three_waiting (Some 0%float))
               (still_world 0x1.5555555555555p-3)
         = (Ok [viewer_says "a"], s', w')
      /\ Qfloor ((((6004799503160661 # 36028797018963968) - 0) / (1 # 2))
                 * inject_Z (Z.of_nat (length three_waiting))) = 0%Z).
Proof.
  split.
  - eexists _, _. split; [reflexivity |].
    split; [vm_compute; reflexivity |].
    split; [reflexivity |]. discriminate.
  - eexists _, _. split; [reflexivity |].
    split; [vm_compute; reflexivity |].
    vm_compute. reflexivity.
Qed.

(** C10.  On a backlog that is not empty, when the count computed at line
    1294 reaches or exceeds the length of the backlog, the step releases
    every entry once, in order, and leaves the backlog empty; it returns
    normally. *)
Theorem drain_count_beyond_backlog :
  forall (R : float) (s : MainLoop) (w : World) (t : float) (n : Z),
    PrimFloat.eqb R 0 = false ->
    l_messageQueue s <> [] ->
    last_time s = Some t ->
    release_count
      (PyFloat (PrimFloat.div (PrimFloat.sub (w_clock w (w_reads w)) t) R))
      (length (l_messageQueue s)) = Ok n ->
    (Z.of_nat (length (l_messageQueue s)) <= n)%Z ->
    exists s' w',
      drain R s w = (Ok (l_messageQueue s), s', w')
      /\ l_messageQueue s' = []
      /\ last_time s' = Some (w_clock w (S (w_reads w)))
      /\ w_log w' = w_log w.
Proof.
  intros R s w t n HR Hq Ht Hcount Hn.
  pose proof (@drain_step R s w t n HR Hq Ht Hcount) as Hstep.
  assert (HL : (0 < length (l_messageQueue s))%nat).
  { destruct (l_messageQueue s); [congruence | simpl; lia]. }
  destruct (Z.ltb_spec 0 n) as [Hc | Hc]; [| lia].
  rewrite firstn_all2, skipn_all2 in Hstep by lia.
  eexists _, _. split; [exact Hstep |].
  repeat split; reflexivity.
Qed.

Lemma drain_count_beyond_backlog_witness :
  exists s' w',
    drain G_MESSAGE_RATE (idle_loop three_waiting (Some 0%float)) (still_world 2)
    = (Ok three_waiting, s', w')
    /\ l_messageQueue s' = [].
Proof.
  destruct (@drain_count_beyond_backlog G_MESSAGE_RATE
              (idle_loop three_waiting (Some 0%float)) (still_world 2)
              0%float 12%Z)
    as (s' & w' & H1 & H2 & _).
  - reflexivity.
  - discriminate.
  - reflexivity.
  - vm_compute. reflexivity.
  - vm_compute. discriminate.
  - exists s', w'. split; assumption.
Defined.

(** Just past the rate, at the rate of the program: half a second and a
    little more since the last drain releases a backlog of three whole. *)
Example drain_just_past_the_rate :
  exists s' w',
    drain G_MESSAGE_RATE (idle_loop three_waiting (Some 100%float))
          (still_world 0x1.9200000000001p+6)
    = (Ok three_waiting, s', w')
    /\ l_messageQueue s' = [].
Proof. eexists _, _. split; [vm_compute |]; reflexivity. Qed.

(* ===================================================================== *)
(** * Properties of the dispatch pass *)
(* ===================================================================== *)

Lemma log_all_nil (w : World) : log_all [] w = w.
Proof. destruct w. unfold log_all. simpl. now rewrite app_nil_r. Qed.

Lemma log_all_app (es1 es2 : list event) (w : World) :
  log_all es2 (log_all es1 w) = log_all (es1 ++ es2) w.
Proof. unfold log_all. simpl. now rewrite app_assoc. Qed.

Lemma log_is_log_all (e : event) (w : World) : log e w = log_all [e] w.
Proof. reflexivity. Qed.

Lemma dispatch_one_submits (cap : Z) (m : ChatEvent) (s : MainLoop) (w : World) :
  (Z.of_nat (length (l_activeTasks s)) <= cap)%Z ->
  dispatch_one cap m s w
  = (Ok tt,
     set_activeTasks (l_activeTasks s ++ [mkFuture (thread_pool s) m])
                     (set_thread_pool (S (thread_pool s)) s),
     log (Submit m) w).
Proof.
  intros H. unfold dispatch_one, bind, get.
  apply Z.leb_le in H. rewrite H. reflexivity.
Qed.

Lemma dispatch_one_drops (cap : Z) (m : ChatEvent) (s : MainLoop) (w : World) :
  (cap < Z.of_nat (length (l_activeTasks s)))%Z ->
  dispatch_one cap m s w
  = (Ok tt, s,
     log (Print (PWorkersWarning (length (l_activeTasks s)) (Z.to_nat cap)
                                 (length (l_messageQueue s)))) w).
Proof.
  intros H. unfold dispatch_one, bind, get.
  apply Z.leb_gt in H. rewrite H. reflexivity.
Qed.

(** The dispatch pass never raises, never touches the backlog, and lets
    the list of futures grow to one more than the cap, not further. *)
Lemma dispatch_bound (cap : Z) (ms : list ChatEvent) :
  forall (s : MainLoop) (w : World),
    exists s' w',
      dispatch cap ms s w = (Ok tt, s', w')
      /\ l_messageQueue s' = l_messageQueue s
      /\ (Z.of_nat (length (l_activeTasks s'))
          <= Z.max (Z.of_nat (length (l_activeTasks s))) (cap + 1))%Z.
Proof.
  induction ms as [| m ms IH]; intros s w.
  - exists s, w. repeat split. lia.
  - unfold dispatch. simpl. unfold bind at 1.
    destruct (Z.le_gt_cases (Z.of_nat (length (l_activeTasks s))) cap) as [H | H].
    + rewrite dispatch_one_submits by assumption.
      destruct (IH (set_activeTasks (l_activeTasks s ++ [mkFuture (thread_pool s) m])
                      (set_thread_pool (S (thread_pool s)) s))
                   (log (Submit m) w)) as (s' & w' & E & Hq & Hlen).
      exists s', w'. split; [exact E |]. split; [exact Hq |].
      simpl in Hlen. rewrite length_app in Hlen. simpl in Hlen. lia.
    + rewrite dispatch_one_drops by lia.
      destruct (IH s (log (Print (PWorkersWarning (length (l_activeTasks s))
                                    (Z.to_nat cap) (length (l_messageQueue s)))) w))
        as (s' & w' & E & Hq & Hlen).
      exists s', w'. split; [exact E |]. split; [exact Hq |]. lia.
Qed.

(** C3, at the constants of the program.  With 100 futures still running,
    which is the cap, a released message is submitted all the same: the
    test at line 1324 is [<=], the list of futures grows to 101, and no
    warning is printed.  The loop gets there by itself: after a quiet pass
    and five passes that each bring twenty messages whose handling does
    not end, 100 futures are running, and the next pass submits one
    more. *)
Theorem dispatch_at_cap_submits :
  (exists s',
      dispatch G_MAX_WORKERS [viewer_says "!jump"]
               (mkMainLoop (pending 100) [] (Some 0%float) 100 Twitch_new)
               (still_world 0)
      = (Ok tt, s', log (Submit (viewer_says "!jump")) (still_world 0))
      /\ Z.of_nat (length (pending 100)) = G_MAX_WORKERS
      /\ length (l_activeTasks s') = 101%nat
      /\ (G_MAX_WORKERS < Z.of_nat (length (l_activeTasks s')))%Z)
  /\ (exists s6 w6 s7 w7,
         passes decode_ascii G_MESSAGE_RATE G_MAX_QUEUE_LENGTH G_MAX_WORKERS
                busy 6 fresh_loop busy_world
         = (Ok Continues, s6, w6)
         /\ length (l_activeTasks s6) = 100%nat
         /\ f_mainLoop_pass decode_ascii G_MESSAGE_RATE G_MAX_QUEUE_LENGTH
                            G_MAX_WORKERS busy s6 w6
            = (Ok Continues, s7, w7)
         /\ length (l_activeTasks s7) = 101%nat).
Proof.
  split.
  - eexists. split; [vm_compute; reflexivity |].
    split; [reflexivity |]. split; [reflexivity |]. vm_compute. reflexivity.
  - eexists _, _, _, _.
    split; [vm_compute; reflexivity |].
    split; [reflexivity |].
    split; [vm_compute; reflexivity |].
    reflexivity.
Qed.

(** Only the message after that one is dropped with a warning. *)
Example dispatch_above_cap_drops :
  dispatch G_MAX_WORKERS [viewer_says "!jump"]
           (mkMainLoop (pending 101) [] (Some 0%float) 101 Twitch_new)
           (still_world 0)
  = (Ok tt, mkMainLoop (pending 101) [] (Some 0%float) 101 Twitch_new,
     log (Print (PWorkersWarning 101 100 0)) (still_world 0)).
Proof. vm_compute. reflexivity. Qed.

(* ===================================================================== *)
(** * Properties of the classifier and of the handler *)
(* ===================================================================== *)

Lemma lower_char_idem (c : ascii) : lower_char (lower_char c) = lower_char c.
Proof.
  destruct c as [[] [] [] [] [] [] [] []]; reflexivity.
Qed.

Lemma lower_idem (s : str) : lower (lower s) = lower s.
Proof.
  induction s as [| c s IH]; simpl; [reflexivity |].
  now rewrite lower_char_idem, IH.
Qed.

(** C4, as the program has it.  For a frame whose command is [PRIVMSG] the
    classifier appends the event made of the sender and of the trailing
    text exactly as they were parsed; it changes nothing else.  The
    lower-casing is done later, by the handler, which treats an event as it
    treats its lower-cased copy. *)
Theorem classify_privmsg_verbatim :
  forall (l_privmsgs : list ChatEvent) (f : Frame) (self : Twitch) (w : World),
    command f = "PRIVMSG"%string ->
    classify l_privmsgs f self w
    = (Ok (l_privmsgs ++ [mkChatEvent (name f) (trailing f)]), self, w)
    /\ forall (g_commandList : list TwitchCommand),
        f_handleMessage g_commandList (mkChatEvent (name f) (trailing f)) tt w
        = f_handleMessage g_commandList
            (mkChatEvent (lower (name f)) (lower (trailing f))) tt w.
Proof.
  intros l f self w Hcmd. split.
  - unfold classify. rewrite Hcmd. reflexivity.
  - intros cmds. unfold f_handleMessage, handle_body. simpl.
    now rewrite !lower_idem.
Qed.

Lemma classify_privmsg_verbatim_witness :
  classify [] jump_frame Twitch_new (still_world 0)
  = (Ok [mkChatEvent "Viewer1" "!JUMP"], Twitch_new, still_world 0).
Proof.
  exact (proj1 (@classify_privmsg_verbatim [] jump_frame Twitch_new
                  (still_world 0) eq_refl)).
Defined.

(** Lower-casing at emission fails: the event put in the list keeps the
    upper-case letters of the frame. *)
Lemma classify_not_lowered_cex :
  command jump_frame = "PRIVMSG"%string
  /\ exists ev,
      classify [] jump_frame Twitch_new (still_world 0)
      = (Ok [ev], Twitch_new, still_world 0)
      /\ username ev <> lower (name jump_frame)
      /\ message ev <> lower (trailing jump_frame).
Proof.
  split; [reflexivity |].
  exists (mkChatEvent "Viewer1" "!JUMP").
  split; [reflexivity |]. split; discriminate.
Qed.

Lemma processed_app (es1 es2 : list event) :
  processed (es1 ++ es2) = processed es1 ++ processed es2.
Proof.
  induction es1 as [| e es1 IH]; simpl; [reflexivity |].
  destruct e; simpl; now rewrite IH.
Qed.

Lemma processed_map_Process (l : list ComputerAction) :
  processed (map Process l) = l.
Proof. induction l as [| a l IH]; simpl; [reflexivity | now rewrite IH]. Qed.

Lemma process_all_returns (l : list ComputerAction) (w : World) :
  (forall a, In a l -> process_raises a = None) ->
  for_each l f_process tt w = (Ok tt, tt, log_all (map Process l) w).
Proof.
  revert w. induction l as [| a l IH]; intros w Hok; simpl.
  - now rewrite log_all_nil.
  - unfold bind at 1. unfold f_process at 1. unfold bind, emit.
    rewrite (Hok a) by (now left). unfold ret at 1.
    rewrite IH by (intros; apply Hok; now right).
    rewrite log_is_log_all, log_all_app. reflexivity.
Qed.

Lemma f_check_returns (c : TwitchCommand) (text : str) (w : World) :
  chatText c <> None ->
  (forall a, In a (actionList c) -> process_raises a = None) ->
  f_check c text tt w = (Ok tt, tt, log_all (check_trace text c) w).
Proof.
  intros Hdrawn Hok. unfold f_check, check_trace, registered_for.
  destruct (chatText c) as [l_command |]; [| congruence].
  destruct (String.eqb l_command text).
  - unfold bind, emit. rewrite process_all_returns by assumption.
    rewrite log_is_log_all, log_all_app. reflexivity.
  - now rewrite log_all_nil.
Qed.

Lemma check_all_returns (cmds : list TwitchCommand) (text : str) (w : World) :
  (forall c, In c cmds -> chatText c <> None) ->
  (forall c a, In c cmds -> In a (actionList c) -> process_raises a = None) ->
  for_each cmds (fun c => f_check c text) tt w
  = (Ok tt, tt, log_all (flat_map (check_trace text) cmds) w).
Proof.
  revert w. induction cmds as [| c cmds IH]; intros w Hdrawn Hok; simpl.
  - now rewrite log_all_nil.
  - unfold bind at 1.
    rewrite f_check_returns;
      [| apply Hdrawn; now left | intros a Ha; apply (Hok c); [now left | assumption]].
    rewrite IH;
      [| intros c' Hc'; apply Hdrawn; now right
       | intros c' a Hc' Ha; apply (Hok c'); [now right | assumption]].
    now rewrite log_all_app.
Qed.

Lemma processed_check_traces (text : str) (cmds : list TwitchCommand) :
  processed (flat_map (check_trace text) cmds)
  = flat_map actionList (filter (registered_for text) cmds).
Proof.
  induction cmds as [| c cmds IH]; simpl; [reflexivity |].
  rewrite processed_app, IH. unfold check_trace.
  destruct (registered_for text c); simpl.
  - now rewrite processed_map_Process.
  - reflexivity.
Qed.

(** The actions of a list are processed in order up to the first one that
    raises. *)
Lemma process_all_run (l : list ComputerAction) (w : World) :
  exists r,
    for_each l f_process tt w = (r, tt, log_all (map Process (attempted l)) w)
    /\ (all_return l = true -> r = Ok tt)
    /\ (all_return l = false -> exists e, r = Raise e).
Proof.
  revert w. induction l as [| a l IH]; intros w.
  - exists (Ok tt). cbn. rewrite log_all_nil. repeat split. discriminate.
  - cbn [for_each attempted all_return forallb].
    unfold bind at 1, f_process at 1. unfold bind at 1, emit at 1.
    destruct (process_raises a) as [e |].
    + exists (Raise e). cbn. rewrite log_is_log_all.
      repeat split; [discriminate | eauto].
    + cbn [andb]. destruct (IH (log (Process a) w)) as (r & E & H1 & H2).
      exists r. unfold ret at 1. rewrite E.
      rewrite log_is_log_all, log_all_app. auto.
Qed.

Lemma attempted_all (l : list ComputerAction) :
  all_return l = true -> attempted l = l.
Proof.
  induction l as [| a l IH]; cbn; [reflexivity |].
  destruct (process_raises a); [discriminate |].
  intros H. now rewrite IH.
Qed.

Lemma attempted_app (l1 l2 : list ComputerAction) :
  attempted (l1 ++ l2)
  = if all_return l1 then l1 ++ attempted l2 else attempted l1.
Proof.
  induction l1 as [| a l1 IH]; [reflexivity |].
  cbn [app attempted]. unfold all_return in *. cbn [forallb].
  destruct (process_raises a); [reflexivity |].
  cbn [andb]. rewrite IH. now destruct (forallb _ l1).
Qed.

(** The loop over the commands: what it has processed when it ends,
    however it ends. *)
Lemma check_all_run (text : str) (cmds : list TwitchCommand) (w : World) :
  exists r w',
    for_each cmds (fun c => f_check c text) tt w = (r, tt, w')
    /\ processed (w_log w')
       = processed (w_log w)
         ++ attempted (flat_map actionList
                         (filter (registered_for text) (reached cmds))).
Proof.
  revert w. induction cmds as [| c cmds IH]; intros w.
  - exists (Ok tt), w. split; [reflexivity |]. cbn. now rewrite app_nil_r.
  - cbn [for_each reached]. unfold bind at 1, f_check at 1.
    destruct (chatText c) as [l_command |] eqn:Ec.
    2: { eexists _, w. split; [reflexivity |]. cbn. now rewrite app_nil_r. }
    cbn [filter]. unfold registered_for at 1. rewrite Ec.
    destruct (String.eqb l_command text).
    + unfold bind at 1, emit at 1.
      destruct (process_all_run (actionList c) (log (Print PCommandReceived) w))
        as (r & E & Hok & Hraise).
      rewrite E. cbn [flat_map]. rewrite attempted_app.
      destruct (all_return (actionList c)) eqn:Eall.
      * rewrite (Hok eq_refl).
        destruct (IH (log_all (map Process (attempted (actionList c)))
                              (log (Print PCommandReceived) w)))
          as (r' & w' & E' & Hp).
        exists r', w'. split; [exact E' |].
        rewrite Hp. cbn [w_log log log_all].
        rewrite !processed_app, processed_map_Process.
        rewrite attempted_all by assumption.
        cbn [processed]. now rewrite app_nil_r, app_assoc.
      * destruct (Hraise eq_refl) as (e & ->).
        eexists _, _. split; [reflexivity |].
        cbn [w_log log log_all].
        rewrite !processed_app, processed_map_Process.
        cbn [processed]. now rewrite app_nil_r.
    + unfold ret at 1. apply IH.
Qed.

(** C5, as the program has it.  When a message is handled, the commands
    are gone through in order, and the actions processed are those of the
    commands whose registered text, as it was typed, is equal to the
    lower-cased message, command after command; a command whose text
    differs in any way, a prefix or an upper-case letter included, has
    none of its actions processed.  The handling ends at the first action
    whose processing raises, and at the first command that has not been
    drawn: nothing after it is processed. *)
Theorem handle_message_runs_exact_matches :
  forall (g_commandList : list TwitchCommand) (p_message : ChatEvent) (w : World),
    exists w',
      f_handleMessage g_commandList p_message tt w = (Ok tt, tt, w')
      /\ processed (w_log w')
         = processed (w_log w)
           ++ attempted
                (flat_map actionList
                   (filter (registered_for (lower (message p_message)))
                           (reached g_commandList))).
Proof.
  intros cmds ev w.
  unfold f_handleMessage, try_except, handle_body.
  unfold bind at 1. unfold emit at 1.
  destruct (check_all_run (lower (message ev)) cmds
              (log (Print (PGotMessage (lower (username ev))
                                       (lower (message ev)))) w))
    as (r & w' & E & Hp).
  rewrite E. cbn [w_log log] in Hp.
  rewrite processed_app in Hp. cbn [processed] in Hp.
  rewrite app_nil_r in Hp.
  destruct r as [[] | e].
  - exists w'. split; [reflexivity | exact Hp].
  - eexists. split; [reflexivity |].
    cbn [w_log log]. rewrite processed_app. cbn [processed].
    now rewrite app_nil_r.
Qed.

(** The scenario of the specification: [!jump] is registered with one
    action, a viewer writes [!JUMP], the action is processed once. *)
Lemma handle_message_runs_exact_matches_witness :
  exists w',
    f_handleMessage [mkCommand (Some "!jump"%string) [tap_space]]
                    (mkChatEvent "viewer1" "!JUMP") tt (still_world 0)
    = (Ok tt, tt, w')
    /\ processed (w_log w') = [tap_space].
Proof.
  destruct (@handle_message_runs_exact_matches
              [mkCommand (Some "!jump"%string) [tap_space]]
              (mkChatEvent "viewer1" "!JUMP") (still_world 0))
    as (w' & H1 & H2).
  exists w'. split; [exact H1 | exact H2].
Defined.

(** Matching under case normalisation fails in two ways.  A command
    registered as [!Jump] has the same lower-cased text as the message
    [!jump], and none of its actions is processed: only the message is
    lower-cased.  And of two commands registered as [!jump], the second
    has no action processed for the message [!JUMP] when an action of the
    first raises. *)
Lemma handle_message_exact_match_cex :
  (lower "!Jump" = lower "!jump"
   /\ exists w',
       f_handleMessage [mkCommand (Some "!Jump"%string) [tap_space]]
                       (mkChatEvent "viewer1" "!jump") tt (still_world 0)
       = (Ok tt, tt, w')
       /\ processed (w_log w') = [])
  /\
  (Some (lower "!JUMP") = chatText (mkCommand (Some "!jump"%string) [tap_space])
   /\ exists w',
       f_handleMessage [mkCommand (Some "!jump"%string) [wait_action];
                        mkCommand (Some "!jump"%string) [tap_space]]
                       (mkChatEvent "viewer1" "!JUMP") tt (still_world 0)
       = (Ok tt, tt, w')
       /\ processed (w_log w') = [wait_action]).
Proof.
  split; (split; [reflexivity |]); eexists; split; reflexivity.
Qed.

(** A longer or shorter text does not match. *)
Example handle_message_no_prefix_match :
  exists w',
    f_handleMessage [mkCommand (Some "!jump"%string) [tap_space]]
                    (mkChatEvent "viewer1" "!jump now") tt (still_world 0)
    = (Ok tt, tt, w')
    /\ processed (w_log w') = [].
Proof. eexists. split; reflexivity. Qed.

(** Letters beyond ASCII are lowered too. *)
Example handle_message_lowers_latin1 :
  lower (String (ascii_of_nat 201) "CLAIR")
  = String (ascii_of_nat 233) "clair".
Proof. reflexivity. Qed.

(** C7.  The handler returns normally for every command list and every
    message: whatever is raised while the commands are checked and their
    actions processed is caught, and a line with the text of the exception
    is printed. *)
Theorem handle_message_never_raises :
  forall (g_commandList : list TwitchCommand) (p_message : ChatEvent) (w : World),
    exists w',
      f_handleMessage g_commandList p_message tt w = (Ok tt, tt, w')
      /\ (forall e s1 w1,
             handle_body g_commandList p_message tt w = (Raise e, s1, w1) ->
             w' = log (Print (PEncounteredException
                                (String.append "Encountered exception: " (exn_str e)))) w1)
      /\ (forall s1 w1,
             handle_body g_commandList p_message tt w = (Ok tt, s1, w1) ->
             w' = w1).
Proof.
  intros cmds ev w. unfold f_handleMessage, try_except.
  destruct (handle_body cmds ev tt w) as [[[[] | e] []] w1].
  - exists w1. split; [reflexivity |]. split.
    + intros e s1 w2 H. discriminate.
    + intros s1 w2 H. now inversion H.
  - eexists. split; [reflexivity |]. split.
    + intros e' s1 w2 H. now inversion H.
    + intros s1 w2 H. discriminate.
Qed.

Lemma handle_message_never_raises_witness :
  f_handleMessage [mkCommand (Some "!wait"%string) [wait_action; tap_space];
                   mkCommand None []]
                  (mkChatEvent "viewer1" "!Wait") tt (still_world 0)
  = (Ok tt, tt,
     log_all [Print (PGotMessage "viewer1" "!wait");
              Print PCommandReceived;
              Process wait_action;
              Print (PEncounteredException "Encountered exception: int() argument must be a string, a bytes-like object or a real number, not 'method'")]
             (still_world 0)).
Proof.
  destruct (@handle_message_never_raises
              [mkCommand (Some "!wait"%string) [wait_action; tap_space];
               mkCommand None []]
              (mkChatEvent "viewer1" "!Wait") (still_world 0))
    as (w' & H1 & H2 & _).
  rewrite H1. rewrite (H2 _ _ _ eq_refl). reflexivity.
Defined.

(* ===================================================================== *)
(** * Properties of the connection *)
(* ===================================================================== *)

(** A connect, for every way its socket calls can go: when none of them
    fails the object is connected and the trace is the full one; when one
    fails, its error leaves the connect. *)
Lemma f_connect_run (p_channel : str) (self : Twitch) (w : World) :
  match first_failure (connect_calls self) (w_sock w) with
  | None =>
      f_connect p_channel self w
      = (Ok tt,
         connected p_channel (w_clock w (w_reads w)),
         after_connect (connect_calls self)
           (tl (reconnect_trace 0 (has_socket self) (w_randint w (w_draws w))))
           w)
  | Some e =>
      exists self' w' es,
        f_connect p_channel self w = (Raise e, self', w')
        /\ w_log w' = w_log w ++ es
        /\ w_recv w' = w_recv w
  end.
Proof.
  destruct self as [sk pa lo ch ts], w as [rc sc ck rd ri dr lg].
  unfold connect_calls, has_socket, f_connect, reconnect_trace, connected,
    after_connect.
  cbn [sock w_sock].
  destruct sk as [n |].
  - destruct sc as [| [e1 |] [| [e2 |] [| [e3 |] [| [e4 |] [| [e5 |] sc]]]]];
      cbn -[b encode format_int app Qdiv lower].
    all: try (repeat rewrite <- app_assoc; reflexivity).
    all: eexists _, _, _; split; [reflexivity |]; split; [| reflexivity].
    all: cbn [w_log with_sock log]; repeat rewrite <- app_assoc.
    all: first [reflexivity | symmetry; apply app_nil_r].
  - destruct sc as [| [e1 |] [| [e2 |] [| [e3 |] [| [e4 |] sc]]]];
      cbn -[b encode format_int app Qdiv lower].
    all: try (repeat rewrite <- app_assoc; reflexivity).
    all: eexists _, _, _; split; [reflexivity |]; split; [| reflexivity].
    all: cbn [w_log with_sock log]; repeat rewrite <- app_assoc.
    all: first [reflexivity | symmetry; apply app_nil_r].
Qed.

(** The same for a reconnect, which sleeps first. *)
Lemma f_reconnect_run (p_delay : Q) (self : Twitch) (w : World) :
  match first_failure (connect_calls self) (w_sock w) with
  | None =>
      f_reconnect p_delay self w
      = (Ok tt,
         connected (channel self) (w_clock w (w_reads w)),
         after_connect (connect_calls self)
           (reconnect_trace p_delay (has_socket self) (w_randint w (w_draws w)))
           w)
  | Some e =>
      exists self' w' es,
        f_reconnect p_delay self w = (Raise e, self', w')
        /\ w_log w' = w_log w ++ Sleep p_delay :: es
        /\ w_recv w' = w_recv w
  end.
Proof.
  pose proof (f_connect_run (channel self) self (log (Sleep p_delay) w)) as H.
  cbn [w_sock log] in H.
  change (f_reconnect p_delay self w)
    with (f_connect (channel self) self (log (Sleep p_delay) w)).
  destruct (first_failure (connect_calls self) (w_sock w)) as [e |].
  - destruct H as (self' & w' & es & E & Hlog & Hrecv).
    exists self', w', es. split; [exact E |]. split; [| exact Hrecv].
    rewrite Hlog. cbn [w_log log]. now rewrite <- app_assoc.
  - rewrite H. unfold after_connect, reconnect_trace.
    cbn [w_recv w_sock w_clock w_reads w_randint w_draws w_log log tl].
    now rewrite <- app_assoc.
Qed.

Lemma recv_loop_data (chunks : list bytes) (tail : list recv_outcome) :
  Forall (fun d => d <> []) chunks ->
  forall l_buffer,
    recv_loop (map RecvData chunks ++ tail) l_buffer
    = recv_loop tail (l_buffer ++ concat chunks).
Proof.
  induction 1 as [| d chunks Hd _ IH]; intros buf; simpl.
  - now rewrite app_nil_r.
  - destruct d as [| c d]; [congruence |].
    rewrite IH. now rewrite <- app_assoc.
Qed.

(** A poll whose receive loop ends on a closed connection or on an error:
    it prints, then reconnects, and what it returns is up to the
    reconnect. *)
Lemma poll_reconnects (decode : bytes -> str) (self : Twitch) (w : World)
      (chunks : list bytes) (rest : list recv_outcome) (last : recv_outcome)
      (line : console_line) (delay : Q) :
  has_socket self = true ->
  Forall (fun d => d <> []) chunks ->
  w_recv w = map RecvData chunks ++ last :: rest ->
  (last = RecvData [] /\ line = PConnectionClosed /\ delay = 5%Q
   \/ exists e, last = RecvError e /\ line = PConnectionError e /\ delay = 1%Q) ->
  match first_failure 5 (w_sock w) with
  | None =>
      f_receiveAndParseData decode self w
      = (Ok [],
         connected (channel self) (w_clock w (w_reads w)),
         after_connect 5
           (Print line :: reconnect_trace delay true (w_randint w (w_draws w)))
           (with_recv rest w))
  | Some e =>
      exists self' w' es,
        f_receiveAndParseData decode self w = (Raise e, self', w')
        /\ w_log w' = w_log w ++ Print line :: Sleep delay :: es
        /\ w_recv w' = rest
  end.
Proof.
  intros Hopen Hchunks Hrecv Hlast.
  assert (Hsock : exists n, sock self = Some n).
  { unfold has_socket in Hopen. destruct (sock self); [eauto | discriminate]. }
  destruct Hsock as (n & Esock).
  pose proof (f_reconnect_run delay self (log (Print line) (with_recv rest w)))
    as H.
  unfold connect_calls in H. rewrite Hopen in H.
  change (w_sock (log (Print line) (with_recv rest w))) with (w_sock w) in H.
  assert (Hrun : f_receiveAndParseData decode self w
                 = bind (f_reconnect delay) (fun _ => ret [])
                        self (log (Print line) (with_recv rest w))).
  { unfold f_receiveAndParseData, bind at 1, receive_all.
    rewrite Esock, Hrecv, recv_loop_data by assumption. cbn [app].
    destruct Hlast as [(-> & -> & ->) | (e & -> & -> & ->)];
      cbn [recv_loop]; reflexivity. }
  rewrite Hrun.
  destruct (first_failure 5 (w_sock w)) as [e |].
  - destruct H as (self' & w' & es & E & Hlog & Hrecv').
    unfold bind at 1.
    rewrite E. exists self', w', es. split; [reflexivity |].
    split; [| exact Hrecv'].
    rewrite Hlog. cbn [w_log log with_recv]. now rewrite <- app_assoc.
  - unfold bind at 1. rewrite H. unfold ret, after_connect.
    cbn [w_recv w_sock w_clock w_reads w_randint w_draws w_log log with_recv].
    now rewrite <- app_assoc.
Qed.

(** C8, as the program has it.  On a socket that is open: when a read
    returns no bytes the poll prints, sleeps 5 seconds and connects again;
    it returns no frame when the five socket calls of the reconnect go
    through, and ends with the error of the first one that fails
    otherwise.  When a read fails with an error other than a timeout it
    does the same with a sleep of 1 second.  When the first read times out
    it returns no frame and does nothing else.  What was read earlier in
    the same poll is dropped in the first two cases. *)
Theorem poll_outcomes :
  forall (decode : bytes -> str) (self : Twitch) (w : World)
         (chunks : list bytes) (rest : list recv_outcome),
    has_socket self = true ->
    Forall (fun d => d <> []) chunks ->
    (w_recv w = map RecvData chunks ++ RecvData [] :: rest ->
     match first_failure 5 (w_sock w) with
     | None =>
         f_receiveAndParseData decode self w
         = (Ok [],
            connected (channel self) (w_clock w (w_reads w)),
            after_connect 5
              (Print PConnectionClosed
               :: reconnect_trace 5 true (w_randint w (w_draws w)))
              (with_recv rest w))
     | Some e =>
         exists self' w' es,
           f_receiveAndParseData decode self w = (Raise e, self', w')
           /\ w_log w' = w_log w ++ Print PConnectionClosed :: Sleep 5 :: es
           /\ w_recv w' = rest
     end)
    /\ (forall e0,
           w_recv w = map RecvData chunks ++ RecvError e0 :: rest ->
           match first_failure 5 (w_sock w) with
           | None =>
               f_receiveAndParseData decode self w
               = (Ok [],
                  connected (channel self) (w_clock w (w_reads w)),
                  after_connect 5
                    (Print (PConnectionError e0)
                     :: reconnect_trace 1 true (w_randint w (w_draws w)))
                    (with_recv rest w))
           | Some e =>
               exists self' w' es,
                 f_receiveAndParseData decode self w = (Raise e, self', w')
                 /\ w_log w'
                    = w_log w ++ Print (PConnectionError e0) :: Sleep 1 :: es
                 /\ w_recv w' = rest
           end)
    /\ (w_recv w = RecvTimeout :: rest ->
        f_receiveAndParseData decode self w = (Ok [], self, with_recv rest w)).
Proof.
  intros decode self w chunks rest Hopen Hchunks.
  split; [| split].
  - intros Hrecv.
    apply (@poll_reconnects decode self w chunks rest (RecvData [])
             PConnectionClosed 5%Q Hopen Hchunks Hrecv).
    left. auto.
  - intros e0 Hrecv.
    apply (@poll_reconnects decode self w chunks rest (RecvError e0)
             (PConnectionError e0) 1%Q Hopen Hchunks Hrecv).
    right. eauto.
  - intros Hrecv. unfold has_socket in Hopen.
    destruct (sock self) as [n |] eqn:Esock; [| discriminate].
    unfold f_receiveAndParseData, bind at 1, receive_all.
    rewrite Esock, Hrecv. reflexivity.
Qed.

Lemma poll_outcomes_witness :
  (let w := scripted [RecvData (b "PING :tmi"); RecvData []; RecvTimeout] 7 in
   exists self' w',
     f_receiveAndParseData decode_ascii (session true) w = (Ok [], self', w')
     /\ w_log w' = Print PConnectionClosed :: reconnect_trace 5 true 12345
     /\ w_recv w' = [RecvTimeout])
  /\ (let w := offline [RecvData (b "PING :tmi"); RecvError (OSError "reset")] 7 in
      exists self' w' es,
        f_receiveAndParseData decode_ascii (session true) w
        = (Raise unreachable, self', w')
        /\ w_log w' = Print (PConnectionError (OSError "reset")) :: Sleep 1 :: es)
  /\ (let w := scripted [RecvTimeout; RecvData (b "PING :tmi")] 7 in
      f_receiveAndParseData decode_ascii (session true) w
      = (Ok [], session true, with_recv [RecvData (b "PING :tmi")] w)).
Proof.
  split; [| split].
  - destruct (@poll_outcomes decode_ascii (session true)
                (scripted [RecvData (b "PING :tmi"); RecvData []; RecvTimeout] 7)
                [b "PING :tmi"] [RecvTimeout] eq_refl)
      as (H & _ & _).
    + constructor; [discriminate | constructor].
    + eexists _, _. split; [apply H; reflexivity |]. split; reflexivity.
  - destruct (@poll_outcomes decode_ascii (session true)
                (offline [RecvData (b "PING :tmi"); RecvError (OSError "reset")] 7)
                [b "PING :tmi"] [] eq_refl)
      as (_ & H & _).
    + constructor; [discriminate | constructor].
    + destruct (H (OSError "reset") eq_refl) as (self' & w' & es & E & Hlog & _).
      exists self', w', es. split; [exact E | exact Hlog].
  - destruct (@poll_outcomes decode_ascii (session true)
                (scripted [RecvTimeout; RecvData (b "PING :tmi")] 7)
                [] [RecvData (b "PING :tmi")] eq_refl)
      as (_ & _ & H).
    + constructor.
    + apply H. reflexivity.
Defined.

(** Returning no frame after a reconnect fails when the reconnect does:
    the peer has closed the connection and the network cannot be reached;
    the poll ends with the error of [connect], not with an empty list. *)
Lemma poll_reconnect_fails_cex :
  has_socket (session true) = true
  /\ w_recv (offline [RecvData []] 7) = [RecvData []]
  /\ exists self' w',
      f_receiveAndParseData decode_ascii (session true) (offline [RecvData []] 7)
      = (Raise unreachable, self', w')
      /\ w_log w' = [Print PConnectionClosed; Sleep 5; SockClose;
                     Print PConnecting; SockOpen].
Proof.
  split; [reflexivity |]. split; [reflexivity |].
  eexists _, _. split; vm_compute; reflexivity.
Qed.

Lemma login_watchdog_fires (l_privmsgs : list ChatEvent) (self : Twitch) (w : World) :
  login_ok self = false ->
  PrimFloat.ltb G_MAX_TIME_TO_WAIT_FOR_LOGIN
                (PrimFloat.sub (w_clock w (w_reads w)) (login_timestamp self))
  = true ->
  match first_failure (connect_calls self) (w_sock w) with
  | None =>
      login_watchdog l_privmsgs self w
      = (Ok [],
         connected (channel self) (w_clock w (S (w_reads w))),
         after_connect (connect_calls self)
           (Print PNoResponse
            :: reconnect_trace 0 (has_socket self) (w_randint w (w_draws w)))
           (tick w))
  | Some e =>
      exists self' w' es,
        login_watchdog l_privmsgs self w = (Raise e, self', w')
        /\ w_log w' = w_log w ++ Print PNoResponse :: Sleep 0 :: es
  end.
Proof.
  intros Hlogin Hlate.
  pose proof (f_reconnect_run 0%Q self (log (Print PNoResponse) (tick w))) as H.
  change (w_sock (log (Print PNoResponse) (tick w))) with (w_sock w) in H.
  assert (Hrun : login_watchdog l_privmsgs self w
                 = bind (f_reconnect 0) (fun _ => ret [])
                        self (log (Print PNoResponse) (tick w))).
  { unfold login_watchdog, bind at 1, get at 1.
    rewrite Hlogin. change (negb false) with true. cbv iota.
    unfold bind at 1, time_time at 1. cbv beta.
    rewrite Hlate. reflexivity. }
  rewrite Hrun.
  destruct (first_failure (connect_calls self) (w_sock w)) as [e |].
  - destruct H as (self' & w' & es & E & Hlog & _).
    unfold bind at 1.
    rewrite E. exists self', w', es. split; [reflexivity |].
    rewrite Hlog. cbn [w_log log tick]. now rewrite <- app_assoc.
  - unfold bind at 1. rewrite H. unfold ret, after_connect.
    cbn [w_recv w_sock w_clock w_reads w_randint w_draws w_log log tick].
    now rewrite <- app_assoc.
Qed.

(** C9, as the program has it.  When, at the end of a receive pass, the
    login has not been confirmed and more than the fixed window has gone by
    since the connect, the pass prints and connects again without delay.
    It returns the empty list when the socket calls of the reconnect go
    through, and ends with the error of the first one that fails
    otherwise; either way the chat messages it had collected from the
    frames of that poll are not delivered. *)
Theorem login_watchdog_discards :
  forall (decode : bytes -> str) (self : Twitch) (w : World)
         (frames : list Frame) (self1 : Twitch) (w1 : World)
         (l_privmsgs : list ChatEvent) (self2 : Twitch) (w2 : World),
    f_receiveAndParseData decode self w = (Ok frames, self1, w1) ->
    classify_all [] frames self1 w1 = (Ok l_privmsgs, self2, w2) ->
    login_ok self2 = false ->
    PrimFloat.ltb G_MAX_TIME_TO_WAIT_FOR_LOGIN
                  (PrimFloat.sub (w_clock w2 (w_reads w2)) (login_timestamp self2))
    = true ->
    match first_failure (connect_calls self2) (w_sock w2) with
    | None =>
        exists self' w',
          f_twitchReceiveMessages decode self w = (Ok [], self', w')
          /\ w_log w'
             = w_log w2 ++ Print PNoResponse
                        :: reconnect_trace 0 (has_socket self2)
                             (w_randint w2 (w_draws w2))
          /\ login_ok self' = false
          /\ partial self' = PBytes []
    | Some e =>
        exists self' w' es,
          f_twitchReceiveMessages decode self w = (Raise e, self', w')
          /\ w_log w' = w_log w2 ++ Print PNoResponse :: Sleep 0 :: es
    end.
Proof.
  intros decode self w frames self1 w1 msgs self2 w2 Hpoll Hclass Hlogin Hlate.
  pose proof (@login_watchdog_fires msgs self2 w2 Hlogin Hlate) as H.
  assert (Hrun : f_twitchReceiveMessages decode self w
                 = login_watchdog msgs self2 w2).
  { unfold f_twitchReceiveMessages, bind at 1. rewrite Hpoll.
    unfold bind at 1. now rewrite Hclass. }
  rewrite Hrun.
  destruct (first_failure (connect_calls self2) (w_sock w2)) as [e |].
  - exact H.
  - rewrite H. eexists _, _. split; [reflexivity |]. repeat split.
Qed.

(** A chat message arrives four seconds after a connect that was never
    confirmed: it is parsed, collected, and thrown away. *)
Lemma login_watchdog_discards_witness :
  let w := scripted [RecvData jump_line] 4 in
  (exists self2 w2,
      (frames <- f_receiveAndParseData decode_ascii ;; classify_all [] frames)
        (session false) w
      = (Ok [mkChatEvent "Viewer1" "!JUMP"], self2, w2))
  /\ exists self' w',
      f_twitchReceiveMessages decode_ascii (session false) w = (Ok [], self', w')
      /\ w_log w' = Print PNoResponse :: reconnect_trace 0 true 12345.
Proof.
  intros w. split.
  - eexists _, _. vm_compute. reflexivity.
  - destruct (@login_watchdog_discards decode_ascii (session false) w
                [mkFrame "Viewer1" "PRIVMSG" ["#chan"%string] "!JUMP"]
                (session false) (with_recv [] w)
                [mkChatEvent "Viewer1" "!JUMP"]
                (session false) (with_recv [] w))
      as (self' & w' & H1 & H2 & _).
    + vm_compute. reflexivity.
    + reflexivity.
    + reflexivity.
    + reflexivity.
    + exists self', w'. split; [exact H1 | exact H2].
Defined.

(** Returning the empty list fails when the reconnect does: the same
    message and the same silence, on a network that cannot be reached;
    the pass ends with the error of [connect]. *)
Lemma login_watchdog_reconnect_fails_cex :
  let w := offline [RecvData jump_line] 4 in
  (exists self2 w2,
      (frames <- f_receiveAndParseData decode_ascii ;; classify_all [] frames)
        (session false) w
      = (Ok [mkChatEvent "Viewer1" "!JUMP"], self2, w2)
      /\ login_ok self2 = false
      /\ PrimFloat.ltb G_MAX_TIME_TO_WAIT_FOR_LOGIN
                       (PrimFloat.sub (w_clock w2 (w_reads w2))
                                      (login_timestamp self2)) = true)
  /\ exists self' w',
      f_twitchReceiveMessages decode_ascii (session false) w
      = (Raise unreachable, self', w').
Proof.
  intros w. split.
  - eexists _, _. split; [vm_compute; reflexivity |]. split; reflexivity.
  - eexists _, _. vm_compute. reflexivity.
Qed.

(* ===================================================================== *)
(** * Properties of the matcher *)
(* ===================================================================== *)

(** The matches of three lines and an unfinished fourth: offsets and
    groups as [re] gives them. *)
Example finditer_of_three_lines :
  map (fun m => (mo_start m, mo_end m,
                 map (fun n => group n (mo_caps m)) [1; 2; 3; 4]%nat))
      (finditer re_prog
         (b ":nick!user@host PRIVMSG #chan :!JUMP now" ++ CRLF
          ++ b "PING :tmi.twitch.tv" ++ CRLF
          ++ b ":tmi.twitch.tv 001 justinfan123 :Welcome, GLHF!" ++ CRLF
          ++ b "PIN"))
  = [(0, 42, [Some (b "nick"); Some (b "PRIVMSG"); Some (b "#chan");
              Some (b "!JUMP now")]);
     (42, 63, [None; Some (b "PING"); None; Some (b "tmi.twitch.tv")]);
     (63, 112, [None; Some (b "001"); Some (b "justinfan123");
                Some (b "Welcome, GLHF!")])]%nat.
Proof. vm_compute. reflexivity. Qed.

Lemma reads_nil (st : mstate) : reads st st [].
Proof. unfold reads. simpl. auto. Qed.

Lemma reads_trans (st1 st2 st3 : mstate) (c1 c2 : bytes) :
  reads st1 st2 c1 -> reads st2 st3 c2 -> reads st1 st3 (c1 ++ c2).
Proof.
  intros (R1 & P1 & V1) (R2 & P2 & V2). unfold reads, prev_after.
  rewrite R1, R2, P2, P1, V2, V1, length_app, fold_left_app, <- app_assoc.
  repeat split. lia.
Qed.

Lemma mem_true_in (c : byte) (l : list byte) : mem c l = true -> In c l.
Proof.
  unfold mem. intros H. apply existsb_exists in H as (x & Hin & E).
  apply Byte.byte_dec_bl in E. now subst.
Qed.

Lemma in_mem_true (c : byte) (l : list byte) : In c l -> mem c l = true.
Proof.
  unfold mem. intros H. apply existsb_exists. exists c. split; [assumption |].
  now apply Byte.byte_dec_lb.
Qed.

(** A class that excludes the line ends only reads bytes that are not. *)
Lemma class_not_eol (excl : list byte) (c : byte) :
  mem CR excl && mem LF excl = true -> mem c excl = false -> eol c = false.
Proof.
  intros H Hc. apply andb_prop in H as [Hcr Hlf].
  apply mem_true_in in Hcr, Hlf.
  unfold eol, mem. simpl.
  destruct (Byte.eqb c CR) eqn:E1.
  - apply Byte.byte_dec_bl in E1. subst.
    now rewrite (in_mem_true _ _ Hcr) in Hc.
  - destruct (Byte.eqb c LF) eqn:E2; [| reflexivity].
    apply Byte.byte_dec_bl in E2. subst.
    now rewrite (in_mem_true _ _ Hlf) in Hc.
Qed.

Lemma run_star_reads (excl : list byte) (s : bytes) :
  forall pos prev caps st',
    In st' (run_star excl pos prev s caps) ->
    exists c,
      reads (MState pos prev s caps) st' c
      /\ Forall (fun x => mem x excl = false) c
      /\ m_caps st' = caps.
Proof.
  induction s as [| x s IH]; intros pos prev caps st' Hin; simpl in Hin.
  - destruct Hin as [<- | []]. exists []. split; [apply reads_nil | auto].
  - destruct (mem x excl) eqn:Ex.
    + destruct Hin as [<- | []]. exists []. split; [apply reads_nil | auto].
    + apply in_app_or in Hin as [Hin | [<- | []]].
      * apply IH in Hin as (c & (R & P & V) & Hc & Hcaps).
        exists (x :: c). simpl in *. split; [| auto].
        unfold reads. simpl. rewrite R, P, V. repeat split. lia.
      * exists []. split; [apply reads_nil | auto].
Qed.

(** Every way a pattern matches reads a stretch of the subject; a pattern
    that stays in its line reads no line end. *)
Lemma run_reads (r : regex) :
  forall st st',
    In st' (run r st) ->
    exists c,
      reads st st' c
      /\ (stays_in_line r = true -> Forall (fun x => eol x = false) c).
Proof.
  induction r as [| c | excl | excl | r1 IH1 r2 IH2 | r1 IH1 r2 IH2 | r IH | n r IH];
    intros st st' Hin; simpl in Hin.
  - destruct (at_line_start st); [| contradiction].
    destruct Hin as [<- | []]. exists []. split; [apply reads_nil | auto].
  - destruct st as [pos prev rest caps]. simpl in Hin.
    destruct rest as [| x s]; [contradiction |].
    destruct (Byte.eqb x c) eqn:E; [| contradiction].
    destruct Hin as [<- | []]. apply Byte.byte_dec_bl in E. subst x.
    exists [c]. split.
    + unfold reads. simpl. repeat split. lia.
    + simpl. intros H. constructor; [| constructor].
      now apply negb_true_iff in H.
  - destruct st as [pos prev rest caps]. simpl in Hin.
    apply run_star_reads in Hin as (c & R & Hc & _).
    exists c. split; [assumption |]. simpl. intros H.
    eapply Forall_impl; [| exact Hc]. intros a. now apply class_not_eol.
  - destruct st as [pos prev rest caps]. simpl in Hin.
    destruct rest as [| x s]; [contradiction |].
    destruct (mem x excl) eqn:Ex; [contradiction |].
    apply run_star_reads in Hin as (c & (R & P & V) & Hc & _).
    exists (x :: c). simpl in *. split.
    + unfold reads. simpl. rewrite R, P, V. repeat split. lia.
    + intros H. constructor.
      * now apply (class_not_eol excl).
      * eapply Forall_impl; [| exact Hc]. intros a. now apply class_not_eol.
  - apply in_flat_map in Hin as (st1 & H1 & H2).
    apply IH1 in H1 as (c1 & R1 & S1). apply IH2 in H2 as (c2 & R2 & S2).
    exists (c1 ++ c2). split; [eapply reads_trans; eassumption |].
    simpl. intros H. apply andb_prop in H as [Ha Hb].
    apply Forall_app. auto.
  - apply in_app_or in Hin as [Hin | Hin].
    + apply IH1 in Hin as (c & R & S). exists c. split; [assumption |].
      simpl. intros H. apply andb_prop in H as [Ha Hb]. auto.
    + apply IH2 in Hin as (c & R & S). exists c. split; [assumption |].
      simpl. intros H. apply andb_prop in H as [Ha Hb]. auto.
  - apply in_app_or in Hin as [Hin | [<- | []]].
    + apply IH in Hin as (c & R & S). exists c. auto.
    + exists []. split; [apply reads_nil | auto].
  - apply in_map_iff in Hin as (st1 & <- & Hin).
    apply IH in Hin as (c & R & S). exists c. split; [| auto].
    unfold reads, capture in *. simpl. exact R.
Qed.

Section FlatMap.

Variables A B C : Type.

Lemma map_of_flat_map (f : B -> C) (g : A -> list B) (l : list A) :
  map f (flat_map g l) = flat_map (fun x => map f (g x)) l.
Proof.
  induction l as [| x l IH]; simpl; [reflexivity |].
  now rewrite map_app, IH.
Qed.

Lemma flat_map_of_map (f : A -> B) (g : B -> list C) (l : list A) :
  flat_map g (map f l) = flat_map (fun x => g (f x)) l.
Proof.
  induction l as [| x l IH]; simpl; [reflexivity |].
  now rewrite IH.
Qed.

Lemma flat_map_ext_in (g g' : A -> list C) (l : list A) :
  (forall x, In x l -> g x = g' x) -> flat_map g l = flat_map g' l.
Proof.
  induction l as [| x l IH]; intros H; simpl; [reflexivity |].
  rewrite H by (now left). rewrite IH; [reflexivity |].
  intros y Hy. apply H. now right.
Qed.

End FlatMap.

Lemma firstn_exact (A : Type) (c x : list A) : firstn (length c) (c ++ x) = c.
Proof.
  rewrite firstn_app, Nat.sub_diag, firstn_all. simpl. apply app_nil_r.
Qed.

Lemma run_star_shift (excl : list byte) (k : nat) (s : bytes) :
  forall pos prev caps,
    run_star excl (pos + k) prev s caps
    = map (shift k) (run_star excl pos prev s caps).
Proof.
  induction s as [| x s IH]; intros pos prev caps; simpl; [reflexivity |].
  destruct (mem x excl); [reflexivity |].
  rewrite map_app. simpl. f_equal.
  apply (IH (S pos)).
Qed.

(** A larger offset moves every match by as much and changes nothing
    else. *)
Lemma run_shift (k : nat) (r : regex) :
  forall st, run r (shift k st) = map (shift k) (run r st).
Proof.
  induction r as [| c | excl | excl | r1 IH1 r2 IH2 | r1 IH1 r2 IH2 | r IH | n r IH];
    intros [pos prev rest caps]; simpl.
  - unfold at_line_start. simpl. destruct prev as [x |]; [| reflexivity].
    destruct (Byte.eqb x LF); reflexivity.
  - destruct rest as [| x s]; [reflexivity |].
    destruct (Byte.eqb x c); reflexivity.
  - apply run_star_shift.
  - destruct rest as [| x s]; [reflexivity |].
    destruct (mem x excl); [reflexivity |].
    apply (run_star_shift excl k s (S pos)).
  - change (MState (pos + k) prev rest caps) with (shift k (MState pos prev rest caps)).
    rewrite IH1, flat_map_of_map, map_of_flat_map.
    apply flat_map_ext_in. intros st1 _. apply IH2.
  - change (MState (pos + k) prev rest caps) with (shift k (MState pos prev rest caps)).
    now rewrite IH1, IH2, map_app.
  - change (MState (pos + k) prev rest caps) with (shift k (MState pos prev rest caps)).
    now rewrite IH, map_app.
  - change (MState (pos + k) prev rest caps) with (shift k (MState pos prev rest caps)).
    rewrite IH, !map_map. apply map_ext. intros [pos1 prev1 rest1 caps1].
    unfold capture, shift. simpl.
    now replace (pos1 + k - (pos + k))%nat with (pos1 - pos)%nat by lia.
Qed.

Lemma run_star_forget (excl : list byte) (pos : nat) (prev : option byte)
      (s : bytes) (caps : list (nat * bytes)) :
  map forget (run_star excl pos prev s caps)
  = map forget (run_star excl pos None s caps).
Proof.
  destruct s as [| x s]; simpl; [reflexivity |].
  destruct (mem x excl); [reflexivity |].
  now rewrite !map_app.
Qed.

(** A pattern without anchor does not look at the byte before. *)
Lemma run_forget (r : regex) :
  anchor_free r = true ->
  forall st, map forget (run r st) = map forget (run r (forget st)).
Proof.
  induction r as [| c | excl | excl | r1 IH1 r2 IH2 | r1 IH1 r2 IH2 | r IH | n r IH];
    intros Hfree [pos prev rest caps]; simpl in *.
  - discriminate.
  - reflexivity.
  - apply run_star_forget.
  - reflexivity.
  - apply andb_prop in Hfree as [H1 H2].
    rewrite !map_of_flat_map.
    rewrite (flat_map_ext_in _ (fun x => map forget (run r2 (forget x))))
      by (intros; now apply IH2).
    rewrite <- (flat_map_of_map forget (fun x => map forget (run r2 x))).
    rewrite (IH1 H1).
    rewrite flat_map_of_map.
    apply flat_map_ext_in. intros x _. symmetry. now apply IH2.
  - apply andb_prop in Hfree as [H1 H2].
    rewrite !map_app. f_equal.
    + now apply IH1.
    + now apply IH2.
  - rewrite !map_app. f_equal. now apply IH.
  - rewrite !map_map.
    rewrite <- (map_map forget (capture n (MState pos prev rest caps))).
    rewrite (IH Hfree). rewrite map_map. apply map_ext.
    intros [pos1 prev1 rest1 caps1]. reflexivity.
Qed.

Lemma run_star_ext (excl : list byte) (t : bytes) (s : bytes) :
  mem CR excl && mem LF excl = true ->
  line_ends s = true ->
  forall pos prev caps,
    run_star excl pos prev (s ++ t) caps
    = map (ext t) (run_star excl pos prev s caps).
Proof.
  intros Hexcl. induction s as [| x s IH]; intros Hs pos prev caps; simpl in *.
  - discriminate.
  - destruct (mem x excl) eqn:Ex; [reflexivity |].
    rewrite (class_not_eol excl x Hexcl Ex) in Hs. simpl in Hs.
    rewrite map_app. simpl. f_equal. now apply IH.
Qed.

Lemma reads_keeps_line_end (st st' : mstate) (c : bytes) :
  reads st st' c ->
  Forall (fun x => eol x = false) c ->
  line_ends (m_rest st) = true ->
  line_ends (m_rest st') = true.
Proof.
  intros (R & _ & _) Hc Hs. unfold line_ends in *.
  rewrite R, existsb_app in Hs.
  apply orb_prop in Hs as [Hs | Hs]; [| assumption].
  apply existsb_exists in Hs as (x & Hin & Hx).
  rewrite Forall_forall in Hc. rewrite (Hc x Hin) in Hx. discriminate.
Qed.

(** A pattern that stays in its line does not see what follows the line
    end. *)
Lemma run_ext (t : bytes) (r : regex) :
  stays_in_line r = true ->
  forall st,
    line_ends (m_rest st) = true ->
    run r (ext t st) = map (ext t) (run r st).
Proof.
  induction r as [| c | excl | excl | r1 IH1 r2 IH2 | r1 IH1 r2 IH2 | r IH | n r IH];
    intros Hline st Hs; simpl in Hline.
  - destruct st as [pos prev rest caps]. simpl. unfold at_line_start. simpl.
    destruct prev as [x |]; [| reflexivity].
    destruct (Byte.eqb x LF); reflexivity.
  - destruct st as [pos prev rest caps]. simpl in *.
    destruct rest as [| x s]; [discriminate |]. simpl.
    destruct (Byte.eqb x c); reflexivity.
  - destruct st as [pos prev rest caps]. simpl in *.
    now apply run_star_ext.
  - destruct st as [pos prev rest caps]. simpl in *.
    destruct rest as [| x s]; [discriminate |]. simpl in *.
    destruct (mem x excl) eqn:Ex; [reflexivity |].
    rewrite (class_not_eol excl x Hline Ex) in Hs. simpl in Hs.
    now apply run_star_ext.
  - apply andb_prop in Hline as [H1 H2]. simpl.
    rewrite (IH1 H1 st Hs), flat_map_of_map, map_of_flat_map.
    apply flat_map_ext_in. intros st1 Hin. apply (IH2 H2).
    apply run_reads in Hin as (c & R & Hc).
    eapply reads_keeps_line_end; eauto.
  - apply andb_prop in Hline as [H1 H2]. simpl.
    now rewrite (IH1 H1 st Hs), (IH2 H2 st Hs), map_app.
  - simpl. now rewrite (IH Hline st Hs), map_app.
  - simpl. rewrite (IH Hline st Hs), !map_map.
    apply map_ext_in. intros st1 Hin.
    apply run_reads in Hin as (c & (R & P & _) & _).
    unfold capture, ext. simpl. do 3 f_equal.
    rewrite P, R. replace (m_pos st + length c - m_pos st)%nat with (length c) by lia.
    rewrite <- app_assoc. now rewrite !firstn_exact.
Qed.

(* ===================================================================== *)
(** * Frames in the byte stream *)
(* ===================================================================== *)

Lemma run_lit_inv (c : byte) (st st' : mstate) :
  In st' (run (Lit c) st) ->
  m_rest st = c :: m_rest st'
  /\ m_pos st' = S (m_pos st)
  /\ m_prev st' = Some c
  /\ m_caps st' = m_caps st.
Proof.
  destruct st as [pos prev rest caps]. simpl.
  destruct rest as [| x s]; [contradiction |].
  destruct (Byte.eqb x c) eqn:E; [| contradiction].
  intros [<- | []]. apply Byte.byte_dec_bl in E. subst. simpl. auto.
Qed.

Lemma run_seq (r1 r2 : regex) (st : mstate) :
  run (r1 >>> r2)%re st = flat_map (run r2) (run r1 st).
Proof. reflexivity. Qed.

Lemma run_prog_line_start (st : mstate) :
  at_line_start st = true -> run re_prog st = run re_body st ++ [].
Proof.
  intros H. unfold re_prog. rewrite run_seq. simpl run at 2. now rewrite H.
Qed.

Lemma eol_false_not_CR (x : byte) : eol x = false -> Byte.eqb x CR = false.
Proof.
  unfold eol, mem. simpl. intros H. now apply orb_false_elim in H as [H _].
Qed.

(** What is left of a frame after reading some of its body. *)
Lemma rest_of_frame (c : bytes) :
  forall body rest',
    body ++ CRLF = c ++ rest' ->
    line_ends body = false ->
    Forall (fun x => eol x = false) c ->
    exists body',
      body = c ++ body' /\ rest' = body' ++ CRLF /\ line_ends body' = false.
Proof.
  induction c as [| x c IH]; intros body rest' E Hbody Hc; simpl in *.
  - exists body. auto.
  - inversion Hc as [| ? ? Hx Hc']; subst.
    destruct body as [| y body]; simpl in *.
    + inversion E; subst. discriminate.
    + inversion E; subst. apply orb_false_elim in Hbody as [_ Hbody].
      destruct (IH body rest' H1 Hbody Hc') as (body' & -> & -> & H').
      exists body'. auto.
Qed.

Lemma run_crlf_ext (t : bytes) (st : mstate) (body' : bytes) :
  m_rest st = body' ++ CRLF ->
  line_ends body' = false ->
  run (Lit CR >>> Lit LF)%re (ext t st)
  = map (ext t) (run (Lit CR >>> Lit LF)%re st).
Proof.
  destruct st as [pos prev rest caps]. simpl. intros -> Hb.
  destruct body' as [| x body']; simpl in *.
  - reflexivity.
  - apply orb_false_elim in Hb as [Hx _].
    now rewrite (eol_false_not_CR x Hx).
Qed.

Lemma line_ends_frame (body : bytes) : line_ends (body ++ CRLF) = true.
Proof.
  unfold line_ends. rewrite existsb_app. simpl. apply orb_true_r.
Qed.

(** On a frame followed by more bytes the pattern matches as on the frame
    alone. *)
Lemma run_body_ext (body t : bytes) (pos : nat) (prev : option byte)
      (caps : list (nat * bytes)) :
  line_ends body = false ->
  run re_body (MState pos prev ((body ++ CRLF) ++ t) caps)
  = map (ext t) (run re_body (MState pos prev (body ++ CRLF) caps)).
Proof.
  intros Hbody.
  change (MState pos prev ((body ++ CRLF) ++ t) caps)
    with (ext t (MState pos prev (body ++ CRLF) caps)).
  unfold re_body. rewrite !run_seq.
  rewrite (@run_ext t re_fields eq_refl) by apply line_ends_frame.
  rewrite flat_map_of_map, map_of_flat_map.
  apply flat_map_ext_in. intros st1 Hin.
  apply run_reads in Hin as (c & (R & _) & Hc). simpl in R.
  destruct (@rest_of_frame c body (m_rest st1) R Hbody (Hc eq_refl))
    as (body' & _ & R' & Hb').
  exact (@run_crlf_ext t st1 body' R' Hb').
Qed.

(** A match of the pattern on a frame reads the whole frame. *)
Lemma run_body_result (body : bytes) (pos : nat) (prev : option byte)
      (caps : list (nat * bytes)) (st' : mstate) :
  line_ends body = false ->
  In st' (run re_body (MState pos prev (body ++ CRLF) caps)) ->
  m_rest st' = []
  /\ m_pos st' = (pos + length (body ++ CRLF))%nat
  /\ m_prev st' = Some LF.
Proof.
  intros Hbody Hin. unfold re_body in Hin. rewrite run_seq in Hin.
  apply in_flat_map in Hin as (st1 & H1 & Hin).
  rewrite run_seq in Hin.
  apply in_flat_map in Hin as (st2 & H2 & H3).
  apply run_reads in H1 as (c & (R & P & _) & Hc). simpl in R, P.
  destruct (@rest_of_frame c body (m_rest st1) R Hbody (Hc eq_refl))
    as (body' & -> & R' & Hb').
  apply run_lit_inv in H2 as (R2 & P2 & _).
  apply run_lit_inv in H3 as (R3 & P3 & V3 & _).
  rewrite R' in R2.
  destruct body' as [| x body']; simpl in R2.
  - inversion R2 as [R2']. rewrite <- R2' in R3. inversion R3 as [R3'].
    split; [now symmetry |]. split; [| assumption].
    rewrite P3, P2, P, !length_app. simpl. lia.
  - inversion R2; subst. simpl in Hb'. discriminate.
Qed.

(** The pattern does not match where no line feed follows. *)
Lemma no_match_without_LF (s : bytes) (pos : nat) (prev : option byte)
      (caps : list (nat * bytes)) :
  ~ In LF s -> run re_prog (MState pos prev s caps) = [].
Proof.
  intros Hs.
  destruct (run re_prog (MState pos prev s caps)) as [| st' l] eqn:E;
    [reflexivity | exfalso].
  assert (Hin : In st' (run re_prog (MState pos prev s caps)))
    by (rewrite E; now left).
  unfold re_prog in Hin. rewrite run_seq in Hin.
  apply in_flat_map in Hin as (st0 & H0 & Hin).
  rewrite run_seq in Hin.
  apply in_flat_map in Hin as (st1 & H1 & Hin).
  rewrite run_seq in Hin.
  apply in_flat_map in Hin as (st2 & H2 & H3).
  assert (R0 : m_rest st0 = s).
  { simpl in H0. destruct (at_line_start _); [| contradiction].
    destruct H0 as [<- | []]. reflexivity. }
  apply run_reads in H1 as (c1 & (R1 & _) & _).
  apply run_lit_inv in H2 as (R2 & _).
  apply run_lit_inv in H3 as (R3 & _).
  apply Hs. rewrite <- R0, R1, R2, R3.
  apply in_or_app. right. right. now left.
Qed.

(** The match of a frame wherever it stands at the start of a line. *)
Lemma match_frame (f t : bytes) (pos : nat) (prev : option byte) :
  is_frame f ->
  prev = None \/ prev = Some LF ->
  match_at re_prog pos prev (f ++ t)
  = Some (MState (pos + length f) (Some LF) t (frame_caps f)).
Proof.
  intros (body & -> & Hbody & Hmatch) Hprev.
  (* the reference match, at offset 0 of the frame alone *)
  assert (Href : exists st0 l0,
             run re_body (MState 0 None (body ++ CRLF) []) = st0 :: l0
             /\ frame_caps (body ++ CRLF) = m_caps st0).
  { unfold frame_caps. unfold match_at in *.
    rewrite run_prog_line_start in * by reflexivity.
    rewrite app_nil_r in *.
    destruct (run re_body (MState 0 None (body ++ CRLF) [])) as [| st0 l0];
      [now contradiction Hmatch |].
    exists st0, l0. auto. }
  destruct Href as (st0 & l0 & E0 & ->). clear Hmatch.
  unfold match_at.
  (* the same frame after any line start *)
  rewrite run_prog_line_start by (destruct Hprev as [-> | ->]; reflexivity).
  rewrite app_nil_r, run_body_ext by assumption.
  change (MState pos prev (body ++ CRLF) [])
    with (shift pos (MState 0 prev (body ++ CRLF) [])).
  rewrite run_shift.
  pose proof (@run_forget re_body eq_refl (MState 0 prev (body ++ CRLF) [])) as Hf.
  change (forget (MState 0 prev (body ++ CRLF) []))
    with (MState 0 None (body ++ CRLF) []) in Hf.
  rewrite E0 in Hf.
  destruct (run re_body (MState 0 prev (body ++ CRLF) [])) as [| stp lp] eqn:Ep;
    [discriminate |].
  assert (Hp : In stp (run re_body (MState 0 prev (body ++ CRLF) [])))
    by (rewrite Ep; now left).
  apply run_body_result in Hp as (Rp & Pp & Vp); [| assumption].
  simpl in Hf. inversion Hf as [[Hpos Hrest Hcaps]].
  simpl. unfold ext, shift. simpl.
  rewrite Rp, Pp, Vp, Hcaps. simpl.
  f_equal. f_equal. lia.
Qed.

(** [finditer] has all the steps it needs: more of them change nothing. *)
Lemma finditer_fuel_enough (r : regex) (fuel1 : nat) :
  forall (fuel2 pos : nat) (prev : option byte) (s : bytes),
    (length s < fuel1)%nat ->
    (length s < fuel2)%nat ->
    finditer_from fuel1 r pos prev s = finditer_from fuel2 r pos prev s.
Proof.
  induction fuel1 as [| fuel1 IH]; intros fuel2 pos prev s H1 H2; [lia |].
  destruct fuel2 as [| fuel2]; [lia |]. simpl.
  assert (Hstep : match s with
                  | c :: s' => finditer_from fuel1 r (S pos) (Some c) s'
                  | [] => []
                  end
                  = match s with
                    | c :: s' => finditer_from fuel2 r (S pos) (Some c) s'
                    | [] => []
                    end).
  { destruct s as [| c s']; [reflexivity |].
    simpl in H1, H2. apply IH; lia. }
  unfold match_at.
  destruct (run r (MState pos prev s [])) as [| st' l] eqn:E; simpl.
  - exact Hstep.
  - f_equal.
    destruct (Nat.ltb_spec pos (m_pos st')) as [Hlt | Hge]; [| exact Hstep].
    assert (Hin : In st' (run r (MState pos prev s []))) by (rewrite E; now left).
    apply run_reads in Hin as (c & (R & P & _) & _). simpl in R, P.
    assert (length s = length c + length (m_rest st'))%nat
      by (rewrite R; apply length_app).
    apply IH; lia.
Qed.

Lemma finditer_without_LF (fuel : nat) :
  forall (a : bytes) (pos : nat) (prev : option byte),
    ~ In LF a -> finditer_from fuel re_prog pos prev a = [].
Proof.
  induction fuel as [| fuel IH]; intros a pos prev Ha; simpl; [reflexivity |].
  unfold match_at. rewrite no_match_without_LF by assumption. simpl.
  destruct a as [| c a]; [reflexivity |].
  apply IH. intros H. apply Ha. now right.
Qed.

Lemma frame_length (f : bytes) : is_frame f -> (2 <= length f)%nat.
Proof.
  intros (body & -> & _). rewrite length_app. simpl. lia.
Qed.

(** [finditer] on frames laid end to end, followed by bytes without line
    feed: one match per frame, nothing else. *)
Lemma finditer_frames (fs : list bytes) (a : bytes) :
  Forall is_frame fs ->
  ~ In LF a ->
  forall (fuel pos : nat) (prev : option byte),
    prev = None \/ prev = Some LF ->
    (length (concat fs ++ a) < fuel)%nat ->
    finditer_from fuel re_prog pos prev (concat fs ++ a) = matches_at pos fs.
Proof.
  intros Hfs Ha. induction Hfs as [| f fs Hf _ IH]; intros fuel pos prev Hprev Hfuel.
  - now apply finditer_without_LF.
  - destruct fuel as [| fuel]; [lia |].
    simpl concat. rewrite <- app_assoc. simpl finditer_from.
    rewrite match_frame by assumption. simpl.
    pose proof (frame_length Hf) as Hlen.
    destruct (Nat.ltb_spec pos (pos + length f)) as [_ | H]; [| lia].
    f_equal. apply IH; [now right |].
    simpl concat in Hfuel. rewrite <- app_assoc, length_app in Hfuel. lia.
Qed.

Section FrameFacts.

Variable decode : bytes -> str.

Lemma frames_of_matches (fs : list bytes) (pos : nat) :
  map (frame_of_match decode) (matches_at pos fs) = map (frame_of decode) fs.
Proof.
  revert pos. induction fs as [| f fs IH]; intros pos; simpl; [reflexivity |].
  now rewrite IH.
Qed.

Lemma matches_at_last (fs : list bytes) :
  forall (pos : nat) (d : match_obj),
    fs <> [] ->
    mo_end (last (matches_at pos fs) d) = (pos + length (concat fs))%nat.
Proof.
  induction fs as [| f fs IH]; intros pos d Hne; [congruence |].
  destruct fs as [| g fs].
  - simpl. now rewrite app_nil_r.
  - change (matches_at pos (f :: g :: fs))
      with (Match pos (pos + length f) (frame_caps f)
            :: matches_at (pos + length f) (g :: fs)).
    change (last (?x :: matches_at (pos + length f) (g :: fs)) d)
      with (last (matches_at (pos + length f) (g :: fs)) d).
    rewrite IH by discriminate.
    change (concat (f :: g :: fs)) with (f ++ concat (g :: fs)).
    rewrite length_app. lia.
Qed.

Lemma slice_from_tail (A : Type) (x a : list A) :
  slice_from (x ++ a) (Z.of_nat (length x)) = a.
Proof.
  unfold slice_from. rewrite slice_index_pos by lia.
  rewrite Nat2Z.id, length_app, Nat.min_l by lia.
  rewrite skipn_app, skipn_all, Nat.sub_diag. reflexivity.
Qed.

(** The buffer is parsed with nothing pending: the frames come out and
    the bytes after the last one are kept. *)
Lemma parse_buffer_fresh (fs : list bytes) (a : bytes) (self : Twitch) (w : World) :
  Forall is_frame fs ->
  ~ In LF a ->
  partial self = PBytes [] ->
  parse_buffer decode (concat fs ++ a) self w
  = (Ok (map (frame_of decode) fs), set_partial (PBytes a) self, w).
Proof.
  intros Hfs Ha Hpartial.
  unfold parse_buffer, bind at 1, get at 1. rewrite Hpartial. simpl partial_truthy.
  cbv iota. unfold bind at 1, ret at 1.
  unfold finditer. rewrite (@finditer_frames fs a Hfs Ha) by (auto; lia).
  rewrite frames_of_matches.
  destruct fs as [| f fs].
  - simpl. unfold bind, get, modify, ret. rewrite Hpartial. reflexivity.
  - change (matches_at 0 (f :: fs))
      with (Match 0 (0 + length f) (frame_caps f) :: matches_at (0 + length f) fs)
      at 1.
    cbv iota.
    rewrite matches_at_last by discriminate. rewrite Nat.add_0_l.
    change (mo_start (Match 0 (0 + length f) (frame_caps f))) with 0%nat.
    change (negb (0 =? 0)%nat) with false. cbv iota.
    destruct (Nat.ltb_spec (length (concat (f :: fs)))
                           (length (concat (f :: fs) ++ a))) as [H | H].
    + rewrite slice_from_tail. reflexivity.
    + rewrite length_app in H.
      destruct a as [| x a]; [| simpl in H; lia].
      destruct self; simpl in *. now subst.
Qed.

(** The buffer completes pending bytes into whole frames: the frames come
    out and nothing is kept. *)
Lemma parse_buffer_pending (fs : list bytes) (p chunk : bytes)
      (self : Twitch) (w : World) :
  Forall is_frame fs ->
  fs <> [] ->
  p <> [] ->
  partial self = PBytes p ->
  p ++ chunk = concat fs ->
  parse_buffer decode chunk self w
  = (Ok (map (frame_of decode) fs), set_partial (PList []) self, w).
Proof.
  intros Hfs Hne Hp Hpartial Hbuf.
  unfold parse_buffer, bind at 1, get at 1. rewrite Hpartial.
  assert (Htruthy : partial_truthy (PBytes p) = true)
    by (destruct p; [congruence | reflexivity]).
  rewrite Htruthy.
  change (partial_add (PBytes p) chunk) with (Ok (p ++ chunk)). cbv iota.
  unfold bind at 1. unfold bind at 1, modify at 1, ret at 1.
  rewrite Hbuf, <- (app_nil_r (concat fs)).
  unfold finditer.
  rewrite (@finditer_frames fs [] Hfs (@in_nil _ LF)) by (auto; lia).
  rewrite frames_of_matches.
  destruct fs as [| f fs]; [congruence |].
  change (matches_at 0 (f :: fs))
    with (Match 0 (0 + length f) (frame_caps f) :: matches_at (0 + length f) fs)
    at 1.
  cbv iota.
  rewrite matches_at_last by discriminate. rewrite Nat.add_0_l.
  rewrite app_nil_r, Nat.ltb_irrefl.
  reflexivity.
Qed.

End FrameFacts.

(* ===================================================================== *)
(** * Frames split over two polls *)
(* ===================================================================== *)

Lemma polls_S (decode : bytes -> str) (n : nat) (self : Twitch) (w : World) :
  polls decode (S n) self w
  = match f_receiveAndParseData decode self w with
    | (Ok frames, self1, w1) =>
        match polls decode n self1 w1 with
        | (Ok more, self2, w2) => (Ok (frames ++ more), self2, w2)
        | (Raise e, self2, w2) => (Raise e, self2, w2)
        end
    | (Raise e, self1, w1) => (Raise e, self1, w1)
    end.
Proof.
  simpl. unfold bind.
  destruct (f_receiveAndParseData decode self w) as [[[frames | e] self1] w1];
    [| reflexivity].
  destruct (polls decode n self1 w1) as [[[more | e] self2] w2]; reflexivity.
Qed.

Lemma poll_one_chunk (decode : bytes -> str) (d : bytes)
      (rest : list recv_outcome) (self : Twitch) (w : World) :
  has_socket self = true ->
  d <> [] ->
  f_receiveAndParseData decode self (with_recv (RecvData d :: RecvTimeout :: rest) w)
  = parse_buffer decode d self (with_recv rest w).
Proof.
  intros Hsock Hd. unfold has_socket in Hsock.
  destruct (sock self) as [n |] eqn:Esock; [| discriminate].
  unfold f_receiveAndParseData, bind at 1, receive_all. rewrite Esock.
  destruct d as [| x d]; [congruence |]. reflexivity.
Qed.

(** The part of a frame before a cut inside it holds no line feed. *)
Lemma cut_frame_no_LF (a : bytes) :
  forall bs body,
    a ++ bs = body ++ CRLF ->
    bs <> [] ->
    line_ends body = false ->
    ~ In LF a.
Proof.
  induction a as [| x a IH]; intros bs body E Hbs Hbody; [now intros [] |].
  destruct body as [| y body]; simpl in E.
  - inversion E as [[Ex Ea]]. subst x.
    destruct a as [| z a]; simpl in Ea.
    + intros [H | []]. discriminate.
    + inversion Ea as [[Ez Ea']]. apply app_eq_nil in Ea' as [_ ->]. congruence.
  - inversion E as [[Ex Ea]]. subst y. simpl in Hbody.
    apply orb_false_elim in Hbody as [Hx Hbody].
    intros [H | H].
    + subst x. discriminate.
    + exact (IH bs body Ea Hbs Hbody H).
Qed.

(** Splitting from the state a connect leaves.  A stream of legal frames is cut
    inside one of them and handed over in two successive polls; the frames
    of the two polls, put end to end, are the frames of the one poll that
    is handed the whole stream.  The bytes before the cut wait in
    [partial] in between.  Nothing is printed. *)
Theorem split_poll_same_frames :
  forall (decode : bytes -> str) (fs1 : list bytes) (a bs : bytes)
         (fs2 : list bytes) (self : Twitch) (w : World),
    has_socket self = true ->
    partial self = PBytes [] ->
    Forall is_frame fs1 ->
    is_frame (a ++ bs) ->
    Forall is_frame fs2 ->
    a <> [] ->
    bs <> [] ->
    let whole := fs1 ++ (a ++ bs) :: fs2 in
    exists self1 self2 self',
      f_receiveAndParseData decode self
        (with_recv (feed [concat fs1 ++ a; bs ++ concat fs2]) w)
      = (Ok (map (frame_of decode) fs1), self1,
         with_recv (feed [bs ++ concat fs2]) w)
      /\ partial self1 = PBytes a
      /\ polls decode 2 self
           (with_recv (feed [concat fs1 ++ a; bs ++ concat fs2]) w)
         = (Ok (map (frame_of decode) whole), self2, with_recv [] w)
      /\ polls decode 1 self (with_recv (feed [concat whole]) w)
         = (Ok (map (frame_of decode) whole), self', with_recv [] w).
Proof.
  intros decode fs1 a bs fs2 self w Hsock Hpartial Hfs1 Hf Hfs2 Ha Hbs whole.
  assert (HaLF : ~ In LF a).
  { destruct Hf as (body & E & Hbody & _).
    exact (@cut_frame_no_LF a bs body E Hbs Hbody). }
  assert (Hchunk1 : concat fs1 ++ a <> []).
  { intros H. apply app_eq_nil in H as [_ H]. contradiction. }
  assert (Hchunk2 : bs ++ concat fs2 <> []).
  { intros H. apply app_eq_nil in H as [H _]. contradiction. }
  assert (Hwhole : Forall is_frame whole).
  { apply Forall_app. split; [assumption |]. now constructor. }
  assert (Hlater : Forall is_frame ((a ++ bs) :: fs2)) by now constructor.
  assert (Hcat : concat whole <> []).
  { unfold whole. rewrite concat_app. simpl. intros H.
    apply app_eq_nil in H as [_ H]. apply app_eq_nil in H as [H _].
    apply app_eq_nil in H as [H _]. contradiction. }
  (* the first of the two polls *)
  assert (P1 : f_receiveAndParseData decode self
                 (with_recv (feed [concat fs1 ++ a; bs ++ concat fs2]) w)
               = (Ok (map (frame_of decode) fs1), set_partial (PBytes a) self,
                  with_recv (feed [bs ++ concat fs2]) w)).
  { change (feed [concat fs1 ++ a; bs ++ concat fs2])
      with (RecvData (concat fs1 ++ a) :: RecvTimeout :: feed [bs ++ concat fs2]).
    rewrite poll_one_chunk by assumption.
    now apply parse_buffer_fresh. }
  (* the second *)
  assert (P2 : f_receiveAndParseData decode (set_partial (PBytes a) self)
                 (with_recv (feed [bs ++ concat fs2]) w)
               = (Ok (map (frame_of decode) ((a ++ bs) :: fs2)),
                  set_partial (PList []) (set_partial (PBytes a) self),
                  with_recv [] w)).
  { change (feed [bs ++ concat fs2])
      with [RecvData (bs ++ concat fs2); RecvTimeout].
    rewrite poll_one_chunk by assumption.
    apply parse_buffer_pending with (p := a); auto.
    - discriminate.
    - simpl. now rewrite app_assoc. }
  (* the one poll of the whole stream *)
  assert (P : f_receiveAndParseData decode self (with_recv (feed [concat whole]) w)
              = (Ok (map (frame_of decode) whole), set_partial (PBytes []) self,
                 with_recv [] w)).
  { change (feed [concat whole]) with [RecvData (concat whole); RecvTimeout].
    rewrite poll_one_chunk by assumption.
    rewrite <- (app_nil_r (concat whole)) at 1.
    apply parse_buffer_fresh; auto. }
  eexists _, _, _. split; [exact P1 |]. split; [reflexivity |]. split.
  - rewrite polls_S, P1, polls_S, P2. simpl polls. unfold ret.
    unfold whole. now rewrite app_nil_r, map_app.
  - rewrite polls_S, P. simpl polls. unfold ret. now rewrite app_nil_r.
Qed.

Lemma is_frame_intro (body : bytes) :
  line_ends body = false ->
  match_at re_prog 0 None (body ++ CRLF) <> None ->
  is_frame (body ++ CRLF).
Proof. intros H1 H2. exists body. auto. Qed.

Lemma split_poll_same_frames_witness :
  let ping := b "PING :tmi.twitch.tv" ++ CRLF in
  let head := b ":Viewer1!viewer1@viewer1.tmi.twitch.tv PRIVMSG" in
  let tail := b " #chan :!JUMP" ++ CRLF in
  let w := scripted [] 0 in
  let frames :=
    [mkFrame EmptyString "PING" [EmptyString] "tmi.twitch.tv";
     mkFrame "Viewer1" "PRIVMSG" ["#chan"%string] "!JUMP";
     mkFrame EmptyString "PING" [EmptyString] "tmi.twitch.tv"] in
  exists self2 self',
    polls decode_ascii 2 (session true)
          (with_recv (feed [concat [ping] ++ head; tail ++ concat [ping]]) w)
    = (Ok frames, self2, with_recv [] w)
    /\ polls decode_ascii 1 (session true)
             (with_recv (feed [concat ([ping] ++ (head ++ tail) :: [ping])]) w)
       = (Ok frames, self', with_recv [] w).
Proof.
  intros ping head tail w frames.
  assert (Hping : is_frame ping).
  { apply (@is_frame_intro (b "PING :tmi.twitch.tv")); [reflexivity |].
    vm_compute. discriminate. }
  destruct (@split_poll_same_frames decode_ascii [ping] head tail [ping]
              (session true) w)
    as (self1 & self2 & self' & _ & _ & H2 & H1).
  - reflexivity.
  - reflexivity.
  - constructor; [exact Hping | constructor].
  - apply (@is_frame_intro
             (b ":Viewer1!viewer1@viewer1.tmi.twitch.tv PRIVMSG #chan :!JUMP"));
      [reflexivity |].
    vm_compute. discriminate.
  - constructor; [exact Hping | constructor].
  - discriminate.
  - discriminate.
  - exists self2, self'. split.
    + refine (eq_trans H2 _). vm_compute. reflexivity.
    + refine (eq_trans H1 _). vm_compute. reflexivity.
Defined.

(** C1, on the second frame a connection receives in two pieces.  After a
    first cut frame has been put together, [partial] is the list [[]]
    (line 879), no longer a bytes object.  The next frame that arrives cut,
    with no whole frame before the cut, is stored with [+=] as a list of
    integers, and the poll that brings its end raises a [TypeError] on
    [self.partial + l_buffer].  The same bytes handed over in one poll give
    the frame. *)
Theorem second_cut_frame_raises :
  forall decode : bytes -> str,
    exists self2 w2 self3 w3 self' w',
      (* a first frame, cut after [PING :a], is put together *)
      polls decode 2 (session true)
            (scripted (feed [b "PING :a"; b "b" ++ CRLF]) 0)
      = (Ok [ping_frame decode "ab"], self2, w2)
      /\ partial self2 = PList []
      /\ w_log w2 = []
      (* a second frame, cut after [PING :c], in two polls *)
      /\ polls decode 2 self2
               (with_recv (feed [b "PING :c"; b "d" ++ CRLF]) w2)
         = (Raise (TypeError "can only concatenate list (not bytes) to list"),
            self3, w3)
      /\ partial self3 = PList [80; 73; 78; 71; 32; 58; 99]%Z
      (* the same frame in one poll *)
      /\ polls decode 1 self2 (with_recv (feed [ping_line "cd"]) w2)
         = (Ok [ping_frame decode "cd"], self', w').
Proof.
  intros decode. eexists _, _, _, _, _, _.
  split; [vm_compute; reflexivity |].
  split; [reflexivity |].
  split; [reflexivity |].
  split; [vm_compute; reflexivity |].
  split; [reflexivity |].
  vm_compute; reflexivity.
Qed.

(* ===================================================================== *)
(** * More on the receive path *)
(* ===================================================================== *)

Lemma concat_nonempty (A : Type) (chunks : list (list A)) :
  Forall (fun d => d <> []) chunks -> chunks <> [] -> concat chunks <> [].
Proof.
  intros Hall Hne. destruct Hall as [| d chunks Hd _]; [congruence |].
  simpl. intros H. apply app_eq_nil in H as [H _]. contradiction.
Qed.

(** The reads of one poll are put end to end before anything is parsed. *)
Lemma receive_joined (decode : bytes -> str) (chunks : list bytes)
      (rest : list recv_outcome) (self : Twitch) (w : World) :
  has_socket self = true ->
  Forall (fun d => d <> []) chunks ->
  chunks <> [] ->
  f_receiveAndParseData decode self
    (with_recv (map RecvData chunks ++ RecvTimeout :: rest) w)
  = parse_buffer decode (concat chunks) self (with_recv rest w).
Proof.
  intros Hsock Hall Hne. unfold has_socket in Hsock.
  destruct (sock self) as [n |] eqn:Esock; [| discriminate].
  unfold f_receiveAndParseData, bind at 1, receive_all. rewrite Esock.
  simpl w_recv. rewrite recv_loop_data by assumption. simpl recv_loop.
  pose proof (concat_nonempty Hall Hne) as Hcat.
  destruct (concat chunks) as [| x l] eqn:E; [congruence |]. reflexivity.
Qed.

(** X1.  A poll that gets its bytes in several reads parses them as one
    buffer.  From a [partial] that is the empty bytes object, when the
    reads put end to end are legal frames followed by bytes without line
    feed, the poll returns one frame per line, in the order of the stream,
    keeps the bytes after the last line in [partial], and prints
    nothing. *)
Theorem poll_joins_reads :
  forall (decode : bytes -> str) (chunks fs : list bytes) (a : bytes)
         (rest : list recv_outcome) (self : Twitch) (w : World),
    has_socket self = true ->
    partial self = PBytes [] ->
    Forall (fun d => d <> []) chunks ->
    chunks <> [] ->
    concat chunks = concat fs ++ a ->
    Forall is_frame fs ->
    ~ In LF a ->
    f_receiveAndParseData decode self
      (with_recv (map RecvData chunks ++ RecvTimeout :: rest) w)
    = (Ok (map (frame_of decode) fs), set_partial (PBytes a) self,
       with_recv rest w).
Proof.
  intros decode chunks fs a rest self w Hsock Hpartial Hall Hne Hcat Hfs Ha.
  rewrite receive_joined by assumption.
  rewrite Hcat. now apply parse_buffer_fresh.
Qed.

Lemma poll_joins_reads_witness :
  f_receiveAndParseData decode_ascii (session true)
    (scripted [RecvData (b "PING :tmi.tw"); RecvData (b "itch.tv" ++ CRLF ++ b "PI");
               RecvTimeout] 0)
  = (Ok [mkFrame EmptyString "PING" [EmptyString] "tmi.twitch.tv"],
     set_partial (PBytes (b "PI")) (session true), scripted [] 0).
Proof.
  refine (eq_trans
            (@poll_joins_reads decode_ascii
               [b "PING :tmi.tw"; b "itch.tv" ++ CRLF ++ b "PI"]
               [b "PING :tmi.twitch.tv" ++ CRLF] (b "PI") []
               (session true) (scripted [] 0) eq_refl eq_refl _ _ eq_refl _ _) _).
  - repeat constructor; discriminate.
  - discriminate.
  - constructor; [| constructor].
    apply (@is_frame_intro (b "PING :tmi.twitch.tv")); [reflexivity |].
    vm_compute. discriminate.
  - vm_compute. intuition discriminate.
  - vm_compute. reflexivity.
Defined.

(** X2.  Pending bytes that the next poll does not complete are lost as
    bytes.  When [partial] holds bytes and a poll brings more bytes without
    any line feed in the whole, the poll returns no frame and leaves in
    [partial] the list of the integers of all these bytes (lines 878-879
    and 901); the first poll after that which receives anything raises a
    [TypeError] at line 878 and changes nothing. *)
Theorem pending_without_frame_breaks :
  forall (decode : bytes -> str) (p chunk : bytes)
         (rest : list recv_outcome) (self : Twitch) (w : World),
    has_socket self = true ->
    partial self = PBytes p ->
    p <> [] ->
    chunk <> [] ->
    ~ In LF (p ++ chunk) ->
    exists self1,
      f_receiveAndParseData decode self
        (with_recv (RecvData chunk :: RecvTimeout :: rest) w)
      = (Ok [], self1, with_recv rest w)
      /\ partial self1 = PList (ints_of (p ++ chunk))
      /\ forall (d : bytes) (rest1 : list recv_outcome) (w1 : World),
          d <> [] ->
          f_receiveAndParseData decode self1
            (with_recv (RecvData d :: RecvTimeout :: rest1) w1)
          = (Raise (TypeError "can only concatenate list (not bytes) to list"),
             self1, with_recv rest1 w1).
Proof.
  intros decode p chunk rest self w Hsock Hpartial Hp Hchunk HLF.
  exists (set_partial (PList (ints_of (p ++ chunk))) self).
  assert (Htruthy : partial_truthy (PBytes p) = true)
    by (destruct p; [congruence | reflexivity]).
  split; [| split].
  - rewrite poll_one_chunk by assumption.
    unfold parse_buffer, bind at 1, get at 1. rewrite Hpartial, Htruthy.
    change (partial_add (PBytes p) chunk) with (Ok (p ++ chunk)). cbv iota.
    unfold bind at 1. unfold bind at 1, modify at 1, ret at 1.
    unfold finditer. rewrite finditer_without_LF by assumption.
    destruct self; reflexivity.
  - reflexivity.
  - intros d rest1 w1 Hd.
    rewrite poll_one_chunk by assumption.
    unfold parse_buffer, bind at 1, get at 1.
    destruct p as [| x p]; [congruence |]. reflexivity.
Qed.

Lemma pending_without_frame_breaks_witness :
  exists self1,
    f_receiveAndParseData decode_ascii (set_partial (PBytes (b "PI")) (session true))
      (scripted [RecvData (b "NG"); RecvTimeout] 0)
    = (Ok [], self1, scripted [] 0)
    /\ partial self1 = PList [80; 73; 78; 71]%Z
    /\ f_receiveAndParseData decode_ascii self1
         (scripted [RecvData (b " :x" ++ CRLF); RecvTimeout] 0)
       = (Raise (TypeError "can only concatenate list (not bytes) to list"),
          self1, scripted [] 0).
Proof.
  destruct (@pending_without_frame_breaks decode_ascii (b "PI") (b "NG") []
              (set_partial (PBytes (b "PI")) (session true)) (scripted [] 0))
    as (self1 & H1 & H2 & H3).
  - reflexivity.
  - reflexivity.
  - discriminate.
  - discriminate.
  - vm_compute. intuition discriminate.
  - exists self1. split; [exact H1 |]. split; [exact H2 |].
    apply (H3 (b " :x" ++ CRLF) [] (scripted [] 0)). discriminate.
Defined.

(* ===================================================================== *)
(** * More on the pattern *)
(* ===================================================================== *)

Lemma line_ends_Forall (c : bytes) :
  Forall (fun x => eol x = false) c -> line_ends c = false.
Proof.
  induction 1 as [| x c Hx _ IH]; simpl; [reflexivity |].
  now rewrite Hx, IH.
Qed.

(** Where the whole pattern matches, a line starts, and the match is that
    line up to and with its CR LF. *)
Lemma run_prog_shape (pos : nat) (prev : option byte) (rest : bytes)
      (caps : list (nat * bytes)) (st' : mstate) :
  In st' (run re_prog (MState pos prev rest caps)) ->
  at_line_start (MState pos prev rest caps) = true
  /\ exists body post,
      rest = body ++ CRLF ++ post
      /\ line_ends body = false
      /\ m_rest st' = post
      /\ m_pos st' = (pos + length body + 2)%nat
      /\ m_prev st' = Some LF.
Proof.
  intros Hin. unfold re_prog in Hin. rewrite run_seq in Hin.
  apply in_flat_map in Hin as (st0 & H0 & Hin).
  simpl in H0.
  destruct (at_line_start (MState pos prev rest caps)) eqn:Estart;
    [| contradiction].
  destruct H0 as [<- | []]. split; [reflexivity |].
  rewrite run_seq in Hin. apply in_flat_map in Hin as (st1 & H1 & Hin).
  rewrite run_seq in Hin. apply in_flat_map in Hin as (st2 & H2 & H3).
  apply run_reads in H1 as (c & (R1 & P1 & _) & Hc). simpl in R1, P1.
  apply run_lit_inv in H2 as (R2 & P2 & _).
  apply run_lit_inv in H3 as (R3 & P3 & V3 & _).
  exists c, (m_rest st'). split; [| split; [| split; [| split]]].
  - rewrite R1, R2, R3. reflexivity.
  - apply line_ends_Forall. now apply Hc.
  - reflexivity.
  - lia.
  - assumption.
Qed.

Lemma prev_after_snoc (p : option byte) (pre : bytes) (x : byte) :
  prev_after p (pre ++ [x]) = Some x.
Proof. unfold prev_after. now rewrite fold_left_app. Qed.

Lemma line_start_pre (pre : bytes) :
  at_line_start (MState (length pre) (prev_after None pre) [] []) = true ->
  pre = [] \/ exists pre', pre = pre' ++ [LF].
Proof.
  destruct pre as [| x0 pre0] eqn:E; [now left |].
  rewrite <- E.
  destruct (@exists_last _ pre) as (pre' & x & ->); [congruence |].
  rewrite prev_after_snoc. unfold at_line_start. simpl. intros H.
  apply Byte.byte_dec_bl in H. subst. right. now exists pre'.
Qed.

Lemma in_stream_order_from (lo lo' : nat) (ms : list match_obj) :
  (lo' <= lo)%nat -> in_stream_order lo ms -> in_stream_order lo' ms.
Proof.
  destruct ms as [| m ms]; simpl; [auto |].
  intros H (H1 & H2 & H3). repeat split; [lia | assumption | assumption].
Qed.

Lemma finditer_lines (fuel : nat) :
  forall pre rest : bytes,
    Forall (covers_line (pre ++ rest))
           (finditer_from fuel re_prog (length pre) (prev_after None pre) rest)
    /\ in_stream_order (length pre)
         (finditer_from fuel re_prog (length pre) (prev_after None pre) rest).
Proof.
  induction fuel as [| fuel IH]; intros pre rest; simpl; [split; constructor |].
  assert (Hstep : forall c rest',
             rest = c :: rest' ->
             Forall (covers_line (pre ++ rest))
                    (finditer_from fuel re_prog (S (length pre)) (Some c) rest')
             /\ in_stream_order (length pre)
                  (finditer_from fuel re_prog (S (length pre)) (Some c) rest')).
  { intros c rest' ->. destruct (IH (pre ++ [c]) rest') as [Ha Hb].
    rewrite <- app_assoc, length_app, prev_after_snoc, Nat.add_1_r in *.
    simpl in *. split; [exact Ha |].
    eapply in_stream_order_from; [| exact Hb]. lia. }
  unfold match_at.
  destruct (run re_prog (MState (length pre) (prev_after None pre) rest []))
    as [| st' l] eqn:E; simpl.
  - destruct rest as [| c rest']; [split; constructor |]. now apply Hstep.
  - assert (Hin : In st' (run re_prog
                            (MState (length pre) (prev_after None pre) rest [])))
      by (rewrite E; now left).
    apply run_prog_shape in Hin
      as (Hstart & body & post & -> & Hbody & Rst & Pst & Vst).
    destruct (Nat.ltb_spec (length pre) (m_pos st')) as [_ | Hge]; [| lia].
    destruct (IH (pre ++ body ++ CRLF) post) as [Ha Hb].
    assert (Epos : length (pre ++ body ++ CRLF) = m_pos st').
    { rewrite !length_app. simpl. lia. }
    assert (Eprev : prev_after None (pre ++ body ++ CRLF) = m_prev st').
    { rewrite Vst. change CRLF with ([CR] ++ [LF]).
      rewrite !app_assoc. apply prev_after_snoc. }
    rewrite Epos, Eprev in Ha, Hb.
    replace ((pre ++ body ++ CRLF) ++ post) with (pre ++ body ++ CRLF ++ post) in Ha
      by (now rewrite <- !app_assoc).
    rewrite Rst.
    split.
    + constructor; [| exact Ha].
      exists pre, body, post. simpl. repeat split; try assumption.
      apply line_start_pre. exact Hstart.
    + simpl. repeat split; [lia | lia | exact Hb].
Qed.

(** X3.  Whatever the buffer holds, every match the parser takes from it
    is one line of the buffer: it starts at the very start or right after a
    line feed, holds no CR and no LF before its closing CR LF, and ends
    with it.  The matches come in the order of the stream, none is empty
    and no two overlap. *)
Theorem matches_are_lines :
  forall s : bytes,
    Forall (covers_line s) (finditer re_prog s)
    /\ in_stream_order 0 (finditer re_prog s).
Proof.
  intros s. exact (finditer_lines (S (length s)) [] s).
Qed.

Lemma Forall_line_ends (c : bytes) :
  line_ends c = false -> Forall (fun x => eol x = false) c.
Proof.
  induction c as [| x c IH]; simpl; intros H; constructor.
  - now apply orb_false_elim in H as [H _].
  - apply IH. now apply orb_false_elim in H as [_ H].
Qed.

(** What a pattern adds to the groups: entries for its own groups only,
    and, when it stays in its line, values without line end. *)
Lemma run_captures (r : regex) :
  forall st st',
    In st' (run r st) ->
    exists new,
      m_caps st' = new ++ m_caps st
      /\ Forall (fun kv => In (fst kv) (groups_of r)) new
      /\ (stays_in_line r = true ->
          Forall (fun kv => line_ends (snd kv) = false) new).
Proof.
  induction r as [| c | excl | excl | r1 IH1 r2 IH2 | r1 IH1 r2 IH2 | r IH | n r IH];
    intros st st' Hin.
  - simpl in Hin. destruct (at_line_start st); [| contradiction].
    destruct Hin as [<- | []]. exists []. auto.
  - apply run_lit_inv in Hin as (_ & _ & _ & E). exists []. auto.
  - destruct st as [pos prev rest caps]. simpl in Hin.
    apply run_star_reads in Hin as (c & _ & _ & E). exists []. auto.
  - destruct st as [pos prev rest caps]. simpl in Hin.
    destruct rest as [| x s]; [contradiction |].
    destruct (mem x excl); [contradiction |].
    apply run_star_reads in Hin as (c & _ & _ & E). exists []. auto.
  - rewrite run_seq in Hin. apply in_flat_map in Hin as (st1 & H1 & H2).
    apply IH1 in H1 as (new1 & E1 & K1 & L1).
    apply IH2 in H2 as (new2 & E2 & K2 & L2).
    exists (new2 ++ new1). split; [| split].
    + now rewrite E2, E1, app_assoc.
    + simpl. apply Forall_app. split.
      * eapply Forall_impl; [| exact K2]. intros kv H. apply in_or_app. now right.
      * eapply Forall_impl; [| exact K1]. intros kv H. apply in_or_app. now left.
    + simpl. intros H. apply andb_prop in H as [Ha Hb].
      apply Forall_app. auto.
  - simpl in Hin. apply in_app_or in Hin as [Hin | Hin].
    + apply IH1 in Hin as (new & E & K & L). exists new. split; [| split].
      * assumption.
      * simpl. eapply Forall_impl; [| exact K]. intros kv H. apply in_or_app. now left.
      * simpl. intros H. apply andb_prop in H as [Ha Hb]. auto.
    + apply IH2 in Hin as (new & E & K & L). exists new. split; [| split].
      * assumption.
      * simpl. eapply Forall_impl; [| exact K]. intros kv H. apply in_or_app. now right.
      * simpl. intros H. apply andb_prop in H as [Ha Hb]. auto.
  - simpl in Hin. apply in_app_or in Hin as [Hin | [<- | []]].
    + apply IH in Hin as (new & E & K & L). exists new. auto.
    + exists []. auto.
  - simpl in Hin. apply in_map_iff in Hin as (st1 & <- & Hin).
    pose proof (run_reads r st st1 Hin) as (c & (R & P & _) & Hc).
    apply IH in Hin as (new & E & K & L).
    exists ((n, c) :: new). split; [| split].
    + unfold capture. simpl. rewrite E, P, R.
      replace (m_pos st + length c - m_pos st)%nat with (length c) by lia.
      now rewrite firstn_exact.
    + simpl. constructor; [now left |].
      eapply Forall_impl; [| exact K]. intros kv H. now right.
    + simpl. intros H. constructor; [| auto].
      simpl. apply line_ends_Forall. auto.
Qed.

Lemma group_skip (n : nat) (new caps : list (nat * bytes)) :
  Forall (fun kv => fst kv <> n) new -> group n (new ++ caps) = group n caps.
Proof.
  induction 1 as [| [k v] new Hk _ IH]; simpl; [reflexivity |].
  simpl in Hk. destruct (Nat.eqb_spec k n); [contradiction | assumption].
Qed.

Lemma group_value (P : bytes -> Prop) (n : nat) (caps : list (nat * bytes)) (v : bytes) :
  Forall (fun kv => P (snd kv)) caps -> group n caps = Some v -> P v.
Proof.
  induction 1 as [| [k u] caps Hu _ IH]; simpl; [discriminate |].
  destruct (Nat.eqb k n); [| assumption].
  intros E. inversion E. now subst.
Qed.

Lemma run_group (n : nat) (r : regex) (st : mstate) :
  run (Group n r) st = map (capture n st) (run r st).
Proof. reflexivity. Qed.

Lemma run_plus_inv (excl : list byte) (st st' : mstate) :
  In st' (run (Plus excl) st) ->
  exists x c,
    m_rest st = x :: c ++ m_rest st'
    /\ mem x excl = false
    /\ Forall (fun y => mem y excl = false) c
    /\ m_pos st' = (S (m_pos st) + length c)%nat
    /\ m_caps st' = m_caps st.
Proof.
  destruct st as [pos prev rest caps]. simpl.
  destruct rest as [| x s]; [contradiction |].
  destruct (mem x excl) eqn:Ex; [contradiction |].
  intros Hin. apply run_star_reads in Hin as (c & (R & P & _) & Hc & E).
  simpl in R, P. exists x, c. rewrite R. auto.
Qed.

(** The command group of the pattern: never absent, never empty, never
    with a blank or a line end. *)
Lemma run_prog_command (pos : nat) (prev : option byte) (rest : bytes) (st' : mstate) :
  In st' (run re_prog (MState pos prev rest [])) ->
  (exists v,
      group 2 (m_caps st') = Some v
      /\ v <> []
      /\ Forall (fun x => mem x [SP; CR; LF] = false) v)
  /\ Forall (fun kv => line_ends (snd kv) = false) (m_caps st').
Proof.
  intros Hin. unfold re_prog in Hin. rewrite run_seq in Hin.
  apply in_flat_map in Hin as (st0 & H0 & Hin).
  simpl in H0. destruct (at_line_start _); [| contradiction].
  destruct H0 as [<- | []].
  rewrite run_seq in Hin. apply in_flat_map in Hin as (st4 & Hf & Hin).
  rewrite run_seq in Hin. apply in_flat_map in Hin as (st5 & H5 & H6).
  apply run_lit_inv in H5 as (_ & _ & _ & E5).
  apply run_lit_inv in H6 as (_ & _ & _ & E6).
  rewrite E6, E5. split.
  - unfold re_fields in Hf. rewrite run_seq in Hf.
    apply in_flat_map in Hf as (st1 & H1 & Hf).
    rewrite run_seq in Hf. apply in_flat_map in Hf as (st2 & H2 & Hf).
    (* the command group *)
    rewrite run_group in H2. apply in_map_iff in H2 as (st2' & <- & H2).
    apply run_plus_inv in H2 as (x & c & R & Ex & Hc & P & Ecaps).
    (* the optional groups after it *)
    apply run_captures in Hf as (new & E & K & _).
    exists (x :: c). split; [| split].
    + rewrite E. rewrite group_skip.
      * unfold capture. cbn [m_caps group]. rewrite Nat.eqb_refl, P, R.
        replace (S (m_pos st1) + length c - m_pos st1)%nat with (length (x :: c))
          by (cbn [length]; lia).
        change (x :: c ++ m_rest st2') with ((x :: c) ++ m_rest st2').
        now rewrite (firstn_exact (x :: c)).
      * eapply Forall_impl; [| exact K]. simpl.
        intros kv [H | [H | []]]; lia.
    + discriminate.
    + now constructor.
  - apply run_captures in Hf as (new & E & _ & L).
    rewrite E. simpl. rewrite app_nil_r. now apply L.
Qed.

Lemma finditer_from_run (r : regex) (fuel : nat) :
  forall (pos : nat) (prev : option byte) (s : bytes) (m : match_obj),
    In m (finditer_from fuel r pos prev s) ->
    exists pos' prev' s' st',
      In st' (run r (MState pos' prev' s' [])) /\ mo_caps m = m_caps st'.
Proof.
  induction fuel as [| fuel IH]; intros pos prev s m Hin; simpl in Hin;
    [contradiction |].
  assert (Hstep : In m match s with
                       | c :: s' => finditer_from fuel r (S pos) (Some c) s'
                       | [] => []
                       end ->
                  exists pos' prev' s' st',
                    In st' (run r (MState pos' prev' s' []))
                    /\ mo_caps m = m_caps st').
  { destruct s as [| c s']; [contradiction |]. apply IH. }
  unfold match_at in Hin.
  destruct (run r (MState pos prev s [])) as [| st' l] eqn:E; simpl in Hin.
  - now apply Hstep.
  - destruct Hin as [<- | Hin].
    + exists pos, prev, s, st'. split; [rewrite E; now left | reflexivity].
    + destruct (pos <? m_pos st')%nat; [eapply IH; eassumption | now apply Hstep].
Qed.

(** X4.  Every frame the parser builds has a command: the second group of
    the pattern takes part in every match, with at least one byte and
    neither blank nor line end in it, and it is what [command] is decoded
    from.  No group of a match holds a CR or an LF. *)
Theorem frames_have_a_command :
  forall (decode : bytes -> str) (s : bytes) (m : match_obj),
    In m (finditer re_prog s) ->
    (exists v,
        group 2 (mo_caps m) = Some v
        /\ v <> []
        /\ Forall (fun x => mem x [SP; CR; LF] = false) v
        /\ command (frame_of_match decode m) = decode v)
    /\ (forall n v, group n (mo_caps m) = Some v -> line_ends v = false).
Proof.
  intros decode s m Hin.
  apply finditer_from_run in Hin as (pos & prev & s' & st' & Hrun & E).
  apply run_prog_command in Hrun as ((v & G & Hne & Hv) & Hall).
  rewrite <- E in *. split.
  - exists v. repeat split; try assumption.
    unfold frame_of_match. simpl. now rewrite G.
  - intros n u Hu.
    exact (group_value (fun x => line_ends x = false) n Hall Hu).
Qed.

Lemma frames_have_a_command_witness :
  let s := b ":nick!user@host PRIVMSG #chan :hi" ++ CRLF in
  exists m,
    finditer re_prog s = [m]
    /\ group 2 (mo_caps m) = Some (b "PRIVMSG")
    /\ command (frame_of_match decode_ascii m) = "PRIVMSG"%string.
Proof.
  intros s.
  assert (E : exists m, finditer re_prog s = [m])
    by (eexists; vm_compute; reflexivity).
  destruct E as (m & E). exists m. split; [exact E |].
  destruct (@frames_have_a_command decode_ascii s m) as ((v & G & _ & _ & C) & _).
  - rewrite E. now left.
  - assert (G' : group 2 (mo_caps m) = Some (b "PRIVMSG")).
    { vm_compute in E. inversion E. reflexivity. }
    split; [exact G' |]. rewrite C.
    rewrite G in G'. inversion G'. reflexivity.
Defined.

(* ===================================================================== *)
(** * More on the classifier and on the receive pass *)
(* ===================================================================== *)

Lemma sent_app (es1 es2 : list event) : sent (es1 ++ es2) = sent es1 ++ sent es2.
Proof.
  induction es1 as [| e es1 IH]; simpl; [reflexivity |].
  destruct e; simpl; now rewrite IH.
Qed.


Ltac by_command k :=
  let E := fresh "E" in
  destruct (String.eqb (command _) k) eqn:E;
  [apply String.eqb_eq in E |].

Ltac classified :=
  eexists _, _; split; [cbn [map]; rewrite ?app_nil_r; reflexivity |];
  unfold same_but_login, same_but_log; cbn;
  rewrite ?app_nil_r, ?sent_app, ?orb_false_r, ?orb_true_r; cbn;
  rewrite ?app_nil_r; auto 10.

(** One call of [self.sock.send]. *)
Lemma sock_send_run (data : bytes) (self : Twitch) (w : World) :
  match send_outcome self 1 (w_sock w) with
  | None =>
      sock_send data self w
      = (Ok tt, self, log (SockSend data) (with_sock (skipn 1 (w_sock w)) w))
  | Some e => exists w', sock_send data self w = (Raise e, self, w')
  end.
Proof.
  unfold send_outcome, has_socket, sock_send, sock_method, bind, get, sock_call.
  destruct (sock self) as [n |].
  - destruct (w_sock w) as [| [e |] rest] eqn:Es; cbn [first_failure skipn].
    + destruct w; cbn in *; subst; reflexivity.
    + eexists. reflexivity.
    + reflexivity.
  - eexists. reflexivity.
Qed.

(** The body of the loop for one frame. *)
Lemma classify_step (l : list ChatEvent) (f : Frame) (self : Twitch) (w : World) :
  params f <> [] ->
  match send_outcome self (sends [f]) (w_sock w) with
  | None =>
      exists self' w',
        classify l f self w = (Ok (l ++ chat_events [f]), self', w')
        /\ login_ok self' = login_ok self || has_command "001" f
        /\ same_but_login self self'
        /\ same_but_log w w'
        /\ w_sock w' = skipn (sends [f]) (w_sock w)
        /\ sent (w_log w') = sent (w_log w) ++ reply_to (channel self) f
  | Some e =>
      exists self' w',
        classify l f self w = (Raise e, self', w')
        /\ same_but_login self self'
  end.
Proof.
  intros Hparams.
  unfold classify, chat_events, reply_to, sends, calls_for_reply, has_command.
  cbn [filter map].
  by_command "PRIVMSG"%string.
  { rewrite ?E. cbn. classified. }
  by_command "PING"%string.
  { rewrite ?E0. cbn [orb length].
    pose proof (sock_send_run (b "PONG :tmi.twitch.tv" ++ CRLF) self w) as H.
    destruct (send_outcome self 1 (w_sock w)) as [e |].
    - destruct H as (w' & H). unfold bind. rewrite H.
      eexists _, _. split; [reflexivity |].
      unfold same_but_login. auto.
    - unfold bind. rewrite H. unfold ret. classified. }
  by_command "001"%string.
  { rewrite ?E1. cbn [orb length].
    pose proof (sock_send_run (b "JOIN #" ++ encode (channel self) ++ CRLF) self
                  (log (Print (PLoggedIn (channel self))) w)) as H.
    change (w_sock (log (Print (PLoggedIn (channel self))) w)) with (w_sock w) in H.
    destruct (send_outcome self 1 (w_sock w)) as [e |].
    - destruct H as (w' & H). unfold bind, get, emit. rewrite H.
      eexists _, _. split; [reflexivity |].
      unfold same_but_login. auto.
    - unfold bind, get, emit. rewrite H. unfold modify, ret. classified. }
  cbn [orb length send_outcome].
  by_command "JOIN"%string.
  { destruct (params f) as [| p0 ps]; [congruence |].
    unfold bind, emit, ret. classified. }
  by_command "NOTICE"%string.
  { unfold bind, emit, ret. classified. }
  by_command "002"%string. { classified. }
  by_command "003"%string. { classified. }
  by_command "004"%string. { classified. }
  by_command "375"%string. { classified. }
  by_command "372"%string. { classified. }
  by_command "376"%string. { classified. }
  by_command "353"%string. { classified. }
  by_command "366"%string. { classified. }
  unfold bind, emit, ret. classified.
Qed.

Lemma first_failure_add (a k : nat) (l : list (option exn)) :
  first_failure (a + k) l
  = match first_failure a l with
    | Some e => Some e
    | None => first_failure k (skipn a l)
    end.
Proof.
  revert l. induction a as [| a IH]; intros l; [reflexivity |].
  destruct l as [| [e |] l]; cbn [Nat.add first_failure skipn].
  - now destruct k.
  - reflexivity.
  - apply IH.
Qed.

Lemma first_failure_In (k : nat) (l : list (option exn)) (e : exn) :
  first_failure k l = Some e -> In (Some e) l.
Proof.
  revert l. induction k as [| k IH]; intros l; [discriminate |].
  destruct l as [| [x |] l]; cbn [first_failure]; intros H.
  - discriminate.
  - inversion H; subst. now left.
  - right. now apply IH.
Qed.

Lemma send_outcome_add (self self' : Twitch) (a k : nat) (l : list (option exn)) :
  sock self' = sock self ->
  send_outcome self (a + k) l
  = match send_outcome self a l with
    | Some e => Some e
    | None => send_outcome self' k (skipn a l)
    end.
Proof.
  intros Hs. unfold send_outcome, has_socket. rewrite Hs.
  destruct a as [| a]; [reflexivity |].
  cbn [Nat.add]. destruct (sock self); [| reflexivity].
  change (S (a + k)) with (S a + k)%nat. rewrite first_failure_add.
  destruct (first_failure (S a) l); [reflexivity |].
  now destruct k.
Qed.

Lemma sends_cons (f : Frame) (frames : list Frame) :
  sends (f :: frames) = (sends [f] + sends frames)%nat.
Proof. unfold sends. cbn [filter]. now destruct (calls_for_reply f). Qed.

Lemma classify_all_run :
  forall (frames : list Frame) (l : list ChatEvent) (self : Twitch) (w : World),
    Forall (fun f => params f <> []) frames ->
    match send_outcome self (sends frames) (w_sock w) with
    | None =>
        exists self' w',
          classify_all l frames self w = (Ok (l ++ chat_events frames), self', w')
          /\ login_ok self' = login_ok self || existsb (has_command "001") frames
          /\ same_but_login self self'
          /\ same_but_log w w'
          /\ w_sock w' = skipn (sends frames) (w_sock w)
          /\ sent (w_log w')
             = sent (w_log w) ++ flat_map (reply_to (channel self)) frames
    | Some e =>
        exists self' w',
          classify_all l frames self w = (Raise e, self', w')
          /\ same_but_login self self'
    end.
Proof.
  induction frames as [| f frames IH]; intros l self w Hall.
  - exists self, w. cbn. rewrite !app_nil_r, orb_false_r.
    unfold same_but_login, same_but_log. auto 10.
  - inversion Hall as [| ? ? Hf Hrest]; subst.
    pose proof (@classify_step l f self w Hf) as Hstep.
    rewrite sends_cons.
    destruct (send_outcome self (sends [f]) (w_sock w)) as [e |] eqn:E1.
    { destruct Hstep as (self1 & w1 & Hstep & Hsame).
      rewrite (@send_outcome_add self self (sends [f]) (sends frames) _ eq_refl), E1.
      exists self1, w1. cbn [classify_all]. unfold bind. now rewrite Hstep. }
    destruct Hstep as (self1 & w1 & Hstep & Hlogin1 & Hsame1 & Hw1 & Hs1 & Hsent1).
    destruct Hsame1 as (S1 & P1 & C1 & T1).
    rewrite (@send_outcome_add self self1 (sends [f]) (sends frames) _ S1), E1.
    pose proof (IH (l ++ chat_events [f]) self1 w1 Hrest) as Hall2.
    rewrite Hs1 in Hall2.
    destruct (send_outcome self1 (sends frames) (skipn (sends [f]) (w_sock w)))
      as [e |].
    { destruct Hall2 as (self2 & w2 & Hall2 & (S2 & P2 & C2 & T2)).
      exists self2, w2. cbn [classify_all]. unfold bind. rewrite Hstep, Hall2.
      split; [reflexivity |]. unfold same_but_login. repeat split; congruence. }
    destruct Hall2 as (self2 & w2 & Hall2 & Hlogin2 & Hsame2 & Hw2 & Hs2 & Hsent2).
    exists self2, w2.
    cbn [classify_all]. unfold bind. rewrite Hstep, Hall2.
    destruct Hsame2 as (S2 & P2 & C2 & T2).
    destruct Hw1 as (R1 & K1 & D1 & I1 & J1).
    destruct Hw2 as (R2 & K2 & D2 & I2 & J2).
    split; [| split; [| split; [| split; [| split]]]].
    + f_equal. f_equal. rewrite <- app_assoc. f_equal.
      unfold chat_events. cbn [filter].
      destruct (has_command "PRIVMSG" f); reflexivity.
    + rewrite Hlogin2, Hlogin1. cbn [existsb]. now rewrite orb_assoc.
    + unfold same_but_login. repeat split; congruence.
    + unfold same_but_log. repeat split; congruence.
    + rewrite Hs2, skipn_skipn. f_equal. apply Nat.add_comm.
    + rewrite Hsent2, Hsent1, C1. cbn [flat_map]. now rewrite app_assoc.
Qed.

(** X5.  What the classifier does with the frames of a poll, when every
    frame has at least one parameter.  It makes one [send] for each [PING]
    and each [001].  When there is none to make, or when there is a socket
    and those calls go through, it returns the chat events of the
    [PRIVMSG] frames, in the order of the frames and after the ones it was
    given; it has sent one [PONG] for each [PING] and one [JOIN] of the
    channel for each [001], in that order, and nothing else; the login flag
    is set exactly when a [001] was among the frames, and nothing else of
    the object, the receive script, the clock or the random source is
    touched.  Otherwise it raises: the error of the first [send] that
    fails, or the [AttributeError] of a socket that is [None]; the socket,
    [partial], the channel and the login time are as they were. *)
Theorem classify_all_collects :
  forall (frames : list Frame) (l : list ChatEvent) (self : Twitch) (w : World),
    Forall (fun f => params f <> []) frames ->
    match send_outcome self (sends frames) (w_sock w) with
    | None =>
        exists self' w',
          classify_all l frames self w = (Ok (l ++ chat_events frames), self', w')
          /\ login_ok self' = login_ok self || existsb (has_command "001") frames
          /\ same_but_login self self'
          /\ same_but_log w w'
          /\ w_sock w' = skipn (sends frames) (w_sock w)
          /\ sent (w_log w')
             = sent (w_log w) ++ flat_map (reply_to (channel self)) frames
    | Some e =>
        exists self' w',
          classify_all l frames self w = (Raise e, self', w')
          /\ same_but_login self self'
    end.
Proof. exact classify_all_run. Qed.

(** A keep-alive, a chat message and the login confirmation in one poll:
    on a connection that works, and on one where the second [send]
    fails. *)
Lemma classify_all_collects_witness :
  let frames := [ping_frame decode_ascii "tmi.twitch.tv"; jump_frame;
                 mkFrame "tmi.twitch.tv" "001" ["justinfan1"%string] "Welcome, GLHF!"] in
  Forall (fun f => params f <> []) frames
  /\ (exists self' w',
         classify_all [] frames (session false) (still_world 0)
         = (Ok [mkChatEvent "Viewer1" "!JUMP"], self', w')
         /\ login_ok self' = true
         /\ sent (w_log w')
            = [b "PONG :tmi.twitch.tv" ++ CRLF; b "JOIN #chan" ++ CRLF])
  /\ (exists self' w',
         classify_all [] frames (session false)
                      (with_sock [None; Some unreachable] (still_world 0))
         = (Raise unreachable, self', w')
         /\ login_ok self' = false).
Proof.
  intros frames.
  assert (Hall : Forall (fun f => params f <> []) frames)
    by (repeat constructor; discriminate).
  split; [exact Hall |]. split.
  - destruct (@classify_all_collects frames [] (session false) (still_world 0) Hall)
      as (self' & w' & Hrun & Hlogin & _ & _ & _ & Hsent).
    exists self', w'. split; [exact Hrun |]. split; [exact Hlogin | exact Hsent].
  - destruct (@classify_all_collects frames [] (session false)
                (with_sock [None; Some unreachable] (still_world 0)) Hall)
      as (self' & w' & Hrun & _).
    exists self', w'. split; [exact Hrun |].
    vm_compute in Hrun. now inversion Hrun.
Defined.

Lemma split_on_nonempty (sep : byte) (s : bytes) : split_on sep s <> [].
Proof.
  induction s as [| c s IH]; simpl; [discriminate |].
  destruct (Byte.eqb c sep); [discriminate |].
  destruct (split_on sep s); discriminate.
Qed.

(** The frames the parser builds always have a first parameter. *)
Lemma parsed_have_params (decode : bytes -> str) (ms : list match_obj) :
  Forall (fun f => params f <> []) (map (frame_of_match decode) ms).
Proof.
  apply Forall_forall. intros f Hin. apply in_map_iff in Hin as (m & <- & _).
  unfold frame_of_match. cbn [params].
  intros H. apply map_eq_nil in H. now apply split_on_nonempty in H.
Qed.

Lemma parse_buffer_returns (decode : bytes -> str) (l_buffer : bytes)
      (self : Twitch) (w : World) :
  joinable (partial self) = true ->
  exists ms self' w',
    parse_buffer decode l_buffer self w
    = (Ok (map (frame_of_match decode) ms), self', w')
    /\ sock self' = sock self
    /\ w_sock w' = w_sock w.
Proof.
  intros Hj. unfold parse_buffer, bind at 1, get at 1.
  destruct (partial self) as [[| x p] | [| z l]] eqn:Ep; try discriminate;
    cbn [partial_truthy partial_add];
    unfold bind, get, ret, emit, modify; cbn beta iota;
    match goal with
    | |- context [finditer re_prog ?buf] =>
        exists (finditer re_prog buf); destruct (finditer re_prog buf) as [| m ms]
    end;
    cbn beta iota;
    repeat match goal with
           | |- context [if ?c then _ else _] => destruct c
           end;
    eexists _, _; (split; [reflexivity |]); split; reflexivity.
Qed.

Lemma In_skipn_script (k : nat) (l : list (option exn)) (x : option exn) :
  In x (skipn k l) -> In x l.
Proof.
  revert l. induction k as [| k IH]; intros l; [trivial |].
  destruct l as [| y l]; cbn [skipn]; [trivial |].
  intros H. right. now apply IH.
Qed.

(** A poll returns frames that have a first parameter, from a socket when
    there are any; what it raises is what a socket call of its reconnect
    raised. *)
Lemma receive_returns (decode : bytes -> str) (self : Twitch) (w : World) :
  joinable (partial self) = true ->
  exists r self' w',
    f_receiveAndParseData decode self w = (r, self', w')
    /\ match r with
       | Ok frames =>
           Forall (fun f => params f <> []) frames
           /\ (exists k, w_sock w' = skipn k (w_sock w))
           /\ (frames = [] \/ has_socket self' = true)
       | Raise e => In (Some e) (w_sock w)
       end.
Proof.
  intros Hj. unfold f_receiveAndParseData, bind at 1.
  destruct (receive_all self w) as [[r self1] w1] eqn:Er.
  assert (Hself : self1 = self /\ w_sock w1 = w_sock w
                  /\ exists x, r = Ok x
                       /\ (has_socket self = true \/ exists e, x = Failed e)).
  { unfold receive_all, has_socket in *. destruct (sock self).
    - destruct (recv_loop (w_recv w) []). inversion Er; subst. eauto 10.
    - inversion Er; subst. eauto 10. }
  destruct Hself as (-> & Hw1 & x & -> & Hx).
  assert (Hre : forall (line : console_line) (delay : Q),
             exists r self' w',
               bind (emit (Print line))
                    (fun _ => bind (f_reconnect delay) (fun _ => ret []))
                    self w1
               = (r, self', w')
               /\ match r with
                  | Ok frames =>
                      Forall (fun f : Frame => params f <> []) frames
                      /\ (exists k, w_sock w' = skipn k (w_sock w))
                      /\ (frames = [] \/ has_socket self' = true)
                  | Raise e => In (Some e) (w_sock w)
                  end).
  { intros line delay. unfold bind at 1, emit at 1. unfold bind at 1.
    pose proof (f_reconnect_run delay self (log (Print line) w1)) as H.
    change (w_sock (log (Print line) w1)) with (w_sock w1) in H.
    rewrite Hw1 in H.
    destruct (first_failure (connect_calls self) (w_sock w)) as [e |] eqn:Ef.
    - destruct H as (self' & w' & es & -> & _).
      eexists _, _, _. split; [reflexivity |].
      eapply first_failure_In, Ef.
    - rewrite H. eexists _, _, _. split; [reflexivity |].
      split; [constructor |]. split; [| now left].
      exists (connect_calls self). unfold after_connect. cbn [w_sock log].
      now rewrite Hw1. }
  destruct x as [l_buffer | e |].
  - destruct l_buffer as [| c l_buffer].
    + exists (Ok []), self, w1. split; [reflexivity |].
      split; [constructor |]. split; [| now left].
      exists 0%nat. exact Hw1.
    + destruct (@parse_buffer_returns decode (c :: l_buffer) self w1 Hj)
        as (ms & self' & w' & E & Hs & Hw).
      exists (Ok (map (frame_of_match decode) ms)), self', w'.
      split; [exact E |]. split; [apply parsed_have_params |].
      split; [exists 0%nat; cbn [skipn]; congruence |].
      right. destruct Hx as [Hx | (e & Hx)]; [| discriminate].
      unfold has_socket in *. now rewrite Hs.
  - apply Hre.
  - apply Hre.
Qed.

Lemma login_watchdog_returns (l : list ChatEvent) (self : Twitch) (w : World) :
  exists r self' w',
    login_watchdog l self w = (r, self', w')
    /\ forall e, r = Raise e -> In (Some e) (w_sock w).
Proof.
  unfold login_watchdog, bind at 1, get at 1.
  destruct (login_ok self); cbn [negb].
  - eexists _, _, _. split; [reflexivity |]. discriminate.
  - unfold bind at 1, time_time at 1.
    destruct (PrimFloat.ltb _ _).
    + unfold bind at 1, emit at 1. unfold bind at 1.
      match goal with
      | |- context [f_reconnect ?d self ?w0] =>
          pose proof (f_reconnect_run d self w0) as H;
          change (w_sock w0) with (w_sock w) in H
      end.
      destruct (first_failure (connect_calls self) (w_sock w)) as [e |] eqn:Ef.
      * destruct H as (self' & w' & es & -> & _).
        eexists _, _, _. split; [reflexivity |].
        intros e' He. inversion He; subst. eapply first_failure_In, Ef.
      * rewrite H. eexists _, _, _. split; [reflexivity |]. discriminate.
    + eexists _, _, _. split; [reflexivity |]. discriminate.
Qed.

(** X6.  What can leave a receive pass.  As long as [partial] is a bytes
    object or the empty list when the pass starts, and whatever the socket
    delivers (data, time-out, error, peer closed, no socket at all) and
    whatever the frames are, an exception that leaves
    [f_twitchReceiveMessages] is one that a socket call of the pass raised:
    the [close], [socket], [connect], [send] or [settimeout] of a
    reconnect, or the [send] of an answer.  When no socket call fails the
    pass returns a list. *)
Theorem receive_pass_returns :
  forall (decode : bytes -> str) (self : Twitch) (w : World),
    joinable (partial self) = true ->
    exists r self' w',
      f_twitchReceiveMessages decode self w = (r, self', w')
      /\ (forall e, r = Raise e -> In (Some e) (w_sock w))
      /\ ((forall e, ~ In (Some e) (w_sock w)) -> exists msgs, r = Ok msgs).
Proof.
  intros decode self w Hj.
  assert (H : exists r self' w',
             f_twitchReceiveMessages decode self w = (r, self', w')
             /\ forall e, r = Raise e -> In (Some e) (w_sock w)).
  { destruct (@receive_returns decode self w Hj)
      as (r1 & self1 & w1 & Hrecv & H1).
    unfold f_twitchReceiveMessages, bind at 1. rewrite Hrecv.
    destruct r1 as [frames | e].
    2: { eexists _, _, _. split; [reflexivity |].
         intros e' He. now inversion He; subst. }
    destruct H1 as (Hparams & (k & Hk) & Hsock).
    pose proof (@classify_all_run frames [] self1 w1 Hparams) as Hclass.
    unfold bind at 1.
    destruct (send_outcome self1 (sends frames) (w_sock w1)) as [e |] eqn:Eo.
    - destruct Hclass as (self2 & w2 & -> & _).
      eexists _, _, _. split; [reflexivity |].
      intros e' He. inversion He; subst e'.
      apply In_skipn_script with (k := k). rewrite <- Hk.
      unfold send_outcome in Eo.
      destruct (sends frames) as [| n] eqn:En; [discriminate |].
      destruct Hsock as [-> | Hsock]; [discriminate |].
      rewrite Hsock in Eo. eapply first_failure_In, Eo.
    - destruct Hclass as (self2 & w2 & -> & _ & _ & _ & Hs2 & _).
      destruct (login_watchdog_returns ([] ++ chat_events frames) self2 w2)
        as (r3 & self3 & w3 & -> & H3).
      exists r3, self3, w3. split; [reflexivity |].
      intros e He. apply H3 in He. rewrite Hs2, Hk, skipn_skipn in He.
      eapply In_skipn_script, He. }
  destruct H as (r & self' & w' & E & Hr).
  exists r, self', w'. split; [exact E |]. split; [exact Hr |].
  intros Hnone. destruct r as [msgs | e]; [eauto |].
  exfalso. apply (Hnone e). now apply Hr.
Qed.

(** The socket fails in the middle of a poll and the reconnect goes
    through. *)
Lemma receive_pass_returns_witness :
  exists msgs self' w',
    f_twitchReceiveMessages decode_ascii (session true)
      (scripted [RecvData jump_line; RecvError (OSError "connection reset")] 0)
    = (Ok msgs, self', w').
Proof.
  destruct (@receive_pass_returns decode_ascii (session true)
              (scripted [RecvData jump_line; RecvError (OSError "connection reset")] 0))
    as (r & self' & w' & E & _ & H).
  - reflexivity.
  - destruct H as (msgs & ->).
    + intros e [].
    + exists msgs, self', w'. exact E.
Defined.

(** The watchdog leaves the pass alone once the login is confirmed, and
    until the window has gone by. *)
Lemma login_watchdog_quiet (l : list ChatEvent) (self : Twitch) (w : World) :
  login_ok self = true
  \/ PrimFloat.ltb G_MAX_TIME_TO_WAIT_FOR_LOGIN
                   (PrimFloat.sub (w_clock w (w_reads w)) (login_timestamp self))
     = false ->
  exists w',
    login_watchdog l self w = (Ok l, self, w')
    /\ w_recv w' = w_recv w
    /\ w_log w' = w_log w.
Proof.
  intros H. unfold login_watchdog, bind at 1, get at 1.
  destruct (login_ok self) eqn:E; cbn [negb].
  - exists w. auto.
  - destruct H as [H | H]; [discriminate |].
    unfold bind at 1, time_time at 1.
    rewrite H.
    eexists. split; [reflexivity |]. auto.
Qed.

Lemma frames_have_params (decode : bytes -> str) (fs : list bytes) :
  Forall (fun f => params f <> []) (map (frame_of decode) fs).
Proof.
  replace (map (frame_of decode) fs)
    with (map (frame_of_match decode)
              (map (fun f => Re.Match 0 0 (frame_caps f)) fs))
    by (rewrite map_map; reflexivity).
  apply parsed_have_params.
Qed.

Lemma receive_pass_run :
  forall (decode : bytes -> str) (chunks fs : list bytes) (a : bytes)
         (rest : list recv_outcome) (self : Twitch) (w : World),
    let frames := map (frame_of decode) fs in
    has_socket self = true ->
    first_failure (sends frames) (w_sock w) = None ->
    partial self = PBytes [] ->
    Forall (fun d => d <> []) chunks ->
    chunks <> [] ->
    concat chunks = concat fs ++ a ->
    Forall is_frame fs ->
    ~ In LF a ->
    login_ok self || existsb (has_command "001") frames = true
    \/ PrimFloat.ltb G_MAX_TIME_TO_WAIT_FOR_LOGIN
                     (PrimFloat.sub (w_clock w (w_reads w)) (login_timestamp self))
       = false ->
    exists self' w',
      f_twitchReceiveMessages decode self
        (with_recv (map RecvData chunks ++ RecvTimeout :: rest) w)
      = (Ok (chat_events frames), self', w')
      /\ partial self' = PBytes a
      /\ login_ok self' = login_ok self || existsb (has_command "001") frames
      /\ sock self' = sock self
      /\ channel self' = channel self
      /\ login_timestamp self' = login_timestamp self
      /\ w_recv w' = rest
      /\ sent (w_log w')
         = sent (w_log w) ++ flat_map (reply_to (channel self)) frames.
Proof.
  intros decode chunks fs a rest self w frames
         Hsock Hsends Hpartial Hall Hne Hcat Hfs Ha Hlogin.
  unfold f_twitchReceiveMessages, bind at 1.
  rewrite receive_joined by assumption.
  rewrite Hcat, parse_buffer_fresh by assumption.
  fold frames.
  pose proof (@classify_all_run frames [] (set_partial (PBytes a) self)
                (with_recv rest w) (frames_have_params decode fs)) as Hclass.
  assert (Hout : send_outcome (set_partial (PBytes a) self) (sends frames)
                              (w_sock (with_recv rest w)) = None).
  { unfold send_outcome. destruct (sends frames); [reflexivity |].
    change (has_socket (set_partial (PBytes a) self)) with (has_socket self).
    rewrite Hsock. exact Hsends. }
  rewrite Hout in Hclass.
  destruct Hclass as (self2 & w2 & Hclass & Hlogin2 & (S2 & P2 & C2 & T2)
                      & (R2 & K2 & D2 & _) & _ & Hsent2).
  unfold bind at 1. rewrite Hclass.
  destruct (@login_watchdog_quiet ([] ++ chat_events frames) self2 w2)
    as (w3 & Hdog & R3 & L3).
  { rewrite Hlogin2, T2, K2, D2. exact Hlogin. }
  rewrite Hdog. exists self2, w3.
  split; [reflexivity |].
  rewrite R3, L3, R2, Hsent2. auto 10.
Qed.

(** X7.  A whole receive pass on a live connection.  From a [partial] that
    is the empty bytes object, on a socket whose [send] calls go through,
    when the reads of the poll put end to end are legal frames followed by
    bytes without line feed, and the login is confirmed, or gets confirmed
    by a [001] of this poll, or is still within its window, the pass
    returns exactly the chat events of the [PRIVMSG] lines received, in the
    order of the stream; it answers each [PING] with a [PONG] and each
    [001] with the [JOIN] of the channel and sends nothing else, so it does
    not connect again; it keeps the bytes after the last line in
    [partial]. *)
Theorem receive_pass_delivers_chat :
  forall (decode : bytes -> str) (chunks fs : list bytes) (a : bytes)
         (rest : list recv_outcome) (self : Twitch) (w : World),
    let frames := map (frame_of decode) fs in
    has_socket self = true ->
    first_failure (sends frames) (w_sock w) = None ->
    partial self = PBytes [] ->
    Forall (fun d => d <> []) chunks ->
    chunks <> [] ->
    concat chunks = concat fs ++ a ->
    Forall is_frame fs ->
    ~ In LF a ->
    login_ok self || existsb (has_command "001") frames = true
    \/ PrimFloat.ltb G_MAX_TIME_TO_WAIT_FOR_LOGIN
                     (PrimFloat.sub (w_clock w (w_reads w)) (login_timestamp self))
       = false ->
    exists self' w',
      f_twitchReceiveMessages decode self
        (with_recv (map RecvData chunks ++ RecvTimeout :: rest) w)
      = (Ok (chat_events frames), self', w')
      /\ partial self' = PBytes a
      /\ login_ok self' = login_ok self || existsb (has_command "001") frames
      /\ sock self' = sock self
      /\ channel self' = channel self
      /\ login_timestamp self' = login_timestamp self
      /\ w_recv w' = rest
      /\ sent (w_log w')
         = sent (w_log w) ++ flat_map (reply_to (channel self)) frames.
Proof. exact receive_pass_run. Qed.

(** The poll that brings the login confirmation together with a first chat
    message, the end of which is still on its way. *)
Lemma receive_pass_delivers_chat_witness :
  let welcome := b ":tmi.twitch.tv 001 justinfan1 :Welcome, GLHF!" ++ CRLF in
  exists self' w',
    f_twitchReceiveMessages decode_ascii (session false)
      (scripted [RecvData welcome; RecvData (jump_line ++ b "PIN"); RecvTimeout] 2)
    = (Ok [mkChatEvent "Viewer1" "!JUMP"], self', w')
    /\ partial self' = PBytes (b "PIN")
    /\ login_ok self' = true
    /\ sent (w_log w') = [b "JOIN #chan" ++ CRLF].
Proof.
  intros welcome.
  destruct (@receive_pass_delivers_chat decode_ascii
              [welcome; jump_line ++ b "PIN"] [welcome; jump_line] (b "PIN") []
              (session false) (scripted [] 2))
    as (self' & w' & Hrun & Hp & Hl & _ & _ & _ & _ & Hs).
  - reflexivity.
  - reflexivity.
  - reflexivity.
  - repeat constructor; discriminate.
  - discriminate.
  - reflexivity.
  - repeat constructor.
    + apply (@is_frame_intro (b ":tmi.twitch.tv 001 justinfan1 :Welcome, GLHF!"));
        [reflexivity | vm_compute; discriminate].
    + apply (@is_frame_intro
               (b ":Viewer1!viewer1@viewer1.tmi.twitch.tv PRIVMSG #chan :!JUMP"));
        [reflexivity | vm_compute; discriminate].
  - vm_compute. intuition discriminate.
  - left. vm_compute. reflexivity.
  - exists self', w'. split; [exact Hrun |]. auto.
Defined.


(* ===================================================================== *)
(** * More on the drain step *)
(* ===================================================================== *)

Lemma release_count_one (L : nat) : release_count (PyInt 1) L = Ok (Z.of_nat L).
Proof. unfold release_count. now rewrite Z.mul_1_l. Qed.

Lemma drain_rate_zero_step (R : float) (s : MainLoop) (w : World) :
  PrimFloat.eqb R 0 = true ->
  l_messageQueue s <> [] ->
  drain R s w
  = (Ok (l_messageQueue s),
     set_last_time (w_clock w (w_reads w)) (set_messageQueue [] s),
     tick w).
Proof.
  intros HR Hq. unfold drain, bind at 1, get at 1.
  destruct (l_messageQueue s) as [| m q] eqn:Eq; [congruence |].
  rewrite HR. unfold bind at 1, ret at 1.
  rewrite release_count_one. unfold bind at 1, eval.
  change (0 <? Z.of_nat (length (m :: q)))%Z with true. cbv iota.
  rewrite slice_prefix, del_slice_prefix by lia.
  rewrite Nat2Z.id, firstn_all, skipn_all.
  unfold bind, update, time_time, ret, get. reflexivity.
Qed.

Lemma drain_unbound_step (R : float) (s : MainLoop) (w : World) :
  PrimFloat.eqb R 0 = false ->
  l_messageQueue s <> [] ->
  last_time s = None ->
  drain R s w
  = (Raise (UnboundLocalError "local variable 'last_time' referenced before assignment"),
     s, tick w).
Proof.
  intros HR Hq Ht. unfold drain, bind at 1, get at 1.
  destruct (l_messageQueue s) as [| m q] eqn:Eq; [congruence |].
  rewrite HR. unfold bind, time_time. rewrite Ht. reflexivity.
Qed.

(** X8.  A rate of 0 switches the throttle off.  Whatever the clock reads,
    and even before [last_time] has ever been assigned, a drain step at
    rate 0 releases the whole backlog, oldest first, empties it, and
    records the one clock reading it makes as the last-drain time. *)
Theorem drain_rate_zero_releases_all :
  forall (R : float) (s : MainLoop) (w : World),
    PrimFloat.eqb R 0 = true ->
    l_messageQueue s <> [] ->
    exists s',
      drain R s w = (Ok (l_messageQueue s), s', tick w)
      /\ l_messageQueue s' = []
      /\ last_time s' = Some (w_clock w (w_reads w))
      /\ l_activeTasks s' = l_activeTasks s
      /\ thread_pool s' = thread_pool s
      /\ g_twitch s' = g_twitch s.
Proof.
  intros R s w HR Hq.
  eexists. split; [now apply drain_rate_zero_step |]. auto 10.
Qed.

(** The rate written as the negative zero, which is equal to 0. *)
Lemma drain_rate_zero_releases_all_witness :
  exists s',
    drain (-0)%float (idle_loop three_waiting None) (still_world 5)
    = (Ok three_waiting, s', tick (still_world 5))
    /\ l_messageQueue s' = []
    /\ last_time s' = Some 5%float.
Proof.
  destruct (@drain_rate_zero_releases_all (-0)%float
              (idle_loop three_waiting None) (still_world 5))
    as (s' & H1 & H2 & H3 & _).
  - reflexivity.
  - discriminate.
  - exists s'. auto.
Defined.

(** [int] refuses two floats only. *)
Lemma int_of_raises (x : float) (e : exn) :
  int_of x = Raise e ->
  e = OverflowError "cannot convert float infinity to integer"
  \/ e = ValueError "cannot convert float NaN to integer".
Proof.
  unfold int_of. destruct (Prim2SF x); intros H; inversion H; auto.
Qed.

Lemma drain_returns (R : float) (s : MainLoop) (w : World) :
  l_messageQueue s = [] \/ PrimFloat.eqb R 0 = true
  \/ (exists t n,
         last_time s = Some t
         /\ release_count
              (PyFloat (PrimFloat.div (PrimFloat.sub (w_clock w (w_reads w)) t) R))
              (length (l_messageQueue s)) = Ok n) ->
  exists out s' w',
    drain R s w = (Ok out, s', w')
    /\ out ++ l_messageQueue s' = l_messageQueue s
    /\ last_time s' <> None
    /\ l_activeTasks s' = l_activeTasks s
    /\ thread_pool s' = thread_pool s
    /\ g_twitch s' = g_twitch s
    /\ w_log w' = w_log w
    /\ w_recv w' = w_recv w.
Proof.
  intros H.
  destruct (l_messageQueue s) as [| m q] eqn:Eq.
  { rewrite drain_empty by assumption.
    eexists _, _, _. split; [reflexivity |].
    cbn. rewrite Eq. repeat split; auto. discriminate. }
  assert (Hq : l_messageQueue s <> []) by (rewrite Eq; discriminate).
  destruct (PrimFloat.eqb R 0) eqn:ER.
  { rewrite drain_rate_zero_step by assumption.
    eexists _, _, _. split; [reflexivity |].
    cbn. rewrite Eq, app_nil_r. repeat split; auto. discriminate. }
  destruct H as [H | [H | (t & n & Et & En)]]; try discriminate.
  rewrite <- Eq in En.
  pose proof (@drain_step R s w t n ER Hq Et En) as Hstep.
  rewrite Hstep. rewrite Eq.
  destruct (0 <? n)%Z.
  + eexists _, _, _. split; [reflexivity |].
    cbn [l_messageQueue set_last_time set_messageQueue last_time
         l_activeTasks thread_pool g_twitch w_log w_recv tick].
    rewrite firstn_skipn. repeat split; auto. discriminate.
  + eexists _, _, _. split; [reflexivity |].
    cbn [w_log w_recv tick]. rewrite Eq, Et. repeat split; auto. discriminate.
Qed.

(** X9.  When the drain step raises, and what it keeps otherwise.  The
    step raises in two cases only, both on a backlog that is not empty and
    for a rate that is not 0.  Either [last_time] has never been assigned:
    it is then an [UnboundLocalError].  Or the float computed at line 1294
    is an infinity or a NaN, which [int] refuses: it is then an
    [OverflowError] or a [ValueError].  Both come after one clock reading
    and leave the loop variables as they were.  In every other case the
    step returns, the released messages followed by the backlog it leaves
    are the backlog it found, [last_time] is bound from then on, and
    neither the futures, the thread pool, the chat connection nor the log
    are touched. *)
Theorem drain_raise_cases :
  forall (R : float) (s : MainLoop) (w : World),
    (l_messageQueue s <> [] /\ PrimFloat.eqb R 0 = false /\ last_time s = None ->
     drain R s w
     = (Raise (UnboundLocalError "local variable 'last_time' referenced before assignment"),
        s, tick w))
    /\
    (forall (t : float) (e : exn),
        l_messageQueue s <> [] ->
        PrimFloat.eqb R 0 = false ->
        last_time s = Some t ->
        release_count
          (PyFloat (PrimFloat.div (PrimFloat.sub (w_clock w (w_reads w)) t) R))
          (length (l_messageQueue s)) = Raise e ->
        drain R s w = (Raise e, s, tick w)
        /\ (e = OverflowError "cannot convert float infinity to integer"
            \/ e = ValueError "cannot convert float NaN to integer"))
    /\
    (l_messageQueue s = [] \/ PrimFloat.eqb R 0 = true
     \/ (exists t n,
            last_time s = Some t
            /\ release_count
                 (PyFloat (PrimFloat.div (PrimFloat.sub (w_clock w (w_reads w)) t) R))
                 (length (l_messageQueue s)) = Ok n) ->
     exists out s' w',
       drain R s w = (Ok out, s', w')
       /\ out ++ l_messageQueue s' = l_messageQueue s
       /\ last_time s' <> None
       /\ l_activeTasks s' = l_activeTasks s
       /\ thread_pool s' = thread_pool s
       /\ g_twitch s' = g_twitch s
       /\ w_log w' = w_log w
       /\ w_recv w' = w_recv w).
Proof.
  intros R s w. split; [| split].
  - intros (Hq & HR & Ht). now apply drain_unbound_step.
  - intros t e Hq HR Ht He. split.
    + now apply drain_step_raises with (t := t).
    + unfold release_count in He. now apply int_of_raises in He.
  - apply drain_returns.
Qed.

(** A first poll with chat in it, at the rate of the program; the same
    backlog once [last_time] is bound; and a rate so small that the
    quotient is an infinity. *)
Lemma drain_raise_cases_witness :
  (exists e,
      drain G_MESSAGE_RATE (idle_loop three_waiting None) (still_world 1)
      = (Raise e, idle_loop three_waiting None, tick (still_world 1)))
  /\ (exists out s' w',
         drain G_MESSAGE_RATE (idle_loop three_waiting (Some 0%float)) (still_world 1)
         = (Ok out, s', w')
         /\ out ++ l_messageQueue s' = three_waiting)
  /\ drain 0x1p-1074 (idle_loop three_waiting (Some 0%float)) (still_world 1)
     = (Raise (OverflowError "cannot convert float infinity to integer"),
        idle_loop three_waiting (Some 0%float), tick (still_world 1)).
Proof.
  split; [| split].
  - eexists.
    apply (proj1 (@drain_raise_cases G_MESSAGE_RATE
                    (idle_loop three_waiting None) (still_world 1))).
    split; [discriminate |]. split; reflexivity.
  - destruct (proj2 (proj2 (@drain_raise_cases G_MESSAGE_RATE
                       (idle_loop three_waiting (Some 0%float)) (still_world 1))))
      as (out & s' & w' & H1 & H2 & _).
    + right. right. exists 0%float, 6%Z. split; [reflexivity |].
      vm_compute. reflexivity.
    + exists out, s', w'. auto.
  - apply (proj1 (proj2 (@drain_raise_cases 0x1p-1074
                    (idle_loop three_waiting (Some 0%float)) (still_world 1)))
             0%float).
    + discriminate.
    + reflexivity.
    + reflexivity.
    + vm_compute. reflexivity.
Defined.


(* ===================================================================== *)
(** * What every pass of the loop keeps *)
(* ===================================================================== *)

Lemma bind_inv (S A B : Type) (c : M S A) (k : A -> M S B)
      (s : S) (w : World) (r : py_result B) (s' : S) (w' : World) :
  bind c k s w = (r, s', w') ->
  (exists a s1 w1, c s w = (Ok a, s1, w1) /\ k a s1 w1 = (r, s', w'))
  \/ (exists e, c s w = (Raise e, s', w') /\ r = Raise e).
Proof.
  unfold bind. destruct (c s w) as [[[a | e] s1] w1]; intros H.
  - left. eauto.
  - right. inversion H; subst. eauto.
Qed.

(** Whatever way the drain step ends, the backlog has not grown and the
    futures are the same. *)
Lemma drain_shrinks (R : float) (s : MainLoop) (w : World)
      (r : py_result (list ChatEvent)) (s' : MainLoop) (w' : World) :
  drain R s w = (r, s', w') ->
  (length (l_messageQueue s') <= length (l_messageQueue s))%nat
  /\ l_activeTasks s' = l_activeTasks s.
Proof.
  intros H.
  destruct (l_messageQueue s) as [| m q] eqn:Eq.
  { destruct (@drain_returns R s w (or_introl Eq))
      as (out & s1 & w1 & E & Hcat & _ & Ha & _).
    rewrite E in H. inversion H; subst. rewrite Eq in Hcat.
    apply app_eq_nil in Hcat as [_ ->]. auto. }
  assert (Hq : l_messageQueue s <> []) by (rewrite Eq; discriminate).
  destruct (PrimFloat.eqb R 0) eqn:ER;
    [| destruct (last_time s) as [t |] eqn:Et].
  - destruct (@drain_returns R s w (or_intror (or_introl ER)))
      as (out & s1 & w1 & E & Hcat & _ & Ha & _).
    rewrite E in H. inversion H; subst. split; [| exact Ha].
    rewrite <- Eq, <- Hcat, length_app. lia.
  - destruct (release_count
                (PyFloat (PrimFloat.div (PrimFloat.sub (w_clock w (w_reads w)) t) R))
                (length (l_messageQueue s))) as [n | e] eqn:En.
    + destruct (@drain_returns R s w)
        as (out & s1 & w1 & E & Hcat & _ & Ha & _).
      { right. right. eauto. }
      rewrite E in H. inversion H; subst. split; [| exact Ha].
      rewrite <- Eq, <- Hcat, length_app. lia.
    + rewrite (@drain_step_raises R s w t e ER Hq Et En) in H.
      inversion H; subst. rewrite Eq. auto.
  - rewrite drain_unbound_step in H by assumption.
    inversion H; subst. rewrite Eq. auto.
Qed.

(** After line 1278 the backlog holds at most [N] messages, when [N] is
    positive. *)
Lemma enqueue_bound (N : Z) (new : list ChatEvent) (s : MainLoop) (w : World) :
  (0 < N)%Z ->
  exists s',
    enqueue N new s w = (Ok tt, s', w)
    /\ l_activeTasks s' = l_activeTasks s
    /\ (backlog_within N s -> backlog_within N s').
Proof.
  intros HN. unfold enqueue. destruct new as [| m new].
  - exists s. auto.
  - eexists. split; [reflexivity |]. split; [reflexivity |].
    intros _. unfold backlog_within. cbn [l_messageQueue set_messageQueue].
    unfold slice_from. rewrite slice_index_neg by assumption.
    rewrite length_skipn. lia.
Qed.

Lemma pass_keeps (decode : bytes -> str) (R : float) (N cap : Z) (ctl : Controls)
      (s : MainLoop) (w : World) (r : py_result pass_end)
      (s' : MainLoop) (w' : World) :
  (0 < N)%Z ->
  f_mainLoop_pass decode R N cap ctl s w = (r, s', w') ->
  (backlog_within N s -> backlog_within N s')
  /\ (futures_within cap s -> futures_within cap s').
Proof.
  intros HN H. unfold f_mainLoop_pass in H.
  destruct (negb (g_windowOpen ctl)).
  { inversion H; subst. auto. }
  apply bind_inv in H as [(u & s1 & w1 & E1 & H) | (e & E1 & _)];
    [| discriminate].
  inversion E1; subst s1 w1. clear E1.
  destruct (g_connected ctl && negb (g_disabled ctl)).
  2: { inversion H; subst. auto. }
  apply bind_inv in H as [(u1 & s1 & w1 & E1 & H) | (e & E1 & _)];
    [| discriminate].
  unfold prune, bind, get, update in E1. inversion E1; subst s1 w1. clear E1.
  set (s1 := set_activeTasks _ s) in H.
  assert (Hq1 : l_messageQueue s1 = l_messageQueue s) by reflexivity.
  assert (Ha1 : (length (l_activeTasks s1) <= length (l_activeTasks s))%nat)
    by apply filter_length_le.
  assert (Hend : forall s2,
             l_messageQueue s2 = l_messageQueue s1 ->
             l_activeTasks s2 = l_activeTasks s1 ->
             (backlog_within N s -> backlog_within N s2)
             /\ (futures_within cap s -> futures_within cap s2)).
  { intros s2 Hq2 Ha2. unfold backlog_within, futures_within.
    rewrite Hq2, Ha2, Hq1. split; [auto | lia]. }
  apply bind_inv in H as [(new & s2 & w2 & E2 & H) | (e & E2 & _)].
  2: { unfold on_twitch in E2.
       destruct (f_twitchReceiveMessages decode (g_twitch s1) _) as [[r2 t2] w2].
       inversion E2; subst. now apply Hend. }
  assert (Hs2 : l_messageQueue s2 = l_messageQueue s1
                /\ l_activeTasks s2 = l_activeTasks s1).
  { unfold on_twitch in E2.
    destruct (f_twitchReceiveMessages decode (g_twitch s1) _) as [[r2 t2] w2'].
    inversion E2; subst. auto. }
  destruct Hs2 as [Hq2 Ha2].
  apply bind_inv in H as [(u3 & s3 & w3 & E3 & H) | (e & E3 & _)].
  2: { destruct (@enqueue_bound N new s2 w2 HN) as (sx & Ex & _).
       rewrite Ex in E3. discriminate. }
  destruct (@enqueue_bound N new s2 w2 HN) as (sx & Ex & Ha3 & Hq3).
  rewrite Ex in E3. inversion E3; subst sx w3. clear E3 Ex.
  assert (Hafter : forall s4,
             (length (l_messageQueue s4) <= length (l_messageQueue s3))%nat ->
             l_activeTasks s4 = l_activeTasks s3 ->
             (backlog_within N s -> backlog_within N s4)
             /\ (futures_within cap s -> futures_within cap s4)).
  { intros s4 Hq4 Ha4. split.
    - intros Hb. apply (Hend s2 Hq2 Ha2) in Hb. apply Hq3 in Hb.
      unfold backlog_within in *. lia.
    - intros Hf. unfold futures_within in *. rewrite Ha4, Ha3, Ha2. lia. }
  apply bind_inv in H as [(out & s4 & w4 & E4 & H) | (e & E4 & _)].
  2: { apply drain_shrinks in E4 as [Hq4 Ha4]. now apply Hafter. }
  apply drain_shrinks in E4 as [Hq4 Ha4].
  destruct (shift_backspace ctl).
  { inversion H; subst. now apply Hafter. }
  destruct (@dispatch_bound cap out s4 w4) as (s5 & w5 & E5 & Hq5 & Ha5).
  apply bind_inv in H as [(u5 & sx & wx & Ex & H) | (e & Ex & _)].
  2: { rewrite E5 in Ex. discriminate. }
  rewrite E5 in Ex. inversion Ex; subst sx wx. inversion H; subst.
  split.
  - intros Hb. apply (Hafter s4 Hq4 Ha4) in Hb.
    unfold backlog_within in *. now rewrite Hq5.
  - intros Hf. apply (Hafter s4 Hq4 Ha4) in Hf.
    unfold futures_within in *. lia.
Qed.

(** X10.  The two bounds of the loop hold pass after pass.  For a positive
    maximum queue length, however many passes run and however they end (a
    pass that continues, an [exit()], an exception out of the receive pass
    or out of the drain step), a backlog of at most that many messages
    stays so, and a list of futures of at most one more than the cap stays
    so: the cap itself can be passed by one, never by two. *)
Theorem loop_keeps_its_bounds :
  forall (decode : bytes -> str) (R : float) (N cap : Z) (ctl : Controls) (n : nat)
         (s : MainLoop) (w : World) (r : py_result pass_end)
         (s' : MainLoop) (w' : World),
    (0 < N)%Z ->
    passes decode R N cap ctl n s w = (r, s', w') ->
    (backlog_within N s -> backlog_within N s')
    /\ (futures_within cap s -> futures_within cap s').
Proof.
  intros decode R N cap ctl n. induction n as [| n IH];
    intros s w r s' w' HN H.
  - inversion H; subst. auto.
  - cbn [passes] in H.
    apply bind_inv in H as [(e1 & s1 & w1 & E1 & H) | (e & E1 & _)].
    + apply pass_keeps in E1 as [Hb1 Hf1]; [| exact HN].
      destruct e1.
      * apply IH in H as [Hb Hf]; auto.
      * inversion H; subst. auto.
    + apply pass_keeps in E1; [exact E1 | exact HN].
Qed.

(** Seven passes under load, from the start of the loop. *)
Lemma loop_keeps_its_bounds_witness :
  exists r s' w',
    passes decode_ascii G_MESSAGE_RATE G_MAX_QUEUE_LENGTH G_MAX_WORKERS
           busy 7 fresh_loop busy_world = (r, s', w')
    /\ backlog_within G_MAX_QUEUE_LENGTH s'
    /\ futures_within G_MAX_WORKERS s'.
Proof.
  destruct (passes decode_ascii G_MESSAGE_RATE G_MAX_QUEUE_LENGTH G_MAX_WORKERS
                   busy 7 fresh_loop busy_world) as [[r s'] w'] eqn:E.
  exists r, s', w'. split; [reflexivity |].
  destruct (@loop_keeps_its_bounds decode_ascii G_MESSAGE_RATE
              G_MAX_QUEUE_LENGTH G_MAX_WORKERS busy 7 fresh_loop busy_world
              r s' w') as [Hb Hf].
  - reflexivity.
  - exact E.
  - split; [apply Hb | apply Hf]; vm_compute; discriminate.
Defined.


(* ===================================================================== *)
(** * More on the dispatch pass and on the handler *)
(* ===================================================================== *)

Lemma dispatch_run (cap : Z) (ms : list ChatEvent) :
  forall (s : MainLoop) (w : World),
    exists s',
      dispatch cap ms s w
      = (Ok tt, s',
         log_all (map Submit (firstn (free_slots cap s) ms)
                  ++ warnings (length (l_activeTasks s')) cap
                              (length (l_messageQueue s))
                              (skipn (free_slots cap s) ms)) w)
      /\ l_activeTasks s'
         = l_activeTasks s
           ++ futures_from (thread_pool s) (firstn (free_slots cap s) ms)
      /\ thread_pool s'
         = (thread_pool s + length (firstn (free_slots cap s) ms))%nat
      /\ l_messageQueue s' = l_messageQueue s
      /\ last_time s' = last_time s
      /\ g_twitch s' = g_twitch s.
Proof.
  induction ms as [| m ms IH]; intros s w.
  - exists s. rewrite firstn_nil, skipn_nil. cbn.
    rewrite log_all_nil, app_nil_r, Nat.add_0_r. auto 10.
  - unfold dispatch. cbn [for_each]. unfold bind at 1.
    destruct (Z.le_gt_cases (Z.of_nat (length (l_activeTasks s))) cap) as [H | H].
    + rewrite dispatch_one_submits by assumption.
      set (s1 := set_activeTasks _ _).
      destruct (IH s1 (log (Submit m) w)) as (s' & E & Ha & Hp & Hq & Ht & Hg).
      fold (dispatch cap ms). 
      assert (Hk : free_slots cap s = S (free_slots cap s1)).
      { unfold free_slots, s1. cbn [l_activeTasks set_activeTasks].
        rewrite length_app. cbn [length]. lia. }
      exists s'. rewrite E, Hk. cbn [firstn skipn map futures_from length].
      rewrite log_is_log_all, log_all_app.
      split; [reflexivity |].
      rewrite Ha, Hp. unfold s1. cbn. rewrite <- app_assoc.
      split; [reflexivity |]. split; [lia |]. auto.
    + rewrite dispatch_one_drops by lia.
      set (w1 := log _ w).
      destruct (IH s w1) as (s' & E & Ha & Hp & Hq & Ht & Hg).
      fold (dispatch cap ms).
      assert (Hk : free_slots cap s = 0%nat) by (unfold free_slots; lia).
      exists s'. rewrite E. rewrite Hk in *. cbn [firstn skipn map] in *.
      cbn [futures_from length] in *. rewrite app_nil_r in Ha.
      unfold w1. rewrite log_is_log_all, log_all_app.
      unfold warnings. cbn [map app]. rewrite Ha, app_nil_r.
      auto 10.
Qed.

(** X11.  The accounts of a dispatch pass.  Of the messages released in a
    pass, the first ones are submitted to the thread pool, in order, as
    many as the list of futures has room for up to one more than the cap;
    each of the others is dropped with one warning, and is in neither the
    backlog nor the futures afterwards.  The futures are appended in the
    order of the messages, and the pass touches nothing else. *)
Theorem dispatch_fills_then_warns :
  forall (cap : Z) (ms : list ChatEvent) (s : MainLoop) (w : World),
    let taken := firstn (free_slots cap s) ms in
    let dropped := skipn (free_slots cap s) ms in
    exists s',
      dispatch cap ms s w
      = (Ok tt, s',
         log_all (map Submit taken
                  ++ warnings (length (l_activeTasks s')) cap
                              (length (l_messageQueue s)) dropped) w)
      /\ l_activeTasks s' = l_activeTasks s ++ futures_from (thread_pool s) taken
      /\ thread_pool s' = (thread_pool s + length taken)%nat
      /\ l_messageQueue s' = l_messageQueue s
      /\ last_time s' = last_time s
      /\ g_twitch s' = g_twitch s.
Proof. intros cap ms s w. apply dispatch_run. Qed.

Lemma for_each_app (S A : Type) (l1 l2 : list A) (body : A -> M S unit)
      (s : S) (w : World) :
  for_each (l1 ++ l2) body s w
  = bind (for_each l1 body) (fun _ => for_each l2 body) s w.
Proof.
  revert s w. induction l1 as [| x l1 IH]; intros s w; cbn [app for_each].
  - reflexivity.
  - unfold bind. destruct (body x s w) as [[[[] | e] s1] w1].
    + rewrite IH. reflexivity.
    + reflexivity.
Qed.

(** Actions are processed up to the first one that raises, that one
    included. *)
Lemma process_all_raises (as1 as2 : list ComputerAction) (a : ComputerAction)
      (e : exn) (w : World) :
  (forall a', In a' as1 -> process_raises a' = None) ->
  process_raises a = Some e ->
  for_each (as1 ++ a :: as2) f_process tt w
  = (Raise e, tt, log_all (map Process (as1 ++ [a])) w).
Proof.
  intros Hok Hraise. rewrite for_each_app. unfold bind at 1.
  rewrite process_all_returns by assumption.
  cbn [for_each]. unfold bind at 1, f_process at 1. unfold bind, emit.
  rewrite Hraise. unfold raise.
  rewrite log_is_log_all, log_all_app, map_app. reflexivity.
Qed.

(** X12.  An exception ends the handling of the message.  When a command
    registered for the lower-cased message has an action whose processing
    raises, the actions before it are processed, it is itself attempted,
    and nothing after it is: neither the rest of the actions of that
    command nor any command later in the list, registered for the message
    or not.  The handler prints the text of the exception and returns. *)
Theorem handle_message_stops_at_first_raise :
  forall (before after : list TwitchCommand) (c : TwitchCommand)
         (as1 as2 : list ComputerAction) (a : ComputerAction) (e : exn)
         (p_message : ChatEvent) (w : World),
    let text := lower (message p_message) in
    (forall c', In c' before -> chatText c' <> None) ->
    (forall c' a', In c' before -> In a' (actionList c') ->
                   process_raises a' = None) ->
    registered_for text c = true ->
    actionList c = as1 ++ a :: as2 ->
    (forall a', In a' as1 -> process_raises a' = None) ->
    process_raises a = Some e ->
    exists w',
      f_handleMessage (before ++ c :: after) p_message tt w = (Ok tt, tt, w')
      /\ processed (w_log w')
         = processed (w_log w)
           ++ flat_map actionList (filter (registered_for text) before)
           ++ as1 ++ [a]
      /\ last (w_log w') (Print PCommandReceived)
         = Print (PEncounteredException
                    (String.append "Encountered exception: " (exn_str e))).
Proof.
  intros before after c as1 as2 a e ev w text Hdrawn Hok Hreg Hacts Hok1 Hraise.
  unfold f_handleMessage, try_except, handle_body.
  unfold bind at 1. unfold emit at 1.
  fold text. rewrite for_each_app. unfold bind at 1.
  rewrite check_all_returns by assumption.
  cbn [for_each]. unfold bind at 1.
  unfold f_check at 1. unfold registered_for in Hreg.
  destruct (chatText c) as [l_command |]; [| discriminate].
  rewrite Hreg. unfold bind at 1, emit at 1.
  rewrite Hacts, (@process_all_raises as1 as2 a e _ Hok1 Hraise).
  eexists. split; [reflexivity |]. split.
  - cbn [w_log log log_all].
    rewrite !processed_app. cbn [processed app].
    rewrite processed_check_traces, processed_map_Process.
    rewrite !app_nil_r, <- !app_assoc. reflexivity.
  - cbn [w_log log log_all]. apply last_last.
Qed.

(** A wait action between two key taps: the first tap is made, the wait
    raises, the second tap and the command after it are never reached. *)
Lemma handle_message_stops_at_first_raise_witness :
  exists w',
    f_handleMessage
      [mkCommand (Some "!left"%string) [tap_space];
       mkCommand (Some "!combo"%string) [tap_space; wait_action; tap_space];
       mkCommand (Some "!combo"%string) [tap_space]]
      (mkChatEvent "viewer1" "!Combo") tt (still_world 0)
    = (Ok tt, tt, w')
    /\ processed (w_log w') = [tap_space; wait_action].
Proof.
  destruct (@handle_message_stops_at_first_raise
              [mkCommand (Some "!left"%string) [tap_space]]
              [mkCommand (Some "!combo"%string) [tap_space]]
              (mkCommand (Some "!combo"%string) [tap_space; wait_action; tap_space])
              [tap_space] [tap_space] wait_action
              (TypeError "int() argument must be a string, a bytes-like object or a real number, not 'method'")
              (mkChatEvent "viewer1" "!Combo") (still_world 0))
    as (w' & H1 & H2 & _).
  - intros c' [<- | []]. discriminate.
  - intros c' a' [<- | []] [<- | []]. reflexivity.
  - reflexivity.
  - reflexivity.
  - intros a' [<- | []]. reflexivity.
  - reflexivity.
  - exists w'. split; [exact H1 | exact H2].
Defined.


(* ===================================================================== *)
(** * The Connect button *)
(* ===================================================================== *)

(** X13.  What the Connect button does.  With an empty name field it does
    nothing at all and raises nothing.  With a name it connects.  When a
    socket call of the connect fails, the error leaves the handler and
    [g_connected] is as it was.  When they all go through, [g_connected]
    is set and, whatever the object was before (a [partial] left as a list
    included), it is ready to poll on the lower-cased name: when a poll
    then brings legal frames with the login confirmation among them, and
    the answers can be sent, the pass returns their chat events, the login
    is confirmed, and the channel joined is the name in lower case. *)
Theorem connect_button_joins_lowercase :
  forall (decode : bytes -> str) (g_streamerName : str)
         (g : ControlBar.Globals) (w : World),
    (g_streamerName = EmptyString ->
     ControlBar.f_handleConnect g_streamerName g w = (Ok tt, g, w))
    /\
    (g_streamerName <> EmptyString ->
     match first_failure (connect_calls (ControlBar.g_twitch g)) (w_sock w) with
     | Some e =>
         exists g1 w1,
           ControlBar.f_handleConnect g_streamerName g w = (Raise e, g1, w1)
           /\ ControlBar.g_connected g1 = ControlBar.g_connected g
     | None =>
         exists g1 w1,
           ControlBar.f_handleConnect g_streamerName g w = (Ok tt, g1, w1)
           /\ ControlBar.g_connected g1 = true
           /\ channel (ControlBar.g_twitch g1) = lower g_streamerName
           /\ forall (chunks fs : list bytes) (a : bytes)
                     (rest : list recv_outcome),
               let frames := map (frame_of decode) fs in
               first_failure (sends frames) (w_sock w1) = None ->
               Forall (fun d => d <> []) chunks ->
               chunks <> [] ->
               concat chunks = concat fs ++ a ->
               Forall is_frame fs ->
               ~ In LF a ->
               existsb (has_command "001") frames = true ->
               exists self' w',
                 f_twitchReceiveMessages decode (ControlBar.g_twitch g1)
                   (with_recv (map RecvData chunks ++ RecvTimeout :: rest) w1)
                 = (Ok (chat_events frames), self', w')
                 /\ login_ok self' = true
                 /\ partial self' = PBytes a
                 /\ sent (w_log w')
                    = sent (w_log w1)
                      ++ flat_map (reply_to (lower g_streamerName)) frames
     end).
Proof.
  intros decode name g w. split.
  - intros ->. reflexivity.
  - intros Hname.
    pose proof (f_connect_run name (ControlBar.g_twitch g) w) as Hconn.
    assert (Hrun : ControlBar.f_handleConnect name g w
                   = bind (ControlBar.on_twitch (f_connect name))
                          (fun _ => ControlBar.set_connected true) g w).
    { unfold ControlBar.f_handleConnect.
      destruct (String.eqb_spec name EmptyString) as [E | _]; [contradiction |].
      reflexivity. }
    rewrite Hrun.
    destruct (first_failure (connect_calls (ControlBar.g_twitch g)) (w_sock w))
      as [e |].
    { destruct Hconn as (self' & w' & es & Hconn & _).
      unfold bind, ControlBar.on_twitch. rewrite Hconn.
      eexists _, _. split; reflexivity. }
    unfold bind, ControlBar.on_twitch. rewrite Hconn.
    unfold ControlBar.set_connected.
    eexists _, _. split; [reflexivity |].
    cbn [ControlBar.g_connected ControlBar.g_twitch].
    split; [reflexivity |]. split; [reflexivity |].
    intros chunks fs a rest Hsends Hall Hne Hcat Hfs Ha H001.
    set (frames := map (frame_of decode) fs) in *.
    set (w1 := after_connect _ _ w) in *.
    assert (Hlogin : login_ok (connected name (w_clock w (w_reads w)))
                     || existsb (has_command "001") frames = true
                     \/ PrimFloat.ltb G_MAX_TIME_TO_WAIT_FOR_LOGIN
                          (PrimFloat.sub
                             (w_clock w1 (w_reads w1))
                             (login_timestamp
                                (connected name (w_clock w (w_reads w)))))
                        = false).
    { left. rewrite H001. apply orb_true_r. }
    destruct (@receive_pass_run decode chunks fs a rest
                (connected name (w_clock w (w_reads w))) w1
                eq_refl Hsends eq_refl Hall Hne Hcat Hfs Ha Hlogin)
      as (self' & w' & Hrun' & Hp & Hl & _ & _ & _ & _ & Hsent).
    exists self', w'. split; [exact Hrun' |].
    fold frames in Hl. rewrite H001, orb_true_r in Hl. auto.
Qed.

(** The streamer types the name with capitals; and the same on a network
    that cannot be reached. *)
Lemma connect_button_joins_lowercase_witness :
  let welcome := b ":tmi.twitch.tv 001 justinfan12345 :Welcome, GLHF!" ++ CRLF in
  (exists g1 w1 self' w',
      ControlBar.f_handleConnect "DougDoug"
        (ControlBar.mkGlobals Twitch_new false) (still_world 0)
      = (Ok tt, g1, w1)
      /\ ControlBar.g_connected g1 = true
      /\ f_twitchReceiveMessages decode_ascii (ControlBar.g_twitch g1)
           (with_recv [RecvData welcome; RecvTimeout] w1)
         = (Ok [], self', w')
      /\ sent (w_log w') = sent (w_log w1) ++ [b "JOIN #dougdoug" ++ CRLF])
  /\ (exists g1 w1,
         ControlBar.f_handleConnect "DougDoug"
           (ControlBar.mkGlobals (session true) false) (offline [] 0)
         = (Raise unreachable, g1, w1)
         /\ ControlBar.g_connected g1 = false).
Proof.
  intros welcome. split.
  - destruct (proj2 (@connect_button_joins_lowercase decode_ascii "DougDoug"
                       (ControlBar.mkGlobals Twitch_new false) (still_world 0)))
      as (g1 & w1 & H1 & H2 & _ & H4).
    + discriminate.
    + destruct (H4 [welcome] [welcome] [] []) as (self' & w' & H5 & _ & _ & H6).
      * vm_compute in H1. inversion H1; subst. reflexivity.
      * repeat constructor; discriminate.
      * discriminate.
      * reflexivity.
      * repeat constructor.
        apply (@is_frame_intro (b ":tmi.twitch.tv 001 justinfan12345 :Welcome, GLHF!"));
          [reflexivity | vm_compute; discriminate].
      * intros [].
      * vm_compute. reflexivity.
      * exists g1, w1, self', w'. auto.
  - destruct (proj2 (@connect_button_joins_lowercase decode_ascii "DougDoug"
                       (ControlBar.mkGlobals (session true) false) (offline [] 0)))
      as (g1 & w1 & H1 & H2).
    + discriminate.
    + exists g1, w1. split; [exact H1 | exact H2].
Defined.


(* ===================================================================== *)
(** * Actions *)
(* ===================================================================== *)

(** X14.  The three ways a key tap can go.  A tap whose key is not in the
    table, whose duration field does not exist or whose duration is not an
    integer raises before anything is sent to the keyboard.  A tap whose
    sleep raises (a negative duration, for one) has pressed the key by
    then and never releases it.  Every other tap presses the key, sleeps
    for the duration and releases the same key. *)
Theorem tap_outcomes :
  forall (py_int tk_getint : str -> py_result Z) (sleep_error : Z -> option exn)
         (a : Panel.ComputerAction) (s : Panel.Desk) (w : World),
    Panel.actionType a = "keyboard"%string ->
    Panel.keyButtonValue a = "tap"%string ->
    let run := Panel.f_process py_int tk_getint sleep_error a s w in
    (forall e,
        Panel.dict_get Panel.G_KEY_DICTIONARY (Panel.keyName a) = Raise e ->
        run = (Raise e, s, w))
    /\ (forall code,
           Panel.dict_get Panel.G_KEY_DICTIONARY (Panel.keyName a) = Ok code ->
           (Panel.keyTapTime a = None -> exists e, run = (Raise e, s, w))
           /\ (forall text e,
                  Panel.keyTapTime a = Some text ->
                  py_int text = Raise e ->
                  run = (Raise e, s, w))
           /\ (forall text ms e,
                  Panel.keyTapTime a = Some text ->
                  py_int text = Ok ms ->
                  sleep_error ms = Some e ->
                  run = (Raise e,
                         told [Panel.SendInput code Panel.KEYEVENTF_SCANCODE] s,
                         w))
           /\ (forall text ms,
                  Panel.keyTapTime a = Some text ->
                  py_int text = Ok ms ->
                  sleep_error ms = None ->
                  run = (Ok tt,
                         told [Panel.SendInput code Panel.KEYEVENTF_SCANCODE;
                               Panel.TimeSleep (inject_Z ms / 1000);
                               Panel.SendInput code
                                 (Z.lor Panel.KEYEVENTF_SCANCODE
                                        Panel.KEYEVENTF_KEYUP)] s,
                         w))).
Proof.
  intros py_int tk_getint sleep_error a s w Htype Hbutton run.
  unfold run, Panel.f_process. rewrite Htype, Hbutton.
  cbn [String.eqb Ascii.eqb Bool.eqb andb].
  change (String.eqb "keyboard" "keyboard") with true.
  change (String.eqb "tap" "hold") with false.
  change (String.eqb "tap" "release") with false.
  change (String.eqb "tap" "tap") with true. cbv iota.
  split.
  - intros e He. unfold bind, Panel.lift. rewrite He. reflexivity.
  - intros code Hcode. unfold bind at 1, Panel.lift at 1. rewrite Hcode.
    split; [| split; [| split]].
    + intros Hw. rewrite Hw. eexists. reflexivity.
    + intros text e Hw Hint. rewrite Hw. unfold bind, Panel.Text_get, ret,
        Panel.lift. rewrite Hint. reflexivity.
    + intros text ms e Hw Hint Hsleep. rewrite Hw.
      unfold bind, Panel.Text_get, ret, Panel.lift. rewrite Hint.
      unfold Panel.f_tapKey, bind, Panel.f_holdKey, Panel.tell,
        Panel.time_sleep_ms. rewrite Hsleep. reflexivity.
    + intros text ms Hw Hint Hsleep. rewrite Hw.
      unfold bind, Panel.Text_get, ret, Panel.lift. rewrite Hint.
      unfold Panel.f_tapKey, bind, Panel.f_holdKey, Panel.f_releaseKey,
        Panel.tell, Panel.time_sleep_ms. rewrite Hsleep.
      unfold told. cbn. rewrite <- !app_assoc. reflexivity.
Qed.

(** A viewer's command taps SPACE for -5 ms: the key goes down and stays
    down. *)
Lemma tap_outcomes_witness :
  Panel.f_process decimal_int decimal_int sleep_short
                  (tap_action "SPACE" "-5") empty_desk (still_world 0)
  = (Raise (ValueError "sleep length must be non-negative"),
     told [Panel.SendInput 0x39 Panel.KEYEVENTF_SCANCODE] empty_desk,
     still_world 0).
Proof.
  destruct (@tap_outcomes decimal_int decimal_int sleep_short
              (tap_action "SPACE" "-5") empty_desk (still_world 0)
              eq_refl eq_refl) as [_ H].
  destruct (H 0x39%Z eq_refl) as (_ & _ & H3 & _).
  exact (H3 "-5"%string (-5)%Z _ eq_refl eq_refl eq_refl).
Defined.


(** X15.  A wait action never waits.  Processing an action of type
    [wait] raises every time, before any sleep and with nothing injected:
    line 500 hands [int] the method [get] itself, which is a [TypeError]
    once the action is on the screen, and before that there is no widget
    to take the method from. *)
Theorem wait_never_waits :
  forall (py_int tk_getint : str -> py_result Z) (sleep_error : Z -> option exn)
         (a : Panel.ComputerAction) (s : Panel.Desk) (w : World),
    Panel.actionType a = "wait"%string ->
    exists e,
      Panel.f_process py_int tk_getint sleep_error a s w = (Raise e, s, w)
      /\ (forall a0, Panel.ComputerAction_f_draw a0 = Some a ->
                     exists m, e = TypeError m).
Proof.
  intros py_int tk_getint sleep_error a s w Htype.
  unfold Panel.f_process. rewrite Htype.
  change (String.eqb "wait" "keyboard") with false.
  change (String.eqb "wait" "mouse") with false.
  change (String.eqb "wait" "wait") with true. cbv iota.
  destruct (Panel.waitTime a) as [text |] eqn:Ew.
  - eexists. split; [reflexivity |]. eauto.
  - eexists. split; [reflexivity |].
    intros a0 Hdraw. exfalso. unfold Panel.ComputerAction_f_draw in Hdraw.
    destruct (Panel.delete a0); [discriminate |].
    destruct (String.eqb (Panel.actionType a0) "keyboard") eqn:Ek.
    { inversion Hdraw; subst a. cbn in Htype. rewrite Htype in Ek. discriminate. }
    destruct (String.eqb (Panel.actionType a0) "mouse") eqn:Em.
    { inversion Hdraw; subst a. cbn in Htype. rewrite Htype in Em. discriminate. }
    inversion Hdraw; subst a. discriminate.
Qed.

(** The wait action the Add Wait button makes, once drawn. *)
Lemma wait_never_waits_witness :
  exists e,
    Panel.f_process decimal_int decimal_int sleep_short
      (Panel.mkAction "wait" false EmptyString None "500" EmptyString
                      EmptyString None "0" None "0" None "500" (Panel.TInt 0)
                      (Some "500"%string) "500")
      empty_desk (still_world 0)
    = (Raise e, empty_desk, still_world 0).
Proof.
  destruct (@wait_never_waits decimal_int decimal_int sleep_short
              (Panel.mkAction "wait" false EmptyString None "500" EmptyString
                              EmptyString None "0" None "0" None "500"
                              (Panel.TInt 0) (Some "500"%string) "500")
              empty_desk (still_world 0) eq_refl) as (e & H & _).
  exists e. exact H.
Defined.

Lemma dict_get_In (d : list (str * Z)) (k : str) (c : Z) :
  Panel.dict_get d k = Ok c -> In (k, c) d.
Proof.
  induction d as [| [k' v] d IH]; simpl; [discriminate |].
  destruct (String.eqb_spec k' k) as [-> | _].
  - intros H. inversion H. now left.
  - intros H. right. now apply IH.
Qed.

(** X16.  The key table.  No name occurs twice in it; every scan code fits
    one byte; and two names stand for the same key only when they are
    [N.] and [DEL], which share the code 0x53. *)
Theorem key_table_facts :
  NoDup (map fst Panel.G_KEY_DICTIONARY)
  /\ (forall k c,
         Panel.dict_get Panel.G_KEY_DICTIONARY k = Ok c -> (0 <= c <= 255)%Z)
  /\ (forall k1 k2 c,
         Panel.dict_get Panel.G_KEY_DICTIONARY k1 = Ok c ->
         Panel.dict_get Panel.G_KEY_DICTIONARY k2 = Ok c ->
         same_key k1 k2 = true)
  /\ Panel.dict_get Panel.G_KEY_DICTIONARY "N." = Ok 0x53%Z
  /\ Panel.dict_get Panel.G_KEY_DICTIONARY "DEL" = Ok 0x53%Z.
Proof.
  split; [| split; [| split; [| split; reflexivity]]].
  - assert (H : map fst Panel.G_KEY_DICTIONARY
                = nodup string_dec (map fst Panel.G_KEY_DICTIONARY))
      by (vm_compute; reflexivity).
    rewrite H. apply NoDup_nodup.
  - intros k c H. apply dict_get_In in H.
    assert (Hall : forallb (fun p => (0 <=? snd p)%Z && (snd p <=? 255)%Z)
                           Panel.G_KEY_DICTIONARY = true)
      by (vm_compute; reflexivity).
    rewrite forallb_forall in Hall. apply Hall in H. cbn [snd] in H.
    apply andb_true_iff in H as [H1 H2].
    apply Z.leb_le in H1. apply Z.leb_le in H2. auto.
  - intros k1 k2 c H1 H2. apply dict_get_In in H1. apply dict_get_In in H2.
    assert (Hall : forallb
                     (fun p => forallb
                                 (fun q => negb (snd p =? snd q)%Z
                                           || same_key (fst p) (fst q))
                                 Panel.G_KEY_DICTIONARY)
                     Panel.G_KEY_DICTIONARY = true)
      by (vm_compute; reflexivity).
    rewrite forallb_forall in Hall. apply Hall in H1.
    rewrite forallb_forall in H1. apply H1 in H2. cbn [fst snd] in H2.
    rewrite Z.eqb_refl in H2. exact H2.
Qed.

(* ===================================================================== *)
(** * Redraw *)
(* ===================================================================== *)

Lemma saved_saved (widget : option str) (old : str) :
  Panel.saved widget (Panel.saved widget old) = Panel.saved widget old.
Proof. destruct widget; reflexivity. Qed.

Lemma action_settles (a a' : Panel.ComputerAction) :
  Panel.ComputerAction_f_draw (Panel.ComputerAction_f_save a) = Some a' ->
  Panel.ComputerAction_f_draw (Panel.ComputerAction_f_save a') = Some a'
  /\ Panel.delete a' = false.
Proof.
  unfold Panel.ComputerAction_f_draw.
  cbn [Panel.ComputerAction_f_save Panel.delete Panel.actionType
       Panel.keyButtonValue Panel.mouseButtonValue Panel.keyTapTimeSave
       Panel.mouseXSave Panel.mouseYSave Panel.mouseHoldTimeSave
       Panel.waitTimeSave Panel.keyTapTime Panel.keyName Panel.mouseX
       Panel.mouseY Panel.mouseHoldTime Panel.mouseRelative Panel.waitTime].
  destruct (Panel.delete a) eqn:Ed; [discriminate |].
  destruct (String.eqb (Panel.actionType a) "keyboard") eqn:Ek.
  { intros H. inversion H; subst a'; clear H.
    cbn [Panel.ComputerAction_f_save Panel.delete Panel.actionType
         Panel.keyButtonValue Panel.mouseButtonValue Panel.keyTapTimeSave
         Panel.mouseXSave Panel.mouseYSave Panel.mouseHoldTimeSave
         Panel.waitTimeSave Panel.keyTapTime Panel.keyName Panel.mouseX
         Panel.mouseY Panel.mouseHoldTime Panel.mouseRelative Panel.waitTime
         Panel.saved].
    rewrite ?Ed, Ek, !saved_saved. split; [| reflexivity].
    destruct (String.eqb (Panel.keyButtonValue a) "hold"); [reflexivity |].
    destruct (String.eqb (Panel.keyButtonValue a) "release"); reflexivity. }
  destruct (String.eqb (Panel.actionType a) "mouse") eqn:Em.
  { intros H. inversion H; subst a'; clear H.
    cbn [Panel.ComputerAction_f_save Panel.delete Panel.actionType
         Panel.keyButtonValue Panel.mouseButtonValue Panel.keyTapTimeSave
         Panel.mouseXSave Panel.mouseYSave Panel.mouseHoldTimeSave
         Panel.waitTimeSave Panel.keyTapTime Panel.keyName Panel.mouseX
         Panel.mouseY Panel.mouseHoldTime Panel.mouseRelative Panel.waitTime
         Panel.saved].
    rewrite ?Ed, Ek, Em, !saved_saved. split; [| reflexivity].
    destruct (String.eqb (Panel.mouseButtonValue a) "rc"); [reflexivity |].
    destruct (String.eqb (Panel.mouseButtonValue a) "mc"); [reflexivity |].
    destruct (String.eqb (Panel.mouseButtonValue a) "move"); reflexivity. }
  intros H. inversion H; subst a'; clear H.
  cbn [Panel.ComputerAction_f_save Panel.delete Panel.actionType
       Panel.keyButtonValue Panel.mouseButtonValue Panel.keyTapTimeSave
       Panel.mouseXSave Panel.mouseYSave Panel.mouseHoldTimeSave
       Panel.waitTimeSave Panel.keyTapTime Panel.keyName Panel.mouseX
       Panel.mouseY Panel.mouseHoldTime Panel.mouseRelative Panel.waitTime
       Panel.saved].
  rewrite ?Ed, Ek, Em, !saved_saved. split; reflexivity.
Qed.

Lemma actions_settle (l : list Panel.ComputerAction) :
  let l' := Panel.drawn Panel.ComputerAction_f_draw
                        (map Panel.ComputerAction_f_save l) in
  Panel.drawn Panel.ComputerAction_f_draw (map Panel.ComputerAction_f_save l') = l'
  /\ Forall (fun a => Panel.delete a = false) l'.
Proof.
  induction l as [| a l [IH1 IH2]]; cbn [map Panel.drawn].
  - split; [reflexivity | constructor].
  - destruct (Panel.ComputerAction_f_draw (Panel.ComputerAction_f_save a))
      as [a' |] eqn:E.
    + apply action_settles in E as [E1 E2].
      cbn [map Panel.drawn]. rewrite E1. split.
      * f_equal. exact IH1.
      * constructor; [exact E2 | exact IH2].
    + split; [exact IH1 | exact IH2].
Qed.

Lemma command_settles (c c' : Panel.TwitchCommand) :
  Panel.TwitchCommand_f_draw (Panel.TwitchCommand_f_save c) = Some c' ->
  Panel.TwitchCommand_f_draw (Panel.TwitchCommand_f_save c') = Some c'
  /\ on_screen c'.
Proof.
  unfold Panel.TwitchCommand_f_draw.
  cbn [Panel.TwitchCommand_f_save Panel.command_delete Panel.actionList
       Panel.savedText Panel.chatText].
  destruct (Panel.command_delete c) eqn:Ed; [discriminate |].
  intros H. inversion H; subst c'; clear H.
  destruct (actions_settle (Panel.actionList c)) as [A1 A2].
  cbv zeta in A1, A2.
  cbn [Panel.TwitchCommand_f_save Panel.command_delete Panel.actionList
       Panel.savedText Panel.chatText Panel.saved].
  rewrite A1. split; [reflexivity |].
  unfold on_screen. cbn. auto.
Qed.

Lemma commands_settle (l : list Panel.TwitchCommand) :
  Panel.redrawn (Panel.redrawn l) = Panel.redrawn l
  /\ Forall on_screen (Panel.redrawn l).
Proof.
  unfold Panel.redrawn.
  induction l as [| c l [IH1 IH2]]; cbn [map Panel.drawn].
  - split; [reflexivity | constructor].
  - destruct (Panel.TwitchCommand_f_draw (Panel.TwitchCommand_f_save c))
      as [c' |] eqn:E.
    + apply command_settles in E as [E1 E2].
      cbn [map Panel.drawn]. rewrite E1. split.
      * f_equal. exact IH1.
      * constructor; [exact E2 | exact IH2].
    + split; [exact IH1 | exact IH2].
Qed.

Lemma drawn_length (A : Type) (f : A -> option A) (l : list A) :
  (length (Panel.drawn f l) <= length l)%nat.
Proof.
  induction l as [| x l IH]; cbn [Panel.drawn length]; [lia |].
  destruct (f x); cbn [length]; lia.
Qed.

(** X17.  A redraw settles the panel.  Whatever the list of commands
    holds, [f_redraw] returns; afterwards every command of the list is on
    the screen, its text field holding its saved text, and neither a
    command nor an action marked for deletion is left; the list has not
    grown; and a second redraw right after changes nothing. *)
Theorem redraw_settles :
  forall (s : Panel.Desk) (w : World),
    exists s',
      Panel.f_redraw s w = (Ok tt, s', w)
      /\ Panel.effects s' = Panel.effects s
      /\ Forall on_screen (Panel.g_commandList s')
      /\ (length (Panel.g_commandList s') <= length (Panel.g_commandList s))%nat
      /\ Panel.f_redraw s' w = (Ok tt, s', w).
Proof.
  intros s w. eexists. split; [reflexivity |].
  cbn [Panel.effects Panel.g_commandList].
  destruct (commands_settle (Panel.g_commandList s)) as [H1 H2].
  split; [reflexivity |]. split; [exact H2 |]. split.
  - unfold Panel.redrawn.
    etransitivity; [apply drawn_length |]. now rewrite length_map.
  - unfold Panel.f_redraw, bind, get, Panel.set_commandList.
    cbn [Panel.effects Panel.g_commandList]. now rewrite H1.
Qed.


(* ===================================================================== *)
(** * The file: writer against reader *)
(* ===================================================================== *)

Lemma plain_char_spec (c : ascii) :
  plain_char c = true ->
  Ascii.eqb c Panel.COMMA = false
  /\ Ascii.eqb c Panel.DQUOTE = false
  /\ Ascii.eqb c Panel.PIPE = false
  /\ Ascii.eqb c Panel.cCR = false
  /\ Ascii.eqb c Panel.cLF = false.
Proof.
  unfold plain_char. intros H. apply negb_true_iff in H.
  repeat (apply orb_false_iff in H as [H ?]). auto.
Qed.

Lemma plain_spec (t : list ascii) :
  plain t = true ->
  forallb plain_char t = true /\ (Z.of_nat (length t) <= Panel.field_limit)%Z.
Proof.
  unfold plain. intros H. apply andb_true_iff in H as [H1 H2].
  apply Z.leb_le in H2. auto.
Qed.

Lemma write_field_plain (f : list ascii) :
  forallb plain_char f = true -> Panel.write_field f = f.
Proof.
  intros H. unfold Panel.write_field.
  replace (existsb Panel.needs_quotes f) with false; [reflexivity |].
  symmetry. induction f as [| c f IH]; [reflexivity |].
  cbn [forallb existsb] in *. apply andb_true_iff in H as [Hc Hf].
  apply plain_char_spec in Hc as (H1 & H2 & _ & H4 & H5).
  unfold Panel.needs_quotes at 1. rewrite H1, H2, H4, H5. cbn [orb].
  now apply IH.
Qed.

Lemma join_fields_cons (f g : list ascii) (fs : list (list ascii)) :
  forallb plain_char f = true ->
  Panel.join_fields (f :: g :: fs) = f ++ Panel.COMMA :: Panel.join_fields (g :: fs).
Proof. intros H. cbn [Panel.join_fields]. now rewrite write_field_plain. Qed.

Lemma join_fields_one (f : list ascii) :
  forallb plain_char f = true -> Panel.join_fields [f] = f.
Proof. intros H. cbn [Panel.join_fields]. now apply write_field_plain. Qed.

Lemma forallb_of_map (A B : Type) (f : A -> B) (p : B -> bool) (l : list A) :
  forallb p (map f l) = forallb (fun x => p (f x)) l.
Proof.
  induction l as [| x l IH]; [reflexivity |].
  cbn [map forallb]. now rewrite IH.
Qed.

(** The characters of a joined record of plain fields are plain or
    commas: no line end among them. *)
Lemma join_fields_no_eol (fs : list (list ascii)) :
  forallb (fun f => forallb plain_char f) fs = true ->
  forallb (fun c => negb (Panel.is_eol c)) (Panel.join_fields fs) = true.
Proof.
  assert (Hplain : forall f, forallb plain_char f = true ->
                             forallb (fun c => negb (Panel.is_eol c)) f = true).
  { induction f as [| c f IH]; [reflexivity |].
    cbn [forallb]. intros H. apply andb_true_iff in H as [Hc Hf].
    apply plain_char_spec in Hc as (_ & _ & _ & H4 & H5).
    unfold Panel.is_eol at 1. rewrite H4, H5. now apply IH. }
  induction fs as [| f fs IH]; [reflexivity |].
  cbn [forallb]. intros H. apply andb_true_iff in H as [Hf Hfs].
  destruct fs as [| g fs].
  - rewrite join_fields_one by assumption. now apply Hplain.
  - rewrite join_fields_cons by assumption.
    rewrite forallb_app. rewrite Hplain by assumption.
    cbn [forallb andb]. rewrite IH by assumption. reflexivity.
Qed.

Lemma lines_from_body (body rest acc : list ascii) :
  forallb (fun c => negb (Panel.is_eol c)) body = true ->
  Panel.lines_from acc (body ++ Panel.cCR :: Panel.cLF :: rest)
  = (acc ++ body ++ [Panel.cCR; Panel.cLF]) :: Panel.lines_from [] rest.
Proof.
  revert acc. induction body as [| c body IH]; intros acc H.
  - reflexivity.
  - cbn [forallb] in H. apply andb_true_iff in H as [Hc Hbody].
    apply negb_true_iff in Hc. unfold Panel.is_eol in Hc.
    apply orb_false_iff in Hc as [H1 H2].
    cbn [app Panel.lines_from]. rewrite H1, H2.
    rewrite IH by assumption. now rewrite <- app_assoc.
Qed.

(** A joined record is never empty when it has two fields. *)
Lemma writerow_plain (row : list Panel.cell) :
  plain_row row = true ->
  Panel.writerow row
  = Panel.join_fields (map Panel.cell_text row) ++ [Panel.cCR; Panel.cLF].
Proof.
  unfold plain_row, Panel.writerow. intros H.
  apply andb_true_iff in H as [Hlen Hall].
  destruct row as [| v [| v' row]]; try discriminate.
  cbn [map forallb] in *. apply andb_true_iff in Hall as [Hv _].
  apply plain_spec in Hv as [Hv _].
  rewrite join_fields_cons by assumption.
  destruct (Panel.cell_text v); reflexivity.
Qed.

Lemma lines_of_file (rows : list (list Panel.cell)) :
  forallb plain_row rows = true ->
  Panel.lines_from [] (file_text rows) = map Panel.writerow rows.
Proof.
  unfold file_text. induction rows as [| row rows IH]; [reflexivity |].
  cbn [forallb map concat]. intros H. apply andb_true_iff in H as [Hrow Hrows].
  rewrite (writerow_plain _ Hrow). rewrite <- app_assoc.
  cbn [app]. rewrite lines_from_body.
  - cbn [app]. now rewrite IH.
  - apply join_fields_no_eol. rewrite forallb_of_map.
    unfold plain_row in Hrow. apply andb_true_iff in Hrow as [_ Hall].
    rewrite forallb_forall in Hall. apply forallb_forall.
    intros v Hv. apply Hall in Hv. now apply plain_spec in Hv.
Qed.

Lemma rplain_char_spec (c : ascii) :
  rplain_char c = true ->
  Ascii.eqb c Panel.COMMA = false
  /\ Ascii.eqb c Panel.PIPE = false
  /\ Ascii.eqb c Panel.cCR = false
  /\ Ascii.eqb c Panel.cLF = false.
Proof.
  unfold rplain_char. intros H. apply negb_true_iff in H.
  repeat (apply orb_false_iff in H as [H ?]). auto.
Qed.

Lemma rplain_spec (t : list ascii) :
  rplain t = true ->
  forallb rplain_char t = true /\ (Z.of_nat (length t) <= Panel.field_limit)%Z.
Proof.
  unfold rplain. intros H. apply andb_true_iff in H as [H1 H2].
  apply Z.leb_le in H2. auto.
Qed.

Lemma plain_rplain (t : list ascii) : plain t = true -> rplain t = true.
Proof.
  unfold plain, rplain. intros H. apply andb_true_iff in H as [H1 H2].
  rewrite H2, andb_true_r. rewrite forallb_forall in H1.
  apply forallb_forall. intros c Hc. apply H1 in Hc.
  apply plain_char_spec in Hc as (E1 & _ & E3 & E4 & E5).
  unfold rplain_char. now rewrite E1, E3, E4, E5.
Qed.

Section ReaderFacts.

Let parse := Panel.parse_line Panel.COMMA Panel.PIPE.

Lemma parse_in_field (f fld rest : list ascii) (flds : list (list ascii)) :
  forallb rplain_char f = true ->
  (Z.of_nat (length fld + length f) <= Panel.field_limit)%Z ->
  parse (f ++ rest) (Panel.mkParser Panel.IN_FIELD fld flds)
  = parse rest (Panel.mkParser Panel.IN_FIELD (fld ++ f) flds).
Proof.
  revert fld. induction f as [| c f IH]; intros fld Hf Hlen.
  - now rewrite app_nil_r.
  - cbn [forallb] in Hf. apply andb_true_iff in Hf as [Hc Hf].
    apply rplain_char_spec in Hc as (H1 & _ & H4 & H5).
    cbn [app]. unfold parse. cbn [Panel.parse_line].
    unfold Panel.parse_process_char. cbn [Panel.state].
    unfold Panel.at_end, Panel.is_eol, Panel.is_char. rewrite H5, H4, H1.
    cbn [orb]. unfold Panel.parse_add_char. cbn [Panel.field Panel.state Panel.fields].
    destruct (Z.leb_spec Panel.field_limit (Z.of_nat (length fld))) as [Hbad | _].
    { cbn [length] in Hlen. lia. }
    fold parse. rewrite IH; [| assumption | rewrite length_app; cbn [length] in *; lia].
    now rewrite <- app_assoc.
Qed.

(** A field read from the start of a field. *)
Lemma parse_field (f rest : list ascii) (flds : list (list ascii)) :
  rplain f = true ->
  parse (f ++ rest) (Panel.mkParser Panel.START_FIELD [] flds)
  = parse rest (Panel.mkParser (match f with
                                | [] => Panel.START_FIELD
                                | _ => Panel.IN_FIELD
                                end) f flds).
Proof.
  intros Hf. apply rplain_spec in Hf as [Hf Hlen].
  destruct f as [| c f]; [reflexivity |].
  cbn [forallb] in Hf. apply andb_true_iff in Hf as [Hc Hf].
  apply rplain_char_spec in Hc as (H1 & H3 & H4 & H5).
  cbn [app]. unfold parse. cbn [Panel.parse_line].
  unfold Panel.parse_process_char. cbn [Panel.state].
  unfold Panel.start_field, Panel.at_end, Panel.is_eol, Panel.is_char.
  rewrite H5, H4, H3, H1. cbn [orb].
  unfold Panel.parse_add_char, Panel.set_state.
  cbn [Panel.field Panel.state Panel.fields length].
  change (Panel.field_limit <=? Z.of_nat 0)%Z with false. cbv iota.
  fold parse. apply parse_in_field; [assumption |].
  cbn [length app Panel.field] in *. lia.
Qed.

(** The comma after a field. *)
Lemma parse_comma (f rest : list ascii) (flds : list (list ascii)) :
  parse (Panel.COMMA :: rest)
        (Panel.mkParser (match f with
                         | [] => Panel.START_FIELD
                         | _ => Panel.IN_FIELD
                         end) f flds)
  = parse rest (Panel.mkParser Panel.START_FIELD [] (flds ++ [f])).
Proof. destruct f; reflexivity. Qed.

(** The end of the line after a field. *)
Lemma parse_end (f : list ascii) (flds : list (list ascii)) :
  parse [Panel.cCR; Panel.cLF]
        (Panel.mkParser (match f with
                         | [] => Panel.START_FIELD
                         | _ => Panel.IN_FIELD
                         end) f flds)
  = Ok (Panel.mkParser Panel.START_RECORD [] (flds ++ [f])).
Proof. destruct f; reflexivity. Qed.

Lemma parse_fields (fs : list (list ascii)) :
  forall (f : list ascii) (flds : list (list ascii)),
    forallb plain (f :: fs) = true ->
    parse (Panel.join_fields (f :: fs) ++ [Panel.cCR; Panel.cLF])
          (Panel.mkParser Panel.START_FIELD [] flds)
    = Ok (Panel.mkParser Panel.START_RECORD [] (flds ++ f :: fs)).
Proof.
  induction fs as [| g fs IH]; intros f flds H.
  - cbn [forallb] in H. apply andb_true_iff in H as [Hf _].
    rewrite join_fields_one by (now apply plain_spec in Hf).
    rewrite parse_field by (now apply plain_rplain). apply parse_end.
  - cbn [forallb] in H. apply andb_true_iff in H as [Hf Hrest].
    rewrite join_fields_cons by (now apply plain_spec in Hf).
    rewrite <- app_assoc. rewrite parse_field by (now apply plain_rplain).
    cbn [app]. rewrite parse_comma. rewrite IH by exact Hrest.
    now rewrite <- app_assoc.
Qed.

(** The first character of a record with two fields starts a field. *)
Lemma parse_from_reset (f g : list ascii) (fs : list (list ascii)) :
  forallb plain (f :: g :: fs) = true ->
  parse (Panel.join_fields (f :: g :: fs) ++ [Panel.cCR; Panel.cLF])
        Panel.parse_reset
  = Ok (Panel.mkParser Panel.START_RECORD [] (f :: g :: fs)).
Proof.
  intros H.
  transitivity (parse (Panel.join_fields (f :: g :: fs) ++ [Panel.cCR; Panel.cLF])
                      (Panel.mkParser Panel.START_FIELD [] []));
    [| exact (parse_fields (g :: fs) f [] H)].
  cbn [forallb] in H. apply andb_true_iff in H as [Hf _].
  apply plain_spec in Hf as [Hf _].
  rewrite join_fields_cons by assumption. rewrite <- app_assoc.
  destruct f as [| c f]; [reflexivity |].
  cbn [forallb] in Hf. apply andb_true_iff in Hf as [Hc _].
  apply plain_char_spec in Hc as (_ & _ & _ & H4 & H5).
  cbn [app]. unfold parse. cbn [Panel.parse_line].
  unfold Panel.parse_process_char. cbn [Panel.state Panel.parse_reset].
  unfold Panel.is_eol at 1. rewrite H5, H4. reflexivity.
Qed.

(** The same for fields that may hold quotation marks, joined as they
    are. *)
Lemma parse_joined (fs : list (list ascii)) :
  forall (f : list ascii) (flds : list (list ascii)),
    forallb rplain (f :: fs) = true ->
    parse (joined (f :: fs) ++ [Panel.cCR; Panel.cLF])
          (Panel.mkParser Panel.START_FIELD [] flds)
    = Ok (Panel.mkParser Panel.START_RECORD [] (flds ++ f :: fs)).
Proof.
  induction fs as [| g fs IH]; intros f flds H.
  - cbn [forallb] in H. apply andb_true_iff in H as [Hf _].
    cbn [joined]. rewrite parse_field by assumption. apply parse_end.
  - cbn [forallb] in H. apply andb_true_iff in H as [Hf Hrest].
    change (joined (f :: g :: fs)) with (f ++ Panel.COMMA :: joined (g :: fs)).
    rewrite <- app_assoc. rewrite parse_field by assumption.
    cbn [app]. rewrite parse_comma. rewrite IH by exact Hrest.
    now rewrite <- app_assoc.
Qed.

Lemma parse_joined_reset (c : ascii) (f g : list ascii) (fs : list (list ascii)) :
  forallb rplain ((c :: f) :: g :: fs) = true ->
  parse (joined ((c :: f) :: g :: fs) ++ [Panel.cCR; Panel.cLF])
        Panel.parse_reset
  = Ok (Panel.mkParser Panel.START_RECORD [] ((c :: f) :: g :: fs)).
Proof.
  intros H.
  transitivity (parse (joined ((c :: f) :: g :: fs) ++ [Panel.cCR; Panel.cLF])
                      (Panel.mkParser Panel.START_FIELD [] []));
    [| exact (parse_joined (g :: fs) (c :: f) [] H)].
  cbn [forallb] in H. apply andb_true_iff in H as [Hf _].
  apply rplain_spec in Hf as [Hf _].
  cbn [forallb] in Hf. apply andb_true_iff in Hf as [Hc _].
  apply rplain_char_spec in Hc as (_ & _ & H4 & H5).
  change (joined ((c :: f) :: g :: fs))
    with (c :: f ++ Panel.COMMA :: joined (g :: fs)).
  cbn [app]. unfold parse. cbn [Panel.parse_line].
  unfold Panel.parse_process_char. cbn [Panel.state Panel.parse_reset].
  unfold Panel.is_eol at 1. rewrite H5, H4. reflexivity.
Qed.

Lemma reader_rows_plain (rows : list (list Panel.cell)) :
  forallb plain_row rows = true ->
  Panel.reader_rows Panel.COMMA Panel.PIPE Panel.parse_reset
                    (map Panel.writerow rows)
  = Ok (map (map Panel.cell_text) rows).
Proof.
  induction rows as [| row rows IH]; [reflexivity |].
  cbn [forallb map]. intros H. apply andb_true_iff in H as [Hrow Hrows].
  rewrite (writerow_plain _ Hrow).
  unfold plain_row in Hrow. apply andb_true_iff in Hrow as [Hlen Hall].
  destruct row as [| v [| v' row]]; try discriminate.
  cbn [Panel.reader_rows]. fold parse.
  cbn [map]. rewrite parse_from_reset.
  - cbn [Panel.state Panel.fields]. now rewrite (IH Hrows).
  - cbn [forallb] in *. rewrite forallb_of_map. exact Hall.
Qed.

End ReaderFacts.

Lemma list_ascii_round (l : list ascii) :
  list_ascii_of_string (string_of_list_ascii l) = l.
Proof. apply list_ascii_of_string_of_list_ascii. Qed.

Lemma reader_of_file (rows : list (list Panel.cell)) :
  forallb plain_row rows = true ->
  Panel.reader Panel.COMMA Panel.PIPE (string_of_list_ascii (file_text rows))
  = Ok (map row_strings rows).
Proof.
  intros H. unfold Panel.reader.
  rewrite list_ascii_round, lines_of_file, reader_rows_plain by assumption.
  f_equal. rewrite map_map. apply map_ext. intros row.
  unfold row_strings. now rewrite map_map.
Qed.

(** X18.  The reader undoes the writer on plain rows.  The program writes
    its file with the default dialect, which quotes with quotation marks,
    and reads it with a dialect that quotes with vertical bars.  Rows of
    at least two values whose texts hold no comma, quotation mark,
    vertical bar or line end, and stay within the field limit, written one
    after the other and read back, come out as the same rows of
    strings. *)
Theorem reader_undoes_writer :
  forall rows : list (list Panel.cell),
    forallb plain_row rows = true ->
    Panel.reader Panel.COMMA Panel.PIPE (string_of_list_ascii (file_text rows))
    = Ok (map row_strings rows).
Proof. exact reader_of_file. Qed.

Lemma reader_undoes_writer_witness :
  Panel.reader Panel.COMMA Panel.PIPE
    (string_of_list_ascii
       (file_text [[Panel.CStr "command"; Panel.CStr "!jump"; Panel.CInt 1];
                   [Panel.CStr "keyboard"; Panel.CStr "tap"; Panel.CStr "500";
                    Panel.CStr "SPACE"]]))
  = Ok [["command"; "!jump"; "1"]%string;
        ["keyboard"; "tap"; "500"; "SPACE"]%string].
Proof.
  exact (@reader_undoes_writer
           [[Panel.CStr "command"; Panel.CStr "!jump"; Panel.CInt 1];
            [Panel.CStr "keyboard"; Panel.CStr "tap"; Panel.CStr "500";
             Panel.CStr "SPACE"]] eq_refl).
Defined.


(* ===================================================================== *)
(** * Save, then load *)
(* ===================================================================== *)

Lemma told_nil (s : Panel.Desk) : told [] s = s.
Proof. destruct s. unfold told. cbn. now rewrite app_nil_r. Qed.

Lemma told_told (es1 es2 : list Panel.effect) (s : Panel.Desk) :
  told es2 (told es1 s) = told (es1 ++ es2) s.
Proof. unfold told. cbn. now rewrite app_assoc. Qed.

Lemma tell_told (e : Panel.effect) (s : Panel.Desk) (w : World) :
  Panel.tell e s w = (Ok tt, told [e] s, w).
Proof. reflexivity. Qed.

Lemma tell_all (A : Type) (f : A -> Panel.effect) (l : list A)
      (s : Panel.Desk) (w : World) :
  for_each l (fun x => Panel.tell (f x)) s w = (Ok tt, told (map f l) s, w).
Proof.
  revert s. induction l as [| x l IH]; intros s; cbn [for_each map].
  - now rewrite told_nil.
  - unfold bind. rewrite tell_told, IH, told_told. reflexivity.
Qed.

Section SaveFacts.

Variable tk_getint : str -> py_result Z.

Lemma saveData_action (a : Panel.ComputerAction) (s : Panel.Desk) (w : World) :
  (exists n, relative tk_getint a = Ok n) ->
  Panel.ComputerAction_f_saveData tk_getint a s w
  = (Ok (action_row tk_getint a), s, w).
Proof.
  intros [n Hn]. unfold Panel.ComputerAction_f_saveData, action_row.
  destruct (String.eqb (Panel.actionType a) "keyboard"); [reflexivity |].
  destruct (String.eqb (Panel.actionType a) "mouse").
  - unfold bind, Panel.IntVar_get, checked. unfold relative in *.
    destruct (Panel.mouseRelative a) as [m | t].
    + reflexivity.
    + unfold Panel.lift. rewrite Hn. reflexivity.
  - destruct (String.eqb (Panel.actionType a) "wait"); reflexivity.
Qed.

Lemma saveData_actions (l : list Panel.ComputerAction) (s : Panel.Desk)
      (w : World) :
  Forall (fun a => known_kind a = true
                   /\ exists n, relative tk_getint a = Ok n) l ->
  Panel.collect (Panel.ComputerAction_f_saveData tk_getint) l s w
  = (Ok (map (action_row tk_getint) l), s, w).
Proof.
  induction 1 as [| a l [_ Ha] _ IH]; [reflexivity |].
  cbn [Panel.collect map]. unfold bind at 1.
  rewrite saveData_action by assumption.
  unfold bind at 1. rewrite IH. reflexivity.
Qed.

Lemma save_commands (l : list Panel.TwitchCommand) :
  forall (s : Panel.Desk) (w : World),
    Forall (savable tk_getint) l ->
    for_each l
      (fun i_command =>
         l_commandData <- Panel.TwitchCommand_f_saveData tk_getint i_command ;;
         match l_commandData with
         | [l_text; l_count] :: l_actions =>
             Panel.tell (Panel.FileWrite
                           (Panel.writerow [Panel.CStr "command"; l_text; l_count])) ;;
             for_each l_actions
                      (fun i_actionData =>
                         Panel.tell (Panel.FileWrite (Panel.writerow i_actionData)))
         | _ => raise (IndexError "list index out of range")
         end)%py s w
    = (Ok tt,
       told (map (fun row => Panel.FileWrite (Panel.writerow row))
                 (panel_rows tk_getint l)) s,
       w).
Proof.
  induction l as [| c l IH]; intros s w Hall.
  - cbn. now rewrite told_nil.
  - inversion Hall as [| ? ? Hacts Hrest]; subst.
    unfold savable in Hacts.
    cbn [for_each]. unfold bind at 1. unfold bind at 1.
    unfold Panel.TwitchCommand_f_saveData, bind at 1.
    rewrite saveData_actions by assumption. unfold ret at 1.
    unfold bind at 1. rewrite tell_told.
    rewrite (tell_all (fun row => Panel.FileWrite (Panel.writerow row))).
    rewrite IH by assumption. rewrite !told_told.
    unfold panel_rows. cbn [flat_map]. unfold command_rows at 2.
    cbn [map app]. rewrite map_app. reflexivity.
Qed.

Lemma written_from_app (es1 es2 : list Panel.effect) (acc : list ascii) :
  written_from acc (es1 ++ es2) = written_from (written_from acc es1) es2.
Proof.
  revert acc. induction es1 as [| e es1 IH]; intros acc; [reflexivity |].
  destruct e; cbn [app written_from]; apply IH.
Qed.

Lemma written_from_writes (ts : list (list ascii)) (acc : list ascii) :
  written_from acc (map Panel.FileWrite ts) = acc ++ concat ts.
Proof.
  revert acc. induction ts as [| t ts IH]; intros acc; cbn [map written_from concat].
  - now rewrite app_nil_r.
  - rewrite IH. now rewrite app_assoc.
Qed.

Lemma storable_savable (l : list Panel.TwitchCommand) :
  Forall (storable tk_getint) l -> Forall (savable tk_getint) l.
Proof.
  intros H. eapply Forall_impl; [| exact H].
  intros c [Hc _]. exact Hc.
Qed.

(** What [f_handleSave] does on a panel it can write. *)
Lemma f_handleSave_run (l_filePath : str) (s : Panel.Desk) (w : World) :
  Forall (savable tk_getint) (Panel.redrawn (Panel.g_commandList s)) ->
  exists s1,
    Panel.f_handleSave tk_getint l_filePath s w = (Ok tt, s1, w)
    /\ Panel.g_commandList s1 = Panel.redrawn (Panel.g_commandList s)
    /\ written (Panel.effects s1)
       = string_of_list_ascii
           (file_text (panel_rows tk_getint (Panel.g_commandList s1))).
Proof.
  intros Hall. unfold Panel.f_handleSave.
  unfold bind at 1. unfold Panel.f_redraw at 1, bind at 1, get at 1,
    Panel.set_commandList at 1.
  unfold bind at 1. rewrite tell_told.
  unfold bind at 1. rewrite tell_told.
  unfold bind at 1, get at 1.
  cbn [told Panel.g_commandList Panel.effects].
  rewrite save_commands by exact Hall.
  eexists. split; [reflexivity |]. split; [reflexivity |].
  unfold written, told. cbn [Panel.effects Panel.g_commandList].
  f_equal. rewrite <- !app_assoc. cbn [app].
  rewrite written_from_app. cbn [written_from].
  rewrite <- (map_map Panel.writerow Panel.FileWrite).
  rewrite written_from_writes. reflexivity.
Qed.

End SaveFacts.


Lemma str_round (s : str) : string_of_list_ascii (list_ascii_of_string s) = s.
Proof. apply string_of_list_ascii_of_string. Qed.

(** [l[lo:hi]] cut out of the middle of a list. *)
Lemma slice_middle (A : Type) (pre mid post : list A) (lo hi : Z) :
  lo = Z.of_nat (length pre) ->
  hi = Z.of_nat (length pre + length mid) ->
  slice (pre ++ mid ++ post) lo hi = mid.
Proof.
  intros -> ->. unfold slice.
  rewrite !slice_index_pos by lia. rewrite !Nat2Z.id, !length_app.
  rewrite !Nat.min_l by lia.
  replace (length pre + length mid - length pre)%nat with (length mid) by lia.
  rewrite skipn_app, skipn_all, Nat.sub_diag. cbn [app skipn].
  apply firstn_exact.
Qed.

Section LoadFacts.

Variable py_int tk_getint : str -> py_result Z.
Hypothesis py_int_count :
  forall n : nat, py_int (format_int (Z.of_nat n)) = Ok (Z.of_nat n).

Lemma row_strings_action (a : Panel.ComputerAction) :
  row_strings (action_row tk_getint a)
  = Panel.actionType a :: tl (row_strings (action_row tk_getint a)).
Proof. unfold row_strings, action_row. cbn [map tl Panel.cell_text]. now rewrite str_round. Qed.

Lemma init_of_row (a : Panel.ComputerAction) (s : Panel.Desk) (w : World) :
  Panel.ComputerAction_init (Panel.actionType a)
    (Some (tl (row_strings (action_row tk_getint a)))) s w
  = (Ok (reloaded_action tk_getint a), s, w).
Proof.
  unfold Panel.ComputerAction_init, reloaded_action, row_strings, action_row.
  cbn [Panel.actionType Panel.ComputerAction_new].
  destruct (String.eqb (Panel.actionType a) "keyboard").
  { cbn [map tl Panel.cell_text]. rewrite !str_round. reflexivity. }
  destruct (String.eqb (Panel.actionType a) "mouse").
  { cbn [map tl Panel.cell_text]. rewrite !str_round. reflexivity. }
  destruct (String.eqb (Panel.actionType a) "wait").
  { cbn [map tl Panel.cell_text]. rewrite !str_round. reflexivity. }
  reflexivity.
Qed.

Lemma init_of_rows (text : str) (l : list Panel.ComputerAction) :
  forall (s : Panel.Desk) (w : World),
    Panel.collect
      (fun i_action =>
         l_type <- Panel.item i_action 0 ;;
         Panel.tell (Panel.PanelPrint (Panel.PAddingAction l_type (tl i_action))) ;;
         Panel.ComputerAction_init l_type (Some (tl i_action)))%py
      (map row_strings (map (action_row tk_getint) l)) s w
    = (Ok (map (reloaded_action tk_getint) l),
       told (map (fun a => Panel.PanelPrint
                             (Panel.PAddingAction (Panel.actionType a)
                                (tl (row_strings (action_row tk_getint a))))) l) s,
       w).
Proof.
  induction l as [| a l IH]; intros s w.
  - cbn. now rewrite told_nil.
  - cbn [map Panel.collect]. unfold bind at 1. unfold bind at 1.
    rewrite row_strings_action at 1. unfold Panel.item at 1.
    cbn [nth_error]. unfold ret at 1. unfold bind at 1.
    rewrite row_strings_action at 1. cbn [tl].
    rewrite tell_told. rewrite row_strings_action at 1. cbn [tl].
    rewrite init_of_row. unfold bind at 1. rewrite IH.
    rewrite told_told. reflexivity.
Qed.

Lemma init_of_command (c : Panel.TwitchCommand) (s : Panel.Desk) (w : World) :
  Panel.TwitchCommand_init (Panel.savedText c)
    (map row_strings (map (action_row tk_getint) (Panel.actionList c))) s w
  = (Ok (reloaded tk_getint c), told (adding_lines tk_getint c) s, w).
Proof.
  unfold Panel.TwitchCommand_init, bind at 1.
  rewrite (init_of_rows (Panel.savedText c)). reflexivity.
Qed.

Lemma known_not_command (a : Panel.ComputerAction) :
  known_kind a = true -> String.eqb (Panel.actionType a) "command" = false.
Proof.
  unfold known_kind. intros H.
  apply orb_true_iff in H as [H | H]; [apply orb_true_iff in H as [H | H] |];
    apply String.eqb_eq in H; rewrite H; reflexivity.
Qed.

(** The rows of actions are passed over by the loop. *)
Lemma load_rows_skip (table rest : list (list str))
      (l : list Panel.ComputerAction) :
  forall (i : nat) (s : Panel.Desk) (w : World),
    Forall (fun a => known_kind a = true) l ->
    Panel.load_rows py_int table i
      (map row_strings (map (action_row tk_getint) l) ++ rest) s w
    = Panel.load_rows py_int table (i + length l) rest s w.
Proof.
  induction l as [| a l IH]; intros i s w Hall.
  - cbn. now rewrite Nat.add_0_r.
  - inversion Hall as [| ? ? Ha Hl]; subst.
    cbn [map app Panel.load_rows]. unfold bind at 1. unfold bind at 1.
    rewrite row_strings_action at 1. unfold Panel.item at 1.
    cbn [nth_error]. unfold ret at 1.
    rewrite known_not_command by assumption. unfold ret at 1.
    rewrite IH by assumption. cbn [length]. f_equal. lia.
Qed.

Lemma panel_rows_app (l1 l2 : list Panel.TwitchCommand) :
  panel_rows tk_getint (l1 ++ l2)
  = panel_rows tk_getint l1 ++ panel_rows tk_getint l2.
Proof. unfold panel_rows. apply flat_map_app. Qed.

Lemma header_strings (text : str) (n : Z) :
  row_strings [Panel.CStr "command"; Panel.CStr text; Panel.CInt n]
  = ["command"%string; text; format_int n].
Proof.
  unfold row_strings. cbn [map Panel.cell_text]. now rewrite !str_round.
Qed.

Lemma load_rows_run (cmds : list Panel.TwitchCommand) :
  forall (done : list Panel.TwitchCommand) (s : Panel.Desk) (w : World),
    Forall (fun c => Forall (fun a => known_kind a = true) (Panel.actionList c))
           cmds ->
    Panel.load_rows py_int
      (map row_strings (panel_rows tk_getint (done ++ cmds)))
      (length (panel_rows tk_getint done))
      (map row_strings (panel_rows tk_getint cmds)) s w
    = (Ok tt,
       Panel.mkDesk (Panel.g_commandList s ++ map (reloaded tk_getint) cmds)
                    (Panel.effects s ++ flat_map (adding_lines tk_getint) cmds),
       w).
Proof.
  induction cmds as [| c cmds IH]; intros done s w Hall.
  - cbn. rewrite !app_nil_r. destruct s; reflexivity.
  - inversion Hall as [| ? ? Hc Hrest]; subst.
    set (table := map row_strings (panel_rows tk_getint (done ++ c :: cmds))).
    unfold panel_rows at 2. cbn [flat_map]. fold (panel_rows tk_getint cmds).
    unfold command_rows at 1. cbn [app map]. rewrite header_strings.
    cbn [Panel.load_rows]. unfold bind at 1. unfold bind at 1.
    unfold Panel.item at 1. cbn [nth_error]. unfold ret at 1.
    change (String.eqb "command" "command") with true. cbv iota.
    unfold bind at 1. unfold Panel.item at 1. cbn [nth_error]. unfold ret at 1.
    unfold bind at 1. unfold Panel.item at 1. cbn [nth_error]. unfold ret at 1.
    unfold bind at 1. unfold Panel.lift at 1. rewrite py_int_count.
    assert (Hslice :
              slice table (Z.of_nat (length (panel_rows tk_getint done)) + 1)
                    (Z.of_nat (length (panel_rows tk_getint done))
                     + Z.of_nat (length (Panel.actionList c)) + 1)
              = map row_strings (map (action_row tk_getint) (Panel.actionList c))).
    { assert (Htable :
                table
                = (map row_strings (panel_rows tk_getint done)
                   ++ [row_strings
                         [Panel.CStr "command"; Panel.CStr (Panel.savedText c);
                          Panel.CInt (Z.of_nat (length (Panel.actionList c)))]])
                  ++ map row_strings (map (action_row tk_getint) (Panel.actionList c))
                  ++ map row_strings (panel_rows tk_getint cmds)).
      { unfold table. rewrite panel_rows_app.
        unfold panel_rows at 2. cbn [flat_map]. fold (panel_rows tk_getint cmds).
        unfold command_rows at 1. rewrite map_app. cbn [map app].
        rewrite map_app, <- app_assoc. reflexivity. }
      rewrite Htable. apply slice_middle.
      - rewrite length_app, !length_map. cbn [length]. lia.
      - rewrite length_app, !length_map. cbn [length]. lia. }
    rewrite Hslice. unfold bind at 1. rewrite init_of_command.
    unfold bind at 1, get at 1. unfold Panel.set_commandList at 1.
    rewrite map_app. rewrite load_rows_skip by assumption.
    replace (S (length (panel_rows tk_getint done)) + length (Panel.actionList c))%nat
      with (length (panel_rows tk_getint (done ++ [c]))).
    2: { rewrite panel_rows_app, length_app. unfold panel_rows at 2.
         cbn [flat_map]. rewrite app_nil_r. unfold command_rows.
         cbn [length]. rewrite length_map. lia. }
    unfold table.
    replace (done ++ c :: cmds) with ((done ++ [c]) ++ cmds)
      by (rewrite <- app_assoc; reflexivity).
    rewrite IH by assumption.
    cbn [Panel.g_commandList Panel.effects told flat_map map].
    rewrite <- !app_assoc. reflexivity.
Qed.

End LoadFacts.


Section RestoreFacts.

Variable tk_getint : str -> py_result Z.
Hypothesis tk_getint_text : forall n : Z, tk_getint (format_int n) = Ok n.

Lemma reloaded_not_deleted (a : Panel.ComputerAction) :
  Panel.delete (Panel.ComputerAction_f_save (reloaded_action tk_getint a)) = false.
Proof.
  unfold reloaded_action.
  destruct (String.eqb (Panel.actionType a) "keyboard"); [reflexivity |].
  destruct (String.eqb (Panel.actionType a) "mouse"); [reflexivity |].
  destruct (String.eqb (Panel.actionType a) "wait"); reflexivity.
Qed.

Lemma draw_reloaded_action (a : Panel.ComputerAction) :
  Panel.ComputerAction_f_draw
    (Panel.ComputerAction_f_save (reloaded_action tk_getint a))
  = Some (restored_action tk_getint a).
Proof.
  unfold restored_action.
  destruct (Panel.ComputerAction_f_draw _) as [a' |] eqn:E; [reflexivity |].
  unfold Panel.ComputerAction_f_draw in E.
  rewrite reloaded_not_deleted in E.
  destruct (String.eqb _ "keyboard"); [discriminate |].
  destruct (String.eqb _ "mouse"); discriminate.
Qed.

Lemma draw_reloaded_actions (l : list Panel.ComputerAction) :
  Panel.drawn Panel.ComputerAction_f_draw
              (map Panel.ComputerAction_f_save
                   (map (reloaded_action tk_getint) l))
  = map (restored_action tk_getint) l.
Proof.
  induction l as [| a l IH]; [reflexivity |].
  cbn [map Panel.drawn]. now rewrite draw_reloaded_action, IH.
Qed.

Lemma redrawn_reloaded (l : list Panel.TwitchCommand) :
  Panel.redrawn (map (reloaded tk_getint) l) = map (restored tk_getint) l.
Proof.
  unfold Panel.redrawn. induction l as [| c l IH]; [reflexivity |].
  cbn [map Panel.drawn]. rewrite IH.
  unfold Panel.TwitchCommand_f_draw, reloaded, restored.
  cbn [Panel.TwitchCommand_f_save Panel.command_delete Panel.actionList
       Panel.savedText Panel.chatText Panel.saved].
  now rewrite draw_reloaded_actions.
Qed.

Lemma normal_key_button (v : str) :
  String.eqb v "hold" || String.eqb v "release" || String.eqb v "tap" = true ->
  (if String.eqb v "hold" then "hold"%string
   else if String.eqb v "release" then "release"%string else "tap"%string) = v.
Proof.
  destruct (String.eqb_spec v "hold") as [-> | _]; [reflexivity |].
  destruct (String.eqb_spec v "release") as [-> | _]; [reflexivity |].
  destruct (String.eqb_spec v "tap") as [-> | _]; [reflexivity | discriminate].
Qed.

Lemma normal_mouse_button (v : str) :
  String.eqb v "lc" || String.eqb v "rc" || String.eqb v "mc"
  || String.eqb v "move" = true ->
  (if String.eqb v "rc" then "rc"%string
   else if String.eqb v "mc" then "mc"%string
        else if String.eqb v "move" then "move"%string else "lc"%string) = v.
Proof.
  destruct (String.eqb_spec v "rc") as [-> | _]; [reflexivity |].
  destruct (String.eqb_spec v "mc") as [-> | _]; [reflexivity |].
  destruct (String.eqb_spec v "move") as [-> | _]; [reflexivity |].
  destruct (String.eqb_spec v "lc") as [-> | _]; [reflexivity | discriminate].
Qed.

(** A loaded and drawn action stands for the row it was loaded from. *)
Lemma restored_row (a : Panel.ComputerAction) :
  buttons_ok a = true ->
  (exists n, relative tk_getint a = Ok n) ->
  action_row tk_getint (restored_action tk_getint a) = action_row tk_getint a
  /\ Panel.actionType (restored_action tk_getint a) = Panel.actionType a
  /\ exists n, relative tk_getint (restored_action tk_getint a) = Ok n.
Proof.
  intros Hb [n Hn]. unfold buttons_ok in Hb.
  apply andb_true_iff in Hb as [Hk Hm].
  unfold restored_action, reloaded_action, Panel.ComputerAction_f_draw.
  destruct (String.eqb (Panel.actionType a) "keyboard") eqn:Ek.
  { cbn [negb orb] in Hk. apply normal_key_button in Hk.
    cbn [Panel.ComputerAction_f_save Panel.with_keyboard Panel.ComputerAction_new
         Panel.delete Panel.actionType Panel.keyButtonValue Panel.keyTapTimeSave
         Panel.keyTapTime Panel.saved].
    rewrite Ek, Hk. unfold action_row, relative.
    cbn [Panel.actionType Panel.keyButtonValue Panel.keyTapTimeSave Panel.keyName
         Panel.mouseRelative].
    rewrite Ek. cbn. split; [reflexivity |]. split; [reflexivity |]. eexists; reflexivity. }
  destruct (String.eqb (Panel.actionType a) "mouse") eqn:Em.
  { cbn [negb orb] in Hm. apply normal_mouse_button in Hm.
    cbn [Panel.ComputerAction_f_save Panel.with_mouse Panel.ComputerAction_new
         Panel.delete Panel.actionType Panel.mouseButtonValue Panel.mouseXSave
         Panel.mouseYSave Panel.mouseHoldTimeSave Panel.mouseX Panel.mouseY
         Panel.mouseHoldTime Panel.saved].
    rewrite Ek, Em, Hm. unfold action_row, checked, relative.
    cbn [Panel.actionType Panel.mouseButtonValue Panel.mouseXSave
         Panel.mouseYSave Panel.mouseHoldTimeSave Panel.mouseRelative].
    rewrite Ek, Em. cbn. rewrite tk_getint_text.
    split; [reflexivity |]. split; [reflexivity |]. eexists; reflexivity. }
  destruct (String.eqb (Panel.actionType a) "wait") eqn:Ew.
  { cbn [Panel.ComputerAction_f_save Panel.with_wait Panel.ComputerAction_new
         Panel.delete Panel.actionType Panel.waitTimeSave Panel.waitTime
         Panel.saved].
    rewrite Ek, Em. unfold action_row, relative.
    cbn [Panel.actionType Panel.waitTimeSave Panel.mouseRelative].
    rewrite Ek, Em, Ew. cbn. split; [reflexivity |]. split; [reflexivity |]. eexists; reflexivity. }
  cbn [Panel.ComputerAction_f_save Panel.ComputerAction_new
       Panel.delete Panel.actionType].
  rewrite Ek, Em. unfold action_row, relative.
  cbn [Panel.actionType Panel.mouseRelative].
  rewrite Ek, Em, Ew. cbn. split; [reflexivity |]. split; [reflexivity |]. eexists; reflexivity.
Qed.

Lemma restored_rows (c : Panel.TwitchCommand) :
  Forall (fun a => buttons_ok a = true) (Panel.actionList c) ->
  storable tk_getint c ->
  command_rows tk_getint (restored tk_getint c) = command_rows tk_getint c
  /\ storable tk_getint (restored tk_getint c).
Proof.
  intros Hb [Hacts Hplain].
  assert (Hrows : map (action_row tk_getint)
                      (map (restored_action tk_getint) (Panel.actionList c))
                  = map (action_row tk_getint) (Panel.actionList c)).
  { rewrite map_map. apply map_ext_in. intros a Ha.
    rewrite Forall_forall in Hb, Hacts.
    apply restored_row; [now apply Hb | now apply (Hacts a Ha)]. }
  assert (Hsame : command_rows tk_getint (restored tk_getint c)
                  = command_rows tk_getint c).
  { unfold command_rows, restored.
    cbn [Panel.savedText Panel.actionList]. now rewrite length_map, Hrows. }
  split; [exact Hsame |]. split; [| now rewrite Hsame].
  unfold restored. cbn [Panel.actionList].
  apply Forall_forall. intros a' Ha'. apply in_map_iff in Ha' as (a & <- & Ha).
  rewrite Forall_forall in Hb, Hacts.
  destruct (@restored_row a (Hb a Ha) (proj2 (Hacts a Ha))) as (_ & Ht & Hr).
  split; [| exact Hr].
  unfold known_kind. rewrite Ht. exact (proj1 (Hacts a Ha)).
Qed.

Lemma restored_panel (l : list Panel.TwitchCommand) :
  Forall (fun c => Forall (fun a => buttons_ok a = true) (Panel.actionList c)) l ->
  Forall (storable tk_getint) l ->
  panel_rows tk_getint (map (restored tk_getint) l) = panel_rows tk_getint l
  /\ Forall (storable tk_getint) (map (restored tk_getint) l)
  /\ map Panel.savedText (map (restored tk_getint) l) = map Panel.savedText l.
Proof.
  induction l as [| c l IH]; intros Hb Hs.
  - repeat split; constructor.
  - inversion Hb as [| ? ? Hbc Hbl]; subst.
    inversion Hs as [| ? ? Hsc Hsl]; subst.
    destruct (IH Hbl Hsl) as (I1 & I2 & I3).
    destruct (restored_rows Hbc Hsc) as [R1 R2].
    unfold panel_rows in *. cbn [map flat_map].
    rewrite R1, I1, I3. split; [reflexivity |]. split; [| reflexivity].
    constructor; assumption.
Qed.

End RestoreFacts.

(** What a draw leaves in the radio buttons. *)
Lemma drawn_buttons_ok (a0 a : Panel.ComputerAction) :
  Panel.ComputerAction_f_draw a0 = Some a -> buttons_ok a = true.
Proof.
  unfold Panel.ComputerAction_f_draw, buttons_ok.
  destruct (Panel.delete a0); [discriminate |].
  destruct (String.eqb (Panel.actionType a0) "keyboard") eqn:Ek.
  { intros H. inversion H; subst a; clear H.
    cbn [Panel.actionType Panel.keyButtonValue Panel.mouseButtonValue].
    rewrite Ek.
    assert (Hm : String.eqb (Panel.actionType a0) "mouse" = false).
    { apply String.eqb_eq in Ek. rewrite Ek. reflexivity. }
    rewrite Hm. cbn [negb orb andb].
    destruct (String.eqb (Panel.keyButtonValue a0) "hold"); [reflexivity |].
    destruct (String.eqb (Panel.keyButtonValue a0) "release"); reflexivity. }
  destruct (String.eqb (Panel.actionType a0) "mouse") eqn:Em.
  { intros H. inversion H; subst a; clear H.
    cbn [Panel.actionType Panel.keyButtonValue Panel.mouseButtonValue].
    rewrite Ek, Em. cbn [negb orb andb].
    destruct (String.eqb (Panel.mouseButtonValue a0) "rc"); [reflexivity |].
    destruct (String.eqb (Panel.mouseButtonValue a0) "mc"); [reflexivity |].
    destruct (String.eqb (Panel.mouseButtonValue a0) "move"); reflexivity. }
  intros H. inversion H; subst a; clear H.
  cbn [Panel.actionType Panel.keyButtonValue Panel.mouseButtonValue].
  rewrite Ek, Em. reflexivity.
Qed.

Lemma drawn_actions_buttons (l : list Panel.ComputerAction) :
  Forall (fun a => buttons_ok a = true)
         (Panel.drawn Panel.ComputerAction_f_draw l).
Proof.
  induction l as [| a l IH]; cbn [Panel.drawn]; [constructor |].
  destruct (Panel.ComputerAction_f_draw a) as [a' |] eqn:E; [| exact IH].
  constructor; [| exact IH]. now apply (drawn_buttons_ok a).
Qed.

Lemma redrawn_buttons (l : list Panel.TwitchCommand) :
  Forall (fun c => Forall (fun a => buttons_ok a = true) (Panel.actionList c))
         (Panel.redrawn l).
Proof.
  unfold Panel.redrawn. induction l as [| c l IH]; cbn [map Panel.drawn];
    [constructor |].
  unfold Panel.TwitchCommand_f_draw at 1.
  destruct (Panel.command_delete (Panel.TwitchCommand_f_save c)); [exact IH |].
  constructor; [| exact IH]. cbn [Panel.actionList].
  apply drawn_actions_buttons.
Qed.

Lemma storable_plain (tk_getint : str -> py_result Z)
      (l : list Panel.TwitchCommand) :
  Forall (storable tk_getint) l ->
  forallb plain_row (panel_rows tk_getint l) = true
  /\ Forall (fun c => Forall (fun a => known_kind a = true) (Panel.actionList c)) l.
Proof.
  induction 1 as [| c l [Hacts Hplain] _ [IH1 IH2]].
  - split; [reflexivity | constructor].
  - split.
    + unfold panel_rows in *. cbn [flat_map]. rewrite forallb_app.
      now rewrite Hplain, IH1.
    + constructor; [| exact IH2].
      eapply Forall_impl; [| exact Hacts]. cbn. tauto.
Qed.

(** What [f_handleLoad] does with the file of a panel. *)
Lemma f_handleLoad_run (py_int tk_getint : str -> py_result Z)
      (l_filePath : str) (l : list Panel.TwitchCommand)
      (s : Panel.Desk) (w : World) :
  (forall n : nat, py_int (format_int (Z.of_nat n)) = Ok (Z.of_nat n)) ->
  Forall (storable tk_getint) l ->
  Panel.endswith (lower l_filePath) ".ttk" = true ->
  exists s',
    Panel.f_handleLoad py_int l_filePath
      (Ok (string_of_list_ascii (file_text (panel_rows tk_getint l)))) s w
    = (Ok tt, s', w)
    /\ Panel.g_commandList s' = Panel.redrawn (map (reloaded tk_getint) l).
Proof.
  intros Hint Hall Hpath. destruct (storable_plain Hall) as [Hplain Hkinds].
  unfold Panel.f_handleLoad. unfold bind at 1. rewrite tell_told.
  rewrite Hpath. unfold bind at 1. unfold bind at 1.
  unfold Panel.lift at 1. unfold bind at 1. unfold Panel.lift at 1.
  rewrite reader_of_file by assumption.
  unfold bind at 1. unfold Panel.set_commandList at 1.
  pose proof (@load_rows_run py_int tk_getint Hint l [] 
                (Panel.mkDesk [] (Panel.effects (told [Panel.PanelPrint Panel.PChooseLoad] s)))
                w Hkinds) as Hload.
  cbn [app length panel_rows flat_map] in Hload.
  fold (panel_rows tk_getint l) in Hload.
  rewrite Hload.
  eexists. split; [reflexivity |]. reflexivity.
Qed.

Lemma decimal_int_format (n : Z) : decimal_int (format_int n) = Ok n.
Proof.
  unfold decimal_int, format_int.
  assert (H : NilZero.string_of_int (Z.to_int n)
              = NilEmpty.string_of_int (Z.to_int n)).
  { destruct n as [| p | p]; cbn [Z.to_int]; [reflexivity | |];
      unfold NilZero.string_of_int, NilEmpty.string_of_int,
        NilZero.string_of_uint;
      pose proof (DecimalPos.Unsigned.to_uint_nonnil p) as Hp;
      destruct (Pos.to_uint p); solve [congruence | reflexivity]. }
  rewrite H.
  pose proof (NilEmpty.isi (Z.to_int n)) as Hisi.
  destruct (NilEmpty.string_of_int (Z.to_int n)) as [| c t] eqn:E.
  - exfalso. destruct n as [| p | p]; cbn [Z.to_int] in E;
      [discriminate | | discriminate].
    unfold NilEmpty.string_of_int in E.
    pose proof (DecimalPos.Unsigned.to_uint_nonnil p) as Hp.
    destruct (Pos.to_uint p); solve [congruence | discriminate].
  - rewrite Hisi. now rewrite DecimalZ.of_to.
Qed.


(** X19.  Save, then load, gives the panel back.  Take a panel whose
    commands, once redrawn, are of the three kinds of action and hold only
    plain texts.  [f_handleSave] returns and writes one row per command
    and per action; [f_handleLoad] on the text of that file, from whatever
    panel, returns; the commands it leaves are all on the screen, they have
    the same texts in the same order and stand for the same rows, value by
    value; and a save after the load writes the same file. *)
Theorem save_then_load_restores :
  forall (py_int tk_getint : str -> py_result Z) (l_savePath l_loadPath : str)
         (s s2 : Panel.Desk) (w : World),
    (forall n : nat, py_int (format_int (Z.of_nat n)) = Ok (Z.of_nat n)) ->
    (forall n : Z, tk_getint (format_int n) = Ok n) ->
    Forall (storable tk_getint) (Panel.redrawn (Panel.g_commandList s)) ->
    Panel.endswith (lower l_loadPath) ".ttk" = true ->
    exists s1 s3 s4,
      Panel.f_handleSave tk_getint l_savePath s w = (Ok tt, s1, w)
      /\ Panel.f_handleLoad py_int l_loadPath
           (Ok (written (Panel.effects s1))) s2 w
         = (Ok tt, s3, w)
      /\ Forall on_screen (Panel.g_commandList s3)
      /\ map Panel.savedText (Panel.g_commandList s3)
         = map Panel.savedText (Panel.g_commandList s1)
      /\ panel_rows tk_getint (Panel.g_commandList s3)
         = panel_rows tk_getint (Panel.g_commandList s1)
      /\ Panel.f_handleSave tk_getint l_savePath s3 w = (Ok tt, s4, w)
      /\ written (Panel.effects s4) = written (Panel.effects s1).
Proof.
  intros py_int tk_getint l_savePath l_loadPath s s2 w Hint Htk Hall Hpath.
  destruct (@f_handleSave_run tk_getint l_savePath s w
              (storable_savable Hall))
    as (s1 & Hsave & Hlist1 & Hfile1).
  set (cmds := Panel.redrawn (Panel.g_commandList s)) in *.
  destruct (@f_handleLoad_run py_int tk_getint l_loadPath cmds s2 w
              Hint Hall Hpath) as (s3 & Hload & Hlist3).
  rewrite (redrawn_reloaded tk_getint) in Hlist3.
  destruct (@restored_panel tk_getint Htk cmds
              (redrawn_buttons (Panel.g_commandList s)) Hall)
    as (Hrows & Hstorable & Htexts).
  assert (Hsettled : Panel.redrawn (Panel.g_commandList s3)
                     = Panel.g_commandList s3).
  { rewrite Hlist3, <- (redrawn_reloaded tk_getint).
    apply commands_settle. }
  assert (Hall3 : Forall (storable tk_getint)
                         (Panel.redrawn (Panel.g_commandList s3))).
  { rewrite Hsettled, Hlist3. exact Hstorable. }
  destruct (@f_handleSave_run tk_getint l_savePath s3 w
              (storable_savable Hall3))
    as (s4 & Hsave4 & Hlist4 & Hfile4).
  exists s1, s3, s4.
  split; [exact Hsave |]. split.
  { rewrite Hfile1, Hlist1. exact Hload. }
  split.
  { rewrite Hlist3, <- (redrawn_reloaded tk_getint). apply commands_settle. }
  split; [rewrite Hlist3, Hlist1; exact Htexts |].
  split; [rewrite Hlist3, Hlist1; exact Hrows |].
  split; [exact Hsave4 |].
  rewrite Hfile4, Hfile1, Hlist4, Hsettled, Hlist3, Hlist1, Hrows. reflexivity.
Qed.

Lemma jump_panel_storable :
  Forall (storable decimal_int) (Panel.redrawn (Panel.g_commandList jump_panel)).
Proof.
  constructor; [| constructor]. split.
  - constructor; [| constructor; [| constructor]];
      (split; [reflexivity | eexists; reflexivity]).
  - vm_compute. reflexivity.
Qed.

(** The text typed in the field is what comes back from the file. *)
Lemma save_then_load_restores_witness :
  exists s1 s3,
    Panel.f_handleSave decimal_int "jump" jump_panel (still_world 0)
    = (Ok tt, s1, still_world 0)
    /\ Panel.f_handleLoad decimal_int "jump.TTK"
         (Ok (written (Panel.effects s1))) empty_desk (still_world 0)
       = (Ok tt, s3, still_world 0)
    /\ map Panel.savedText (Panel.g_commandList s3)
       = map Panel.savedText (Panel.g_commandList s1).
Proof.
  destruct (@save_then_load_restores decimal_int decimal_int "jump" "jump.TTK"
              jump_panel empty_desk (still_world 0)
              (fun n => decimal_int_format (Z.of_nat n)) decimal_int_format
              jump_panel_storable eq_refl)
    as (s1 & s3 & _ & H1 & H2 & _ & H4 & _).
  exists s1, s3. split; [exact H1 |]. split; [exact H2 | exact H4].
Defined.


(* ===================================================================== *)
(** * A comma in the text of a command *)
(* ===================================================================== *)

Lemma list_ascii_app (a c : str) :
  list_ascii_of_string (String.append a c)
  = list_ascii_of_string a ++ list_ascii_of_string c.
Proof. induction a as [| x a IH]; cbn; [reflexivity | now rewrite IH]. Qed.

Lemma string_of_app (l1 l2 : list ascii) :
  string_of_list_ascii (l1 ++ l2)
  = String.append (string_of_list_ascii l1) (string_of_list_ascii l2).
Proof. induction l1 as [| x l1 IH]; cbn; [reflexivity | now rewrite IH]. Qed.

Lemma double_quotes_plain (l1 l2 : list ascii) :
  forallb plain_char l1 = true ->
  forallb plain_char l2 = true ->
  Panel.double_quotes (l1 ++ Panel.COMMA :: l2) = l1 ++ Panel.COMMA :: l2.
Proof.
  assert (Hplain : forall l, forallb plain_char l = true ->
                             Panel.double_quotes l = l).
  { induction l as [| c l IH]; [reflexivity |].
    cbn [forallb Panel.double_quotes]. intros H.
    apply andb_true_iff in H as [Hc Hl].
    apply plain_char_spec in Hc as (_ & H2 & _).
    rewrite H2. now rewrite IH. }
  intros H1 H2. induction l1 as [| c l1 IH].
  - cbn [app Panel.double_quotes].
    change (Ascii.eqb Panel.COMMA Panel.DQUOTE) with false. cbv iota.
    now rewrite Hplain.
  - cbn [forallb] in H1. apply andb_true_iff in H1 as [Hc Hl].
    apply plain_char_spec in Hc as (_ & E2 & _).
    cbn [app Panel.double_quotes]. rewrite E2. now rewrite IH.
Qed.

(** The writer puts a text with a comma between quotation marks. *)
Lemma write_field_comma (l1 l2 : list ascii) :
  forallb plain_char l1 = true ->
  forallb plain_char l2 = true ->
  Panel.write_field (l1 ++ Panel.COMMA :: l2)
  = Panel.DQUOTE :: l1 ++ Panel.COMMA :: l2 ++ [Panel.DQUOTE].
Proof.
  intros H1 H2. unfold Panel.write_field.
  rewrite existsb_app. cbn [existsb].
  change (Panel.needs_quotes Panel.COMMA) with true.
  cbn [orb]. rewrite orb_true_r.
  rewrite double_quotes_plain by assumption.
  now rewrite <- app_assoc.
Qed.

Lemma joined_no_eol (fs : list (list ascii)) :
  forallb rplain fs = true ->
  forallb (fun c => negb (Panel.is_eol c)) (joined fs) = true.
Proof.
  assert (Hfield : forall f, rplain f = true ->
                             forallb (fun c => negb (Panel.is_eol c)) f = true).
  { intros f Hf. apply rplain_spec in Hf as [Hf _].
    induction f as [| c f IH]; [reflexivity |].
    cbn [forallb] in *. apply andb_true_iff in Hf as [Hc Hf].
    apply rplain_char_spec in Hc as (_ & _ & H4 & H5).
    unfold Panel.is_eol at 1. rewrite H4, H5. now apply IH. }
  induction fs as [| f fs IH]; [reflexivity |].
  cbn [forallb]. intros H. apply andb_true_iff in H as [Hf Hfs].
  destruct fs as [| g fs].
  - cbn [joined]. now apply Hfield.
  - change (joined (f :: g :: fs)) with (f ++ Panel.COMMA :: joined (g :: fs)).
    rewrite forallb_app, Hfield by assumption.
    cbn [forallb andb]. now rewrite IH.
Qed.

Section CommaFacts.

Variable tk_getint : str -> py_result Z.
Variables x y : str.
Hypothesis x_plain : short_plain x = true.
Hypothesis y_plain : short_plain y = true.

Let tx := list_ascii_of_string x.
Let ty := list_ascii_of_string y.
Let command := list_ascii_of_string "command".

Lemma short_plain_spec (t : str) :
  short_plain t = true ->
  forallb plain_char (list_ascii_of_string t) = true
  /\ (Z.of_nat (length (list_ascii_of_string t)) < Panel.field_limit)%Z.
Proof.
  unfold short_plain. intros H. apply andb_true_iff in H as [H1 H2].
  apply Z.ltb_lt in H2. auto.
Qed.

Lemma plain_chars_rplain (t : list ascii) :
  forallb plain_char t = true -> forallb rplain_char t = true.
Proof.
  intros H. rewrite forallb_forall in H. apply forallb_forall.
  intros c Hc. apply H in Hc.
  apply plain_char_spec in Hc as (E1 & _ & E3 & E4 & E5).
  unfold rplain_char. now rewrite E1, E3, E4, E5.
Qed.

(** The header of a command whose text is [x], a comma, [y], as the
    writer leaves it. *)
Lemma comma_header (n : Z) :
  plain (Panel.cell_text (Panel.CInt n)) = true ->
  Panel.writerow [Panel.CStr "command";
                  Panel.CStr (String.append x (String Panel.COMMA y));
                  Panel.CInt n]
  = joined [command; Panel.DQUOTE :: tx; ty ++ [Panel.DQUOTE];
            Panel.cell_text (Panel.CInt n)]
    ++ [Panel.cCR; Panel.cLF].
Proof.
  intros Hn. apply plain_spec in Hn as [Hn _].
  destruct (@short_plain_spec x x_plain) as [Hx _].
  destruct (@short_plain_spec y y_plain) as [Hy _].
  unfold Panel.writerow. cbn [map].
  change (Panel.cell_text (Panel.CStr "command")) with command.
  change (Panel.cell_text (Panel.CStr (String.append x (String Panel.COMMA y))))
    with (list_ascii_of_string (String.append x (String Panel.COMMA y))).
  rewrite list_ascii_app.
  change (list_ascii_of_string (String Panel.COMMA y)) with (Panel.COMMA :: ty).
  fold tx.
  cbn [Panel.join_fields]. rewrite write_field_comma by assumption.
  rewrite (write_field_plain _ Hn).
  change (Panel.write_field command) with command.
  cbn [joined]. unfold command. cbn [list_ascii_of_string app].
  repeat (rewrite <- app_assoc; cbn [app]). reflexivity.
Qed.

Lemma comma_fields (n : Z) :
  plain (Panel.cell_text (Panel.CInt n)) = true ->
  forallb rplain [command; Panel.DQUOTE :: tx; ty ++ [Panel.DQUOTE];
                  Panel.cell_text (Panel.CInt n)] = true.
Proof.
  intros Hn.
  destruct (@short_plain_spec x x_plain) as [Hx Lx].
  destruct (@short_plain_spec y y_plain) as [Hy Ly].
  cbn [forallb]. rewrite (plain_rplain _ Hn).
  change (rplain command) with true. cbn [andb]. rewrite andb_true_r.
  apply andb_true_iff. split; unfold rplain; apply andb_true_iff; split.
  - cbn [forallb]. change (rplain_char Panel.DQUOTE) with true.
    now apply plain_chars_rplain.
  - apply Z.leb_le. fold tx in Lx. cbn [length]. lia.
  - rewrite forallb_app. cbn [forallb].
    change (rplain_char Panel.DQUOTE) with true.
    rewrite plain_chars_rplain by assumption. reflexivity.
  - apply Z.leb_le. fold ty in Ly. rewrite length_app. cbn [length]. lia.
Qed.

(** What the reader makes of a file that starts with such a header: the
    comma cuts the text in two and the quotation marks stay. *)
Lemma reader_of_comma_file (n : Z) (rows : list (list Panel.cell)) :
  plain (Panel.cell_text (Panel.CInt n)) = true ->
  forallb plain_row rows = true ->
  Panel.reader Panel.COMMA Panel.PIPE
    (string_of_list_ascii
       (file_text ([Panel.CStr "command";
                    Panel.CStr (String.append x (String Panel.COMMA y));
                    Panel.CInt n] :: rows)))
  = Ok (["command"%string;
         String Panel.DQUOTE x;
         String.append y quote_mark;
         format_int n]
        :: map row_strings rows).
Proof.
  intros Hn Hrows. unfold Panel.reader, file_text.
  rewrite list_ascii_round. cbn [map concat].
  rewrite (@comma_header n Hn). rewrite <- app_assoc. cbn [app].
  rewrite lines_from_body by (apply joined_no_eol, (@comma_fields n Hn)).
  fold (file_text rows). rewrite lines_of_file by assumption.
  cbn [app Panel.reader_rows].
  pose proof (@comma_fields n Hn) as Hfields.
  unfold command in *. cbn [list_ascii_of_string] in *.
  rewrite (parse_joined_reset _ _ _ _ Hfields).
  cbn [Panel.state Panel.fields].
  rewrite reader_rows_plain by assumption.
  cbn [map]. f_equal. f_equal.
  - f_equal. f_equal; [| f_equal; [| f_equal]].
    + unfold tx. cbn [string_of_list_ascii]. now rewrite str_round.
    + unfold ty. rewrite string_of_app, str_round. reflexivity.
    + cbn [Panel.cell_text]. now rewrite str_round.
  - rewrite map_map. apply map_ext. intros row.
    unfold row_strings. now rewrite map_map.
Qed.

End CommaFacts.


(** X20.  A comma in the text of a command makes the file unreadable for
    the program.  Take a panel whose first command, once redrawn, has a
    text with a comma in it, everything else being plain.  [f_handleSave]
    returns, and the writer puts that text between quotation marks.
    [f_handleLoad] on that file reads with another quote character: the
    comma cuts the text in two, the second half with the closing quotation
    mark lands where the number of actions is expected, [int] refuses it,
    and the load raises with the list of commands already emptied and
    nothing drawn: what the panel held before the load is gone. *)
Theorem comma_in_text_breaks_load :
  forall (py_int tk_getint : str -> py_result Z) (l_savePath l_loadPath : str)
         (s s2 : Panel.Desk) (w : World)
         (c : Panel.TwitchCommand) (cmds : list Panel.TwitchCommand)
         (x y : str) (e : exn),
    Panel.redrawn (Panel.g_commandList s) = c :: cmds ->
    Panel.savedText c = String.append x (String Panel.COMMA y) ->
    short_plain x = true ->
    short_plain y = true ->
    storable tk_getint (without_text c) ->
    Forall (storable tk_getint) cmds ->
    py_int (String.append y quote_mark) = Raise e ->
    Panel.endswith (lower l_loadPath) ".ttk" = true ->
    exists s1,
      Panel.f_handleSave tk_getint l_savePath s w = (Ok tt, s1, w)
      /\ Panel.f_handleLoad py_int l_loadPath
           (Ok (written (Panel.effects s1))) s2 w
         = (Raise e,
            Panel.mkDesk [] (Panel.effects s2
                             ++ [Panel.PanelPrint Panel.PChooseLoad]),
            w).
Proof.
  intros py_int tk_getint l_savePath l_loadPath s s2 w c cmds x y e
         Hlist Htext Hx Hy [Hacts Hplain] Hcmds Hint Hpath.
  cbn [without_text Panel.actionList] in Hacts.
  assert (Hsavable : Forall (savable tk_getint)
                            (Panel.redrawn (Panel.g_commandList s))).
  { rewrite Hlist. constructor; [exact Hacts |].
    now apply storable_savable. }
  destruct (@f_handleSave_run tk_getint l_savePath s w Hsavable)
    as (s1 & Hsave & Hlist1 & Hfile1).
  exists s1. split; [exact Hsave |].
  rewrite Hfile1, Hlist1, Hlist.
  unfold panel_rows. cbn [flat_map]. fold (panel_rows tk_getint cmds).
  unfold command_rows at 1. rewrite Htext. cbn [app].
  unfold command_rows in Hplain.
  cbn [without_text Panel.actionList Panel.savedText forallb] in Hplain.
  apply andb_true_iff in Hplain as [Hhead Hrows].
  unfold plain_row in Hhead. cbn [length forallb] in Hhead.
  apply andb_true_iff in Hhead as [_ Hhead].
  apply andb_true_iff in Hhead as [_ Hhead].
  apply andb_true_iff in Hhead as [_ Hhead].
  apply andb_true_iff in Hhead as [Hcount _].
  assert (Hrest : forallb plain_row
                    (map (action_row tk_getint) (Panel.actionList c)
                     ++ panel_rows tk_getint cmds) = true).
  { rewrite forallb_app, Hrows. now apply storable_plain. }
  unfold Panel.f_handleLoad. unfold bind at 1. rewrite tell_told.
  rewrite Hpath. unfold bind at 1. unfold bind at 1.
  unfold Panel.lift at 1. unfold bind at 1. unfold Panel.lift at 1.
  rewrite (@reader_of_comma_file x y Hx Hy _ _ Hcount Hrest).
  unfold bind at 1. unfold Panel.set_commandList at 1.
  cbn [Panel.load_rows]. unfold bind at 1. unfold bind at 1.
  unfold Panel.item at 1. cbn [nth_error]. unfold ret at 1.
  change (String.eqb "command" "command") with true. cbv iota.
  unfold bind at 1. unfold Panel.item at 1. cbn [nth_error]. unfold ret at 1.
  unfold bind at 1. unfold Panel.item at 1. cbn [nth_error]. unfold ret at 1.
  unfold bind at 1. unfold Panel.lift at 1. rewrite Hint.
  reflexivity.
Qed.

(** The panel holds [!jump] when the file of a panel whose command reads
    [go left, now] is loaded: nothing is loaded and [!jump] is gone. *)
Lemma comma_in_text_breaks_load_witness :
  exists s1 e,
    Panel.f_handleSave decimal_int "moves.ttk" comma_panel (still_world 0)
    = (Ok tt, s1, still_world 0)
    /\ Panel.f_handleLoad decimal_int "moves.ttk"
         (Ok (written (Panel.effects s1))) jump_panel (still_world 0)
       = (Raise e, Panel.mkDesk [] [Panel.PanelPrint Panel.PChooseLoad],
          still_world 0).
Proof.
  destruct (@comma_in_text_breaks_load decimal_int decimal_int
              "moves.ttk" "moves.ttk" comma_panel jump_panel (still_world 0)
              (Panel.mkCommand
                 [Panel.mkAction "keyboard" false "tap" (Some "250"%string)
                                 "250" "SPACE" EmptyString None "0" None "0"
                                 None "500" (Panel.TInt 0) None "500"]
                 (Some "go left, now"%string) false "go left, now")
              [] "go left" " now"
              (ValueError "invalid literal for int() with base 10")
              eq_refl eq_refl eq_refl eq_refl)
    as (s1 & H1 & H2).
  - split.
    + constructor; [| constructor].
      split; [reflexivity | eexists; reflexivity].
    + vm_compute. reflexivity.
  - constructor.
  - reflexivity.
  - reflexivity.
  - exists s1, (ValueError "invalid literal for int() with base 10").
    split; [exact H1 | exact H2].
Defined.


(* ===================================================================== *)
(** * The buttons of the panel *)
(* ===================================================================== *)

Lemma drawn_app (A : Type) (f : A -> option A) (l1 l2 : list A) :
  Panel.drawn f (l1 ++ l2) = Panel.drawn f l1 ++ Panel.drawn f l2.
Proof.
  induction l1 as [| x l1 IH]; [reflexivity |].
  cbn [app Panel.drawn]. destruct (f x); cbn [app]; now rewrite IH.
Qed.

Lemma redrawn_app (l1 l2 : list Panel.TwitchCommand) :
  Panel.redrawn (l1 ++ l2) = Panel.redrawn l1 ++ Panel.redrawn l2.
Proof. unfold Panel.redrawn. now rewrite map_app, drawn_app. Qed.

Lemma redrawn_actions_app (l1 l2 : list Panel.ComputerAction) :
  redrawn_actions (l1 ++ l2) = redrawn_actions l1 ++ redrawn_actions l2.
Proof. unfold redrawn_actions. now rewrite map_app, drawn_app. Qed.

Lemma redrawn_cons (c : Panel.TwitchCommand) (l : list Panel.TwitchCommand) :
  Panel.redrawn (c :: l)
  = (if Panel.command_delete c then []
     else [shown_with (redrawn_actions (Panel.actionList c)) c])
    ++ Panel.redrawn l.
Proof.
  unfold Panel.redrawn. cbn [map Panel.drawn].
  unfold Panel.TwitchCommand_f_draw at 1.
  cbn [Panel.TwitchCommand_f_save Panel.command_delete Panel.actionList
       Panel.savedText Panel.chatText].
  destruct (Panel.command_delete c); reflexivity.
Qed.

Lemma on_command_redraw (i : nat) (f : Panel.TwitchCommand -> Panel.TwitchCommand)
      (c : Panel.TwitchCommand) (s : Panel.Desk) (w : World) :
  nth_error (Panel.g_commandList s) i = Some c ->
  (Panel.on_command i f ;; Panel.f_redraw)%py s w
  = (Ok tt,
     Panel.mkDesk (Panel.redrawn (firstn i (Panel.g_commandList s))
                   ++ Panel.redrawn [f c]
                   ++ Panel.redrawn (skipn (S i) (Panel.g_commandList s)))
                  (Panel.effects s),
     w).
Proof.
  intros Hc. unfold bind at 1. unfold Panel.on_command, bind at 1, get at 1.
  rewrite Hc. unfold Panel.set_commandList at 1.
  unfold Panel.f_redraw, bind, get, Panel.set_commandList.
  cbn [Panel.g_commandList Panel.effects].
  rewrite redrawn_app.
  change (f c :: skipn (S i) (Panel.g_commandList s))
    with ([f c] ++ skipn (S i) (Panel.g_commandList s)).
  now rewrite redrawn_app.
Qed.

(** X21.  Adding and deleting a command touch no other command.  The Add
    Command button leaves the commands that were there, redrawn, followed
    by one command with an empty text and no action.  The X button of a
    command leaves the commands before it and the commands after it,
    redrawn, as if the command had never been there. *)
Theorem command_buttons_keep_the_rest :
  forall (s : Panel.Desk) (w : World),
    Panel.f_handleAddCommand s w
    = (Ok tt,
       Panel.mkDesk (Panel.redrawn (Panel.g_commandList s)
                     ++ [Panel.mkCommand [] (Some EmptyString) false EmptyString])
                    (Panel.effects s),
       w)
    /\ forall (i : nat) (c : Panel.TwitchCommand),
        nth_error (Panel.g_commandList s) i = Some c ->
        Panel.TwitchCommand_f_signalDeletion i s w
        = (Ok tt,
           Panel.mkDesk (Panel.redrawn (firstn i (Panel.g_commandList s))
                         ++ Panel.redrawn (skipn (S i) (Panel.g_commandList s)))
                        (Panel.effects s),
           w).
Proof.
  intros s w. split.
  - unfold Panel.f_handleAddCommand, bind at 1, get at 1.
    unfold bind at 1, Panel.set_commandList at 1.
    unfold Panel.f_redraw, bind, get, Panel.set_commandList.
    cbn [Panel.g_commandList Panel.effects].
    now rewrite redrawn_app.
  - intros i c Hc. unfold Panel.TwitchCommand_f_signalDeletion.
    rewrite (@on_command_redraw i _ c s w Hc).
    rewrite redrawn_cons. cbn [Panel.command_delete app]. reflexivity.
Qed.

Lemma add_action_redraw (kind : str) (a : Panel.ComputerAction) (i : nat)
      (c : Panel.TwitchCommand) (s : Panel.Desk) (w : World) :
  redrawn_actions [Panel.ComputerAction_new kind] = [a] ->
  nth_error (Panel.g_commandList s) i = Some c ->
  Panel.command_delete c = false ->
  (Panel.on_command i (Panel.append_action kind) ;; Panel.f_redraw)%py s w
  = (Ok tt,
     Panel.mkDesk (Panel.redrawn (firstn i (Panel.g_commandList s))
                   ++ shown_with (redrawn_actions (Panel.actionList c) ++ [a]) c
                   :: Panel.redrawn (skipn (S i) (Panel.g_commandList s)))
                  (Panel.effects s),
     w).
Proof.
  intros Ha Hc Hd. rewrite (@on_command_redraw i _ c s w Hc).
  rewrite redrawn_cons.
  cbn [Panel.append_action Panel.command_delete Panel.actionList].
  rewrite Hd, redrawn_actions_app, Ha. reflexivity.
Qed.

(** X22.  Adding and deleting an action touch nothing else.  On a command
    that is not marked for deletion, the three Add buttons leave the
    other commands, redrawn, and this command with its actions, redrawn,
    followed by one new action: a tap of 500 ms with no key chosen, a left
    click at (0, 0), or a wait of 500 ms.  The X button of an action leaves
    the same but for that action.  The text typed for the command is
    kept. *)
Theorem action_buttons_keep_the_rest :
  forall (s : Panel.Desk) (w : World) (i : nat) (c : Panel.TwitchCommand),
    nth_error (Panel.g_commandList s) i = Some c ->
    Panel.command_delete c = false ->
    let l_before := Panel.redrawn (firstn i (Panel.g_commandList s)) in
    let l_after := Panel.redrawn (skipn (S i) (Panel.g_commandList s)) in
    let l_actions := redrawn_actions (Panel.actionList c) in
    Panel.f_handleAddKeyboard i s w
    = (Ok tt,
       Panel.mkDesk (l_before
                     ++ shown_with (l_actions ++ [fresh_keyboard]) c :: l_after)
                    (Panel.effects s), w)
    /\ Panel.f_handleAddMouse i s w
       = (Ok tt,
          Panel.mkDesk (l_before
                        ++ shown_with (l_actions ++ [fresh_mouse]) c :: l_after)
                       (Panel.effects s), w)
    /\ Panel.f_handleAddWait i s w
       = (Ok tt,
          Panel.mkDesk (l_before
                        ++ shown_with (l_actions ++ [fresh_wait]) c :: l_after)
                       (Panel.effects s), w)
    /\ forall (j : nat) (a : Panel.ComputerAction),
        nth_error (Panel.actionList c) j = Some a ->
        Panel.ComputerAction_f_signalDeletion i j s w
        = (Ok tt,
           Panel.mkDesk
             (l_before
              ++ shown_with (redrawn_actions (firstn j (Panel.actionList c))
                             ++ redrawn_actions (skipn (S j) (Panel.actionList c)))
                            c
              :: l_after)
             (Panel.effects s), w).
Proof.
  intros s w i c Hc Hd l_before l_after l_actions.
  split; [| split; [| split]].
  - exact (@add_action_redraw "keyboard" fresh_keyboard i c s w eq_refl Hc Hd).
  - exact (@add_action_redraw "mouse" fresh_mouse i c s w eq_refl Hc Hd).
  - exact (@add_action_redraw "wait" fresh_wait i c s w eq_refl Hc Hd).
  - intros j a Ha. unfold Panel.ComputerAction_f_signalDeletion.
    rewrite (@on_command_redraw i _ c s w Hc). rewrite Ha.
    rewrite redrawn_cons.
    cbn [Panel.command_delete Panel.actionList Panel.chatText Panel.savedText].
    rewrite Hd.
    change (Panel.mark_deleted a :: skipn (S j) (Panel.actionList c))
      with ([Panel.mark_deleted a] ++ skipn (S j) (Panel.actionList c)).
    rewrite !redrawn_actions_app.
    change (redrawn_actions [Panel.mark_deleted a]) with (@nil Panel.ComputerAction).
    reflexivity.
Qed.

(** The Add Wait button on the command of [jump_panel]. *)
Lemma action_buttons_keep_the_rest_witness :
  Panel.f_handleAddWait 0 jump_panel (still_world 0)
  = (Ok tt,
     Panel.mkDesk
       [Panel.mkCommand
          [Panel.mkAction "keyboard" false "tap" (Some "250"%string) "250"
                          "SPACE" EmptyString None "0" None "0" None "500"
                          (Panel.TInt 0) None "500";
           Panel.mkAction "mouse" false EmptyString None "500" EmptyString
                          "lc" (Some "10"%string) "10" (Some "20"%string) "20"
                          (Some "500"%string) "500" (Panel.TInt 1) None "500";
           fresh_wait]
          (Some "!jump"%string) false "!jump"]
       [],
     still_world 0).
Proof.
  refine (eq_trans
            (proj1 (proj2 (proj2
               (@action_buttons_keep_the_rest jump_panel (still_world 0) 0 _
                  eq_refl eq_refl)))) _).
  vm_compute. reflexivity.
Defined.


(* ===================================================================== *)
(** * What processing an action can do *)
(* ===================================================================== *)

Section ProcessFacts.

Variable py_int tk_getint : str -> py_result Z.
Variable sleep_error : Z -> option exn.

Lemma coordinate_run (A : Type) (widget : option str) (some : Z -> A)
      (default : A) (s : Panel.Desk) (w : World) :
  exists r, Panel.coordinate py_int widget some default s w = (r, s, w).
Proof.
  unfold Panel.coordinate, bind, Panel.Text_get, Panel.lift, ret, raise.
  destruct widget as [text |]; [| eauto].
  destruct (negb (String.eqb text EmptyString)); [| eauto].
  destruct (py_int text); eauto.
Qed.

Lemma IntVar_get_run (v : Panel.tk_value) (s : Panel.Desk) (w : World) :
  exists r, Panel.IntVar_get tk_getint v s w = (r, s, w).
Proof. destruct v; cbn; unfold ret, Panel.lift; eauto. Qed.

(** Two coordinates, then one call. *)
Lemma click_run (A : Type) (some : Z -> A) (default : A)
      (call : A -> A -> Panel.effect) (wx wy : option str)
      (s : Panel.Desk) (w : World) :
  (forall x y, mouse_call (call x y)) ->
  exists r es,
    (x <- Panel.coordinate py_int wx some default ;;
     y <- Panel.coordinate py_int wy some default ;;
     Panel.tell (call x y))%py s w
    = (r, told es s, w)
    /\ process_trace r es.
Proof.
  intros Hcall.
  destruct (coordinate_run wx some default s w) as [rx Hx].
  destruct (coordinate_run wy some default s w) as [ry Hy].
  unfold bind at 1. rewrite Hx. destruct rx as [x | e].
  - unfold bind at 1. rewrite Hy. destruct ry as [y | e].
    + rewrite tell_told. eexists _, _. split; [reflexivity |].
      now apply trace_mouse.
    + exists (Raise e), []. rewrite told_nil. split; [reflexivity | constructor].
  - exists (Raise e), []. rewrite told_nil. split; [reflexivity | constructor].
Qed.

(** X23.  What processing one action can do.  Whatever the action holds,
    [f_process] leaves the list of commands alone and does one of five
    things: nothing at all (it then returns or raises); one press or one
    release of a key; the press of a tap whose sleep raises, and then it
    raises; the press, the sleep and the release of a tap, on the same
    key; one call of pydirectinput.  Every key it touches has a scan code
    of the key table, and an exception that is not the one of the sleep of
    a tap is raised before anything is done. *)
Theorem process_does_one_thing :
  forall (a : Panel.ComputerAction) (s : Panel.Desk) (w : World),
    exists r es,
      Panel.f_process py_int tk_getint sleep_error a s w = (r, told es s, w)
      /\ process_trace r es.
Proof.
  intros a s w. unfold Panel.f_process.
  assert (Hnone : forall r, exists r' es,
             (r, s, w) = (r', told es s, w) /\ process_trace r' es).
  { intros r. exists r, []. rewrite told_nil. split; [reflexivity | constructor]. }
  destruct (String.eqb (Panel.actionType a) "keyboard").
  { assert (Hcode : forall c,
               Panel.dict_get Panel.G_KEY_DICTIONARY (Panel.keyName a) = Ok c ->
               table_code c) by (intros c Hc; now exists (Panel.keyName a)).
    destruct (String.eqb (Panel.keyButtonValue a) "hold").
    { unfold bind, Panel.lift.
      destruct (Panel.dict_get _ _) as [c | e] eqn:Ec; [| apply Hnone].
      unfold Panel.f_holdKey. rewrite tell_told.
      eexists _, _. split; [reflexivity |]. apply trace_hold; auto. }
    destruct (String.eqb (Panel.keyButtonValue a) "release").
    { unfold bind, Panel.lift.
      destruct (Panel.dict_get _ _) as [c | e] eqn:Ec; [| apply Hnone].
      unfold Panel.f_releaseKey. rewrite tell_told.
      eexists _, _. split; [reflexivity |]. apply trace_release; auto. }
    destruct (String.eqb (Panel.keyButtonValue a) "tap"); [| apply Hnone].
    unfold bind at 1, Panel.lift at 1.
    destruct (Panel.dict_get _ _) as [c | e] eqn:Ec; [| apply Hnone].
    unfold bind at 1, Panel.Text_get.
    destruct (Panel.keyTapTime a) as [text |]; [| apply Hnone].
    unfold ret at 1. unfold bind at 1, Panel.lift at 1.
    destruct (py_int text) as [ms | e]; [| apply Hnone].
    unfold Panel.f_tapKey, Panel.f_holdKey, Panel.f_releaseKey,
      Panel.time_sleep_ms.
    unfold bind at 1. rewrite tell_told. unfold bind at 1.
    destruct (sleep_error ms) as [e |].
    - eexists _, _. split; [reflexivity |]. apply trace_stuck; auto.
    - rewrite tell_told, tell_told, !told_told. cbn [app].
      eexists _, _. split; [reflexivity |]. apply trace_tap; auto. }
  destruct (String.eqb (Panel.actionType a) "mouse").
  { destruct (String.eqb (Panel.mouseButtonValue a) "lc").
    { apply click_run. intros; exact I. }
    destruct (String.eqb (Panel.mouseButtonValue a) "rc").
    { apply click_run. intros; exact I. }
    destruct (String.eqb (Panel.mouseButtonValue a) "mc").
    { apply click_run. intros; exact I. }
    destruct (String.eqb (Panel.mouseButtonValue a) "move"); [| apply Hnone].
    destruct (coordinate_run (Panel.mouseX a) (fun n => n) 0%Z s w) as [rx Hx].
    destruct (coordinate_run (Panel.mouseY a) (fun n => n) 0%Z s w) as [ry Hy].
    destruct (IntVar_get_run (Panel.mouseRelative a) s w) as [rr Hr].
    unfold bind at 1. rewrite Hx. destruct rx as [x | e]; [| apply Hnone].
    unfold bind at 1. rewrite Hy. destruct ry as [y | e]; [| apply Hnone].
    unfold bind at 1. rewrite Hr. destruct rr as [r | e]; [| apply Hnone].
    rewrite tell_told. eexists _, _. split; [reflexivity |].
    apply trace_mouse. exact I. }
  destruct (String.eqb (Panel.actionType a) "wait"); [| apply Hnone].
  destruct (Panel.waitTime a); apply Hnone.
Qed.

End ProcessFacts.
